(** * ModuSQL sync core: a shallow embedding and its verification

    The development follows the TypeScript sources of the repository:
    - [Database]   (database.ts)  the sql.js wrapper: CRUD, operation log,
                                  savepoints, rollback and replay;
    - [SyncManager] (sync.ts)     envelopes, join / input / reconnect handlers;
    - [ModuSQL]    (index.ts)     the public facade and the client id.

    Platform pieces the repository only calls are modelled as follows.
    - JavaScript values: a payload value is a scalar (null, an integer, a
      string) or an object of scalars (the [_where] predicate).  Numbers are
      integers; [NaN] is kept for [localSeqCounter], which [parseInt] can
      produce.  An object is the list of its entries in property order
      (insertion order; keys are distinct and none is an array index);
      where only the mapping matters it is read through [fields].
    - The embedded SQL engine: tables with declared columns, an optional
      single-column primary key, NOT NULL and DEFAULT, rows in insertion
      order, and a stack of named savepoints.  Statements are given as
      syntax trees in place of SQL text; keys and table names are taken as
      SQL identifiers.  Column affinity and rowid aliasing are not modelled.
    - [export] / [new Database(bytes)]: an injective encoding of the table
      contents.  sql.js exports by closing the connection, reading the
      database file and opening it again: the open transaction is rolled
      back, so the image and the engine afterwards hold what was committed
      (the state at the outermost savepoint, if one is held) and every
      savepoint is gone.
    - [localStorage]: a finite map from strings to strings; [setItem] always
      succeeds.
    - [Date.now()] and [Math.random()] are inputs of the functions that call
      them. *)

From stdpp Require Import base strings gmap list countable.
From Stdlib Require Import ZArith Ascii DecimalString DecimalN DecimalZ Sorted.

Local Open Scope Z_scope.

(** ** JavaScript values *)

Inductive scalar := Null | Num (z : Z) | Str (s : string).

(** An object: its own entries in property order. *)
Definition object (A : Type) : Type := list (string * A).

Inductive jsval := Scalar (v : scalar) | Obj (o : object scalar).

(** A JavaScript number that is an integer or NaN. *)
Inductive number := Int (z : Z) | NaN.

#[global] Instance scalar_eq_dec : EqDecision scalar.
Proof. solve_decision. Defined.

#[global] Instance jsval_eq_dec : EqDecision jsval.
Proof. solve_decision. Defined.

#[global] Instance number_eq_dec : EqDecision number.
Proof. solve_decision. Defined.

#[global] Instance scalar_countable : Countable scalar.
Proof.
  refine (inj_countable'
    (fun v => match v with
              | Null => inl ()
              | Num z => inr (inl z)
              | Str s => inr (inr s)
              end)
    (fun x => match x with
              | inl _ => Null
              | inr (inl z) => Num z
              | inr (inr s) => Str s
              end) _).
  by intros [].
Defined.

(** The object as a mapping from keys to values. *)
Definition fields {A} (o : object A) : gmap string A := list_to_map o.

(** [{ ...o, k: v }]: an existing key keeps its place, a new one goes last. *)
Definition obj_set {A} (k : string) (v : A) (o : object A) : object A :=
  if bool_decide (k ∈ o.*1)
  then (fun kv => if bool_decide (kv.1 = k) then (k, v) else kv) <$> o
  else o ++ [(k, v)].

Definition is_null (v : scalar) : bool :=
  match v with Null => true | _ => false end.

(** [Number.prototype.toString] on integers, and [x++]. *)
Definition dec (z : Z) : string := NilZero.string_of_int (Z.to_int z).

Definition number_toString (n : number) : string :=
  match n with Int z => dec z | NaN => "NaN" end.

Definition incr (n : number) : number :=
  match n with Int z => Int (z + 1) | NaN => NaN end.

(** [parseInt(s, 10)]: leading white space, an optional sign, then the
    longest prefix of decimal digits; NaN when there is no digit. *)
Definition is_space (c : ascii) : bool :=
  let n := nat_of_ascii c in
  (Nat.eqb n 32 || (Nat.leb 9 n && Nat.leb n 13))%bool.

Fixpoint skip_spaces (s : string) : string :=
  match s with
  | String c s' => if is_space c then skip_spaces s' else s
  | EmptyString => s
  end.

Fixpoint digits_prefix (s : string) : Decimal.uint :=
  match s with
  | String c s' =>
      match c with
      | "0"%char => Decimal.D0 (digits_prefix s')
      | "1"%char => Decimal.D1 (digits_prefix s')
      | "2"%char => Decimal.D2 (digits_prefix s')
      | "3"%char => Decimal.D3 (digits_prefix s')
      | "4"%char => Decimal.D4 (digits_prefix s')
      | "5"%char => Decimal.D5 (digits_prefix s')
      | "6"%char => Decimal.D6 (digits_prefix s')
      | "7"%char => Decimal.D7 (digits_prefix s')
      | "8"%char => Decimal.D8 (digits_prefix s')
      | "9"%char => Decimal.D9 (digits_prefix s')
      | _ => Decimal.Nil
      end
  | EmptyString => Decimal.Nil
  end.

Definition parse_digits (s : string) : option Z :=
  match digits_prefix s with
  | Decimal.Nil => None
  | d => Some (Z.of_N (N.of_uint d))
  end.

Definition parseInt (s : string) : number :=
  match skip_spaces s with
  | String "-"%char r =>
      match parse_digits r with Some z => Int (- z) | None => NaN end
  | String "+"%char r =>
      match parse_digits r with Some z => Int z | None => NaN end
  | r => match parse_digits r with Some z => Int z | None => NaN end
  end.

(** [String(v)] for a cell read back from the engine. *)
Definition scalar_toString (v : scalar) : string :=
  match v with
  | Null => "null"
  | Num z => dec z
  | Str s => s
  end.

(** [Object.keys] / [Object.values] of a value, as one map: an object has
    its own entries, a string has one entry per character (index to
    character), other scalars have none. *)
Definition Object_entries (v : jsval) : gmap string scalar :=
  match v with
  | Obj o => fields o
  | Scalar (Str s) =>
      list_to_map
        (imap (fun i c => (dec (Z.of_nat i), Str (String c EmptyString)))
              (String.list_ascii_of_string s))
  | Scalar _ => ∅
  end.

(** ** JSON.stringify on payloads *)

Definition hex_digit (n : nat) : ascii :=
  ascii_of_nat (if Nat.ltb n 10 then 48 + n else 87 + n).

Definition json_escape (c : ascii) : string :=
  let n := nat_of_ascii c in
  if Nat.eqb n 34 then String "\"%char (String c EmptyString)
  else if Nat.eqb n 92 then String c (String c EmptyString)
  else if Nat.eqb n 8 then "\b"
  else if Nat.eqb n 9 then "\t"
  else if Nat.eqb n 10 then "\n"
  else if Nat.eqb n 12 then "\f"
  else if Nat.eqb n 13 then "\r"
  else if Nat.ltb n 32 then
    "\u00" +:+ String (hex_digit (n / 16)) (String (hex_digit (n mod 16)) EmptyString)
  else String c EmptyString.

Fixpoint json_chars (s : string) : string :=
  match s with
  | String c s' => json_escape c +:+ json_chars s'
  | EmptyString => EmptyString
  end.

Definition json_string (s : string) : string :=
  String "034"%char (json_chars s +:+ String "034"%char EmptyString).

Definition json_scalar (v : scalar) : string :=
  match v with
  | Null => "null"
  | Num z => dec z
  | Str s => json_string s
  end.

Fixpoint json_members (l : list (string * string)) : string :=
  match l with
  | [] => EmptyString
  | [(k, v)] => json_string k +:+ ":" +:+ v
  | (k, v) :: l' => json_string k +:+ ":" +:+ v +:+ "," +:+ json_members l'
  end.

Definition json_object (l : list (string * string)) : string :=
  "{" +:+ json_members l +:+ "}".

Definition json_value (v : jsval) : string :=
  match v with
  | Scalar s => json_scalar s
  | Obj o => json_object (prod_map id json_scalar <$> o)
  end.

Definition JSON_stringify (data : object jsval) : string :=
  json_object (prod_map id json_value <$> data).

(** ** The embedded SQL engine *)

Module Sql.

Inductive sqltype := TEXT | INTEGER | REAL | BLOB.

Record coldef := {
  col_name : string;
  col_type : sqltype;
  col_notnull : bool;
  col_default : option scalar;
}.

Record table := {
  t_columns : list coldef;
  t_pk : option string;
  t_rows : list (gmap string scalar);
}.

(** The engine: the current tables and the savepoint stack, most recent
    first.  A savepoint [modusql_seq_<n>] is kept under its number [n]. *)
Record engine := {
  tables : gmap string table;
  savepoints : list (Z * gmap string table);
}.

Inductive sqlerror :=
| SyntaxError | NoSuchTable | NoSuchColumn | BindError
| ConstraintFailed | NoSuchSavepoint.

Inductive result (A : Type) := Ok (a : A) | Err (e : sqlerror).
Arguments Ok {A} a.
Arguments Err {A} e.

(** The statements the repository issues.  An INSERT or UPDATE carries the
    object whose keys are the columns and whose values are bound to the
    [?] placeholders. *)
Inductive stmt :=
| CreateTableIfNotExists (name : string) (cols : list coldef) (pk : option string)
| InsertInto (or_replace : bool) (tbl : string) (vals : gmap string jsval)
| Update (tbl : string) (sets : gmap string jsval) (wheres : gmap string scalar)
| DeleteFrom (tbl : string) (wheres : gmap string scalar)
| Savepoint (n : Z)
| ReleaseSavepoint (n : Z)
| RollbackTo (n : Z).

#[global] Instance sqltype_eq_dec : EqDecision sqltype.
Proof. solve_decision. Defined.

#[global] Instance coldef_eq_dec : EqDecision coldef.
Proof. solve_decision. Defined.

#[global] Instance table_eq_dec : EqDecision table.
Proof. solve_decision. Defined.

#[global] Instance sqltype_countable : Countable sqltype.
Proof.
  refine (inj_countable'
    (fun t => match t with TEXT => 0%nat | INTEGER => 1%nat | REAL => 2%nat | BLOB => 3%nat end)
    (fun n => match n with 0%nat => TEXT | 1%nat => INTEGER | 2%nat => REAL | _ => BLOB end) _).
  by intros [].
Defined.

#[global] Instance coldef_countable : Countable coldef.
Proof.
  refine (inj_countable'
    (fun c => (col_name c, col_type c, col_notnull c, col_default c))
    (fun '(n, t, b, d) =>
       {| col_name := n; col_type := t; col_notnull := b; col_default := d |}) _).
  by intros [].
Defined.

#[global] Instance table_countable : Countable table.
Proof.
  refine (inj_countable'
    (fun t => (t_columns t, t_pk t, t_rows t))
    (fun '(c, k, r) => {| t_columns := c; t_pk := k; t_rows := r |}) _).
  by intros [].
Defined.

Definition with_rows (T : table) (rows : list (gmap string scalar)) : table :=
  {| t_columns := t_columns T; t_pk := t_pk T; t_rows := rows |}.

Definition set_table (name : string) (T : table) (e : engine) : engine :=
  {| tables := <[name := T]> (tables e); savepoints := savepoints e |}.

Definition col_names (T : table) : list string := col_name <$> t_columns T.

Definition known_cols {V} (T : table) (m : gmap string V) : bool :=
  bool_decide (map_Forall (fun k _ => k ∈ col_names T) m).

(** Binding a value to a placeholder: sql.js rejects objects. *)
Definition bind (v : jsval) : option scalar :=
  match v with Scalar s => Some s | Obj _ => None end.

Definition bindable (m : gmap string jsval) : bool :=
  bool_decide (map_Forall (fun _ v => is_Some (bind v)) m).

Definition bind_all (m : gmap string jsval) : gmap string scalar := omap bind m.

(** The value of column [c] in a new row: the bound value, else the
    declared default, else NULL.  A NULL in a NOT NULL column aborts, except
    that OR REPLACE falls back on a non-null default. *)
Definition cell (or_replace : bool) (b : gmap string scalar) (c : coldef) : option scalar :=
  let v := match b !! col_name c with
           | Some v => v
           | None => default Null (col_default c)
           end in
  if (col_notnull c && is_null v)%bool then
    if or_replace then
      match col_default c with
      | Some d => if is_null d then None else Some d
      | None => None
      end
    else None
  else Some v.

Fixpoint build_row (or_replace : bool) (b : gmap string scalar) (cs : list coldef)
  : option (gmap string scalar) :=
  match cs with
  | [] => Some ∅
  | c :: cs' =>
      match cell or_replace b c, build_row or_replace b cs' with
      | Some v, Some r => Some (<[col_name c := v]> r)
      | _, _ => None
      end
  end.

(** The primary-key value of a row, when the table has a key and the value
    is not NULL (NULL keys never conflict). *)
Definition pk_value (T : table) (r : gmap string scalar) : option scalar :=
  match t_pk T with
  | Some k => match r !! k with
              | Some v => if is_null v then None else Some v
              | None => None
              end
  | None => None
  end.

Definition conflicts (T : table) (r r' : gmap string scalar) : bool :=
  match pk_value T r with
  | Some v => bool_decide (pk_value T r' = Some v)
  | None => false
  end.

(** [col = ? AND ...]: every predicate column holds the bound value; a
    comparison with NULL is never true. *)
Definition matches (wheres r : gmap string scalar) : bool :=
  bool_decide (map_Forall (fun k v => v ≠ Null ∧ r !! k = Some v) wheres).

Definition notnull_ok (T : table) (r : gmap string scalar) : bool :=
  forallb (fun c => negb (col_notnull c && is_null (default Null (r !! col_name c))))
          (t_columns T).

Definition rows_ok (T : table) (rows : list (gmap string scalar)) : bool :=
  (forallb (notnull_ok T) rows && bool_decide (NoDup (omap (pk_value T) rows)))%bool.

Definition update_row (wheres sets r : gmap string scalar) : gmap string scalar :=
  if matches wheres r then sets ∪ r else r.

(** The most recent savepoint numbered [n]: its snapshot and the stack from
    it downwards. *)
Fixpoint unwind (n : Z) (sps : list (Z * gmap string table))
  : option (gmap string table * list (Z * gmap string table)) :=
  match sps with
  | [] => None
  | (m, snap) :: rest =>
      if decide (m = n) then Some (snap, sps) else unwind n rest
  end.

Definition exec_insert (or_replace : bool) (tbl : string) (vals : gmap string jsval)
    (e : engine) : result engine :=
  match tables e !! tbl with
  | None => Err NoSuchTable
  | Some T =>
      if decide (vals = ∅) then Err SyntaxError
      else if negb (known_cols T vals) then Err NoSuchColumn
      else if negb (bindable vals) then Err BindError
      else
        match build_row or_replace (bind_all vals) (t_columns T) with
        | None => Err ConstraintFailed
        | Some r =>
            if or_replace then
              Ok (set_table tbl
                    (with_rows T (List.filter (fun r' => negb (conflicts T r r')) (t_rows T) ++ [r]))
                    e)
            else if existsb (conflicts T r) (t_rows T) then Err ConstraintFailed
            else Ok (set_table tbl (with_rows T (t_rows T ++ [r])) e)
        end
  end.

Definition exec_update (tbl : string) (sets : gmap string jsval)
    (wheres : gmap string scalar) (e : engine) : result engine :=
  match tables e !! tbl with
  | None => Err NoSuchTable
  | Some T =>
      if decide (sets = ∅) then Err SyntaxError
      else if decide (wheres = ∅) then Err SyntaxError
      else if negb (known_cols T sets && known_cols T wheres) then Err NoSuchColumn
      else if negb (bindable sets) then Err BindError
      else
        let rows' := update_row wheres (bind_all sets) <$> t_rows T in
        if (existsb (matches wheres) (t_rows T) && negb (rows_ok T rows'))%bool
        then Err ConstraintFailed
        else Ok (set_table tbl (with_rows T rows') e)
  end.

Definition exec_delete (tbl : string) (wheres : gmap string scalar) (e : engine)
  : result engine :=
  match tables e !! tbl with
  | None => Err NoSuchTable
  | Some T =>
      if decide (wheres = ∅) then Err SyntaxError
      else if negb (known_cols T wheres) then Err NoSuchColumn
      else Ok (set_table tbl
                 (with_rows T (List.filter (fun r => negb (matches wheres r)) (t_rows T)))
                 e)
  end.

Definition exec_create (name : string) (cols : list coldef) (pk : option string)
    (e : engine) : result engine :=
  match tables e !! name with
  | Some _ => Ok e
  | None =>
      let T := {| t_columns := cols; t_pk := pk; t_rows := [] |} in
      if decide (cols = []) then Err SyntaxError
      else if negb (bool_decide (NoDup (col_names T))) then Err SyntaxError
      else if negb (match pk with
                    | Some k => bool_decide (k ∈ col_names T)
                    | None => true
                    end) then Err NoSuchColumn
      else Ok (set_table name T e)
  end.

Definition exec (s : stmt) (e : engine) : result engine :=
  match s with
  | CreateTableIfNotExists name cols pk => exec_create name cols pk e
  | InsertInto or_replace tbl vals => exec_insert or_replace tbl vals e
  | Update tbl sets wheres => exec_update tbl sets wheres e
  | DeleteFrom tbl wheres => exec_delete tbl wheres e
  | Savepoint n =>
      if n <? 0 then Err SyntaxError
      else Ok {| tables := tables e; savepoints := (n, tables e) :: savepoints e |}
  | ReleaseSavepoint n =>
      if n <? 0 then Err SyntaxError
      else match unwind n (savepoints e) with
           | Some (_, _ :: rest) => Ok {| tables := tables e; savepoints := rest |}
           | _ => Err NoSuchSavepoint
           end
  | RollbackTo n =>
      if n <? 0 then Err SyntaxError
      else match unwind n (savepoints e) with
           | Some (snap, sps) => Ok {| tables := snap; savepoints := sps |}
           | None => Err NoSuchSavepoint
           end
  end.

(** [SELECT * FROM tbl]. *)
Definition select_all (tbl : string) (e : engine) : result (list (gmap string scalar)) :=
  match tables e !! tbl with
  | None => Err NoSuchTable
  | Some T => Ok (t_rows T)
  end.

(** [SELECT col FROM tbl WHERE wcol = 'wval']. *)
Definition select_where (col tbl wcol : string) (wval : scalar) (e : engine)
  : result (list scalar) :=
  match tables e !! tbl with
  | None => Err NoSuchTable
  | Some T =>
      if negb (bool_decide (col ∈ col_names T) && bool_decide (wcol ∈ col_names T))
      then Err NoSuchColumn
      else Ok ((fun r => default Null (r !! col))
                 <$> List.filter (matches {[wcol := wval]}) (t_rows T))
  end.

(** The byte image of the database, as the text stored in localStorage:
    the binary numeral of an injective encoding of the tables. *)
Fixpoint pos_text (p : positive) : string :=
  match p with
  | xH => "1"
  | xO p' => String "0"%char (pos_text p')
  | xI p' => String "1"%char (pos_text p')
  end.

Fixpoint text_pos (s : string) : option positive :=
  match s with
  | String "1"%char EmptyString => Some xH
  | String "0"%char s' => xO <$> text_pos s'
  | String "1"%char s' => xI <$> text_pos s'
  | _ => None
  end.

(** What the database file holds.  The repository never issues BEGIN, so a
    transaction is open exactly while a savepoint is held, and the file
    then holds the tables as they were at the outermost savepoint. *)
Fixpoint outermost (sps : list (Z * gmap string table)) : option (gmap string table) :=
  match sps with
  | [] => None
  | [(_, snap)] => Some snap
  | _ :: rest => outermost rest
  end.

Definition committed (e : engine) : gmap string table :=
  default (tables e) (outermost (savepoints e)).

(** The connection after it was closed and opened again. *)
Definition reopened (e : engine) : engine :=
  {| tables := committed e; savepoints := [] |}.

Definition export_text (e : engine) : string := pos_text (encode (committed e)).

Definition import_text (s : string) : option engine :=
  match text_pos s with
  | Some p =>
      match decode p with
      | Some t => Some {| tables := t; savepoints := [] |}
      | None => None
      end
  | None => None
  end.

Definition empty_engine : engine := {| tables := ∅; savepoints := [] |}.

End Sql.

(** ** Records of types.ts and sync.ts *)

Record Operation := {
  op_id : string;
  op_seq : Z;
  op_table : string;
  op_type : string;
  op_data : object jsval;
  op_clientId : string;
  op_localSeq : option number;
}.

Record PendingOperation := {
  p_id : string;
  p_localSeq : number;
  p_table : string;
  p_type : string;
  p_data : object jsval;
  p_clientId : string;
}.

Record ColumnDef := {
  cd_name : string;
  cd_type : Sql.sqltype;
  cd_nullable : option bool;
  cd_default : option scalar;
}.

Record TableSchema := {
  ts_name : string;
  ts_columns : list ColumnDef;
  ts_primaryKey : option string;
}.

Record ModuSQLConfig := {
  cfg_dbName : option string;
  cfg_roomId : option string;
}.

(** Which of the optional callbacks the caller passed to [init]. *)
Record ModuSQLCallbacks := {
  onRoomCreate : bool;
  onConnect : bool;
  onInput : bool;
  onDisconnect : bool;
}.

Record QueryResult := {
  rows : list (gmap string scalar);
  rowsAffected : nat;
}.

(** What goes over the wire: [{ type, operation }]. *)
Record Envelope := {
  env_type : string;
  env_operation : PendingOperation;
}.

Record NetworkInput := {
  in_id : string;
  in_clientId : string;
  in_type : string;
  in_data : option Envelope;
  in_seq : Z;
}.

(** A user callback that was invoked, with its arguments. *)
Inductive event :=
| RoomCreate
| Connect (snapshot : option string) (operations : list Operation)
| Input (operation : Operation)
| Disconnect.

Inductive exn :=
| NotInitialized
| FailedToLoadSqlJs
| TypeError
| BadImage
| SqlError (e : Sql.sqlerror).

Inductive logline :=
| WarnGap (seq expected : Z)
| LogRollingBack (savepoint : Z)
| ErrorRollbackFailed (x : exn)
| WarnFailedInsert (x : exn)
| WarnFailedUpdate (x : exn)
| WarnFailedDelete (x : exn)
| LogRoomCreated
| LogJoined (inputs : nat).

(** ** The object graph *)

Record Database := {
  db : option Sql.engine;
  dbName : string;
  localSeqCounter : number;
  clientId : string;
  confirmedSeq : Z;
  savepointSeq : Z;
  pendingOps : list PendingOperation;
  confirmedOps : list Operation;
  (** whether the sync manager has registered its listener *)
  onOperation : bool;
}.

Record SyncManager := {
  (** whether [connection] is non-null *)
  connection : bool;
  roomId : string;
  callbacks : ModuSQLCallbacks;
  isOnline : bool;
}.

(** One browser context: the host objects the code touches, the database
    object, the sync manager if one was created, and the facade's
    configuration.  [wire] lists the envelopes given to [connection.send]
    and [fired] the user callbacks invoked, oldest first. *)
Record World := {
  localStorage : gmap string string;
  console : list logline;
  sqljs : bool;
  wire : list Envelope;
  fired : list event;
  database : Database;
  sync : option SyncManager;
  config : ModuSQLConfig;
}.

#[global] Instance number_inhabited : Inhabited number := populate NaN.

Definition set_database (d : Database) (w : World) : World :=
  {| localStorage := localStorage w; console := console w; sqljs := sqljs w;
     wire := wire w; fired := fired w; database := d; sync := sync w;
     config := config w |}.

Definition set_localStorage (ls : gmap string string) (w : World) : World :=
  {| localStorage := ls; console := console w; sqljs := sqljs w;
     wire := wire w; fired := fired w; database := database w; sync := sync w;
     config := config w |}.

Definition set_console (c : list logline) (w : World) : World :=
  {| localStorage := localStorage w; console := c; sqljs := sqljs w;
     wire := wire w; fired := fired w; database := database w; sync := sync w;
     config := config w |}.

Definition set_wire (x : list Envelope) (w : World) : World :=
  {| localStorage := localStorage w; console := console w; sqljs := sqljs w;
     wire := x; fired := fired w; database := database w; sync := sync w;
     config := config w |}.

Definition set_fired (x : list event) (w : World) : World :=
  {| localStorage := localStorage w; console := console w; sqljs := sqljs w;
     wire := wire w; fired := x; database := database w; sync := sync w;
     config := config w |}.

Definition set_sync (s : option SyncManager) (w : World) : World :=
  {| localStorage := localStorage w; console := console w; sqljs := sqljs w;
     wire := wire w; fired := fired w; database := database w; sync := s;
     config := config w |}.

Definition set_db (e : option Sql.engine) (d : Database) : Database :=
  {| db := e; dbName := dbName d; localSeqCounter := localSeqCounter d;
     clientId := clientId d; confirmedSeq := confirmedSeq d;
     savepointSeq := savepointSeq d; pendingOps := pendingOps d;
     confirmedOps := confirmedOps d; onOperation := onOperation d |}.

Definition set_localSeqCounter (n : number) (d : Database) : Database :=
  {| db := db d; dbName := dbName d; localSeqCounter := n;
     clientId := clientId d; confirmedSeq := confirmedSeq d;
     savepointSeq := savepointSeq d; pendingOps := pendingOps d;
     confirmedOps := confirmedOps d; onOperation := onOperation d |}.

Definition set_confirmedSeq (n : Z) (d : Database) : Database :=
  {| db := db d; dbName := dbName d; localSeqCounter := localSeqCounter d;
     clientId := clientId d; confirmedSeq := n;
     savepointSeq := savepointSeq d; pendingOps := pendingOps d;
     confirmedOps := confirmedOps d; onOperation := onOperation d |}.

Definition set_savepointSeq (n : Z) (d : Database) : Database :=
  {| db := db d; dbName := dbName d; localSeqCounter := localSeqCounter d;
     clientId := clientId d; confirmedSeq := confirmedSeq d;
     savepointSeq := n; pendingOps := pendingOps d;
     confirmedOps := confirmedOps d; onOperation := onOperation d |}.

Definition set_pendingOps (l : list PendingOperation) (d : Database) : Database :=
  {| db := db d; dbName := dbName d; localSeqCounter := localSeqCounter d;
     clientId := clientId d; confirmedSeq := confirmedSeq d;
     savepointSeq := savepointSeq d; pendingOps := l;
     confirmedOps := confirmedOps d; onOperation := onOperation d |}.

Definition set_confirmedOps (l : list Operation) (d : Database) : Database :=
  {| db := db d; dbName := dbName d; localSeqCounter := localSeqCounter d;
     clientId := clientId d; confirmedSeq := confirmedSeq d;
     savepointSeq := savepointSeq d; pendingOps := pendingOps d;
     confirmedOps := l; onOperation := onOperation d |}.

Definition set_onOperation (b : bool) (d : Database) : Database :=
  {| db := db d; dbName := dbName d; localSeqCounter := localSeqCounter d;
     clientId := clientId d; confirmedSeq := confirmedSeq d;
     savepointSeq := savepointSeq d; pendingOps := pendingOps d;
     confirmedOps := confirmedOps d; onOperation := b |}.

Definition set_isOnline (b : bool) (s : SyncManager) : SyncManager :=
  {| connection := connection s; roomId := roomId s;
     callbacks := callbacks s; isOnline := b |}.

Definition set_connection (b : bool) (s : SyncManager) : SyncManager :=
  {| connection := b; roomId := roomId s;
     callbacks := callbacks s; isOnline := isOnline s |}.

(** ** Computations: state of the world, and JavaScript exceptions *)

Inductive outcome (A : Type) := Return (a : A) | Throw (x : exn).
Arguments Return {A} a.
Arguments Throw {A} x.

Definition M (A : Type) : Type := World -> World * outcome A.

Definition ret {A} (a : A) : M A := fun w => (w, Return a).

Definition throw {A} (x : exn) : M A := fun w => (w, Throw x).

Definition bind {A B} (c : M A) (k : A -> M B) : M B :=
  fun w => match c w with
           | (w', Return a) => k a w'
           | (w', Throw x) => (w', Throw x)
           end.

(** [try { body } catch (e) { handler(e) }]: what the body changed before
    it threw stays changed. *)
Definition try_catch {A} (body : M A) (handler : exn -> M A) : M A :=
  fun w => match body w with
           | (w', Return a) => (w', Return a)
           | (w', Throw x) => handler x w'
           end.

Notation "'let!' x ':=' c 'in' k" := (bind c (fun x => k))
  (at level 10, x name, c at level 100, k at level 200).
Notation "c '>>' k" := (bind c (fun _ => k))
  (at level 100, k at level 200, right associativity).

Definition get : M World := fun w => (w, Return w).

Definition this : M Database := fun w => (w, Return (database w)).

Definition modify (f : World -> World) : M unit := fun w => (f w, Return tt).

Definition update_this (f : Database -> Database) : M unit :=
  modify (fun w => set_database (f (database w)) w).

Definition console_log (l : logline) : M unit :=
  modify (fun w => set_console (console w ++ [l]) w).

Definition fire (e : event) : M unit :=
  modify (fun w => set_fired (fired w ++ [e]) w).

Definition when (b : bool) (c : M unit) : M unit := if b then c else ret tt.

Fixpoint for_each {A} (l : list A) (body : A -> M unit) : M unit :=
  match l with
  | [] => ret tt
  | x :: l' => body x >> for_each l' body
  end.

Definition exec_world {A} (c : M A) (w : World) : World := fst (c w).

Definition eval_world {A} (c : M A) (w : World) : outcome A := snd (c w).

(** ** SyncManager.handleLocalOperation (sync.ts)

    It is the listener the sync manager registers on
    [Database.onOperation], so it comes before the database. *)

Definition op_envelope (op : PendingOperation) : Envelope :=
  {| env_type := "sumql_op"; env_operation := op |}.

Definition connection_send (e : Envelope) : M unit :=
  modify (fun w => set_wire (wire w ++ [e]) w).

Definition can_send (w : World) : bool :=
  match sync w with
  | Some s => (connection s && isOnline s)%bool
  | None => false
  end.

Definition handleLocalOperation (op : PendingOperation) : M unit :=
  let! w := get in
  when (can_send w) (connection_send (op_envelope op)).

(** ** Database (database.ts) *)

Module Database.

Import Sql.

Definition blob_key (name : string) : string := "modusql_" +:+ name.

Definition column (name : string) (type : sqltype) (dflt : option scalar) : coldef :=
  {| col_name := name; col_type := type; col_notnull := false; col_default := dflt |}.

Definition meta_columns : list coldef :=
  [column "key" TEXT None; column "value" TEXT None].

Definition ops_columns : list coldef :=
  [column "id" TEXT None; column "seq" INTEGER None;
   column "local_seq" INTEGER None; column "table_name" TEXT None;
   column "op_type" TEXT None; column "data" TEXT None;
   column "client_id" TEXT None; column "confirmed" INTEGER (Some (Num 0))].

(** [new Database(dbName, clientId)] *)
Definition new (name : string) (client : string) : Database :=
  {| db := None; dbName := name; localSeqCounter := Int 0; clientId := client;
     confirmedSeq := 0; savepointSeq := 0; pendingOps := []; confirmedOps := [];
     onOperation := false |}.

(** [this.db.run(sql, params)]; on a null [db] the call is a TypeError. *)
Definition run (s : stmt) : M unit := fun w =>
  match db (database w) with
  | None => (w, Throw TypeError)
  | Some e =>
      match exec s e with
      | Err x => (w, Throw (SqlError x))
      | Ok e' => (set_database (set_db (Some e') (database w)) w, Return tt)
      end
  end.

Definition require_db : M unit := fun w =>
  match db (database w) with
  | None => (w, Throw NotInitialized)
  | Some _ => (w, Return tt)
  end.

Definition number_scalar (n : number) : scalar :=
  match n with Int z => Num z | NaN => Null end.

Definition init : M unit :=
  let! w := get in
  if negb (sqljs w) then throw FailedToLoadSqlJs
  else
    (match localStorage w !! blob_key (dbName (database w)) with
     | Some saved =>
         if decide (saved = EmptyString) then update_this (set_db (Some empty_engine))
         else match import_text saved with
              | Some e => update_this (set_db (Some e))
              | None => throw BadImage
              end
     | None => update_this (set_db (Some empty_engine))
     end) >>
    run (CreateTableIfNotExists "_modusql_meta" meta_columns (Some "key")) >>
    run (CreateTableIfNotExists "_modusql_ops" ops_columns (Some "id")) >>
    let! d := this in
    match db d with
    | None => throw TypeError
    | Some e =>
        match select_where "value" "_modusql_meta" "key" (Str "local_seq") e with
        | Err x => throw (SqlError x)
        | Ok (v :: _) => update_this (set_localSeqCounter (parseInt (scalar_toString v)))
        | Ok [] => ret tt
        end
    end.

(** [this.db.export()] leaves the connection reopened. *)
Definition persist : M unit := fun w =>
  match db (database w) with
  | None => (w, Return tt)
  | Some e =>
      (set_localStorage
         (<[blob_key (dbName (database w)) := export_text e]> (localStorage w))
         (set_database (set_db (Some (reopened e)) (database w)) w),
       Return tt)
  end.

Definition column_of (c : ColumnDef) : coldef :=
  {| col_name := cd_name c; col_type := cd_type c;
     col_notnull := negb (default false (cd_nullable c));
     col_default := cd_default c |}.

Definition truthy (s : option string) : option string :=
  match s with
  | Some k => if decide (k = EmptyString) then None else Some k
  | None => None
  end.

Definition createTable (schema : TableSchema) : M unit :=
  require_db >>
  run (CreateTableIfNotExists (ts_name schema) (column_of <$> ts_columns schema)
         (truthy (ts_primaryKey schema))) >>
  persist.

Definition applyInsert (op : Operation) : M unit :=
  let data := base.delete "_where" (fields (op_data op)) in
  try_catch
    (run (InsertInto true (op_table op) data))
    (fun e => console_log (WarnFailedInsert e)).

Definition where_of (data : object jsval) : gmap string scalar :=
  match fields data !! "_where" with
  | Some v => Object_entries v
  | None => ∅
  end.

Definition applyUpdate (op : Operation) : M unit :=
  let where_ := where_of (op_data op) in
  let data := base.delete "_where" (fields (op_data op)) in
  try_catch
    (run (Update (op_table op) data where_))
    (fun e => console_log (WarnFailedUpdate e)).

Definition applyDelete (op : Operation) : M unit :=
  let where_ := where_of (op_data op) in
  try_catch
    (run (DeleteFrom (op_table op) where_))
    (fun e => console_log (WarnFailedDelete e)).

Definition applyOp (op : Operation) : M unit :=
  if decide (op_type op = "INSERT") then applyInsert op
  else if decide (op_type op = "UPDATE") then applyUpdate op
  else if decide (op_type op = "DELETE") then applyDelete op
  else ret tt.

Definition createSavepoint : M unit :=
  let! d := this in
  match db d with
  | None => ret tt
  | Some _ =>
      when (0 <? savepointSeq d)
        (try_catch (run (ReleaseSavepoint (savepointSeq d))) (fun _ => ret tt)) >>
      update_this (fun d => set_savepointSeq (confirmedSeq d) d) >>
      let! d := this in
      run (Savepoint (savepointSeq d))
  end.

(** [{ ...pending, seq }] *)
Definition as_operation (p : PendingOperation) (seq : Z) : Operation :=
  {| op_id := p_id p; op_seq := seq; op_table := p_table p; op_type := p_type p;
     op_data := p_data p; op_clientId := p_clientId p;
     op_localSeq := Some (p_localSeq p) |}.

Definition rollbackAndReplay (newOp : Operation) : M unit :=
  let! d := this in
  match db d with
  | None => ret tt
  | Some _ =>
      console_log (LogRollingBack (savepointSeq d)) >>
      try_catch
        (run (RollbackTo (savepointSeq d)) >>
         applyOp newOp >>
         (let! d := this in
          for_each (pendingOps d) (fun pending => applyOp (as_operation pending 0))) >>
         createSavepoint)
        (fun e => console_log (ErrorRollbackFailed e))
  end.

(** [pendingOps.findIndex(p => p.id === id)]; [None] stands for -1. *)
Fixpoint findIndex (id : string) (l : list PendingOperation) : option nat :=
  match l with
  | [] => None
  | p :: l' => if decide (p_id p = id) then Some 0%nat else S <$> findIndex id l'
  end.

Definition ops_row (op : Operation) : gmap string jsval :=
  <["id" := Scalar (Str (op_id op))]>
  (<["seq" := Scalar (Num (op_seq op))]>
  (<["table_name" := Scalar (Str (op_table op))]>
  (<["op_type" := Scalar (Str (op_type op))]>
  (<["data" := Scalar (Str (JSON_stringify (op_data op)))]>
  (<["client_id" := Scalar (Str (op_clientId op))]>
  (<["confirmed" := Scalar (Num 1)]> ∅)))))).

Definition applyOperation (op : Operation) : M unit :=
  require_db >>
  let! d := this in
  let expectedSeq := confirmedSeq d + 1 in
  let pendingIndex := findIndex (op_id op) (pendingOps d) in
  let isPending := bool_decide (is_Some pendingIndex) in
  let! proceed :=
    (if op_seq op =? expectedSeq then
       (match pendingIndex with
        | Some i => update_this (fun d => set_pendingOps (base.delete i (pendingOps d)) d)
        | None => applyOp op
        end) >>
       update_this (set_confirmedSeq (op_seq op)) >>
       update_this (fun d => set_confirmedOps (confirmedOps d ++ [op]) d) >>
       createSavepoint >>
       ret true
     else if expectedSeq <? op_seq op then
       console_log (WarnGap (op_seq op) expectedSeq) >>
       when (negb isPending) (applyOp op) >>
       update_this (set_confirmedSeq (op_seq op)) >>
       update_this (fun d => set_confirmedOps (confirmedOps d ++ [op]) d) >>
       ret true
     else if op_seq op <=? confirmedSeq d then ret false
     else ret true) in
  if negb proceed then ret tt
  else
    let! d := this in
    when (negb (bool_decide (pendingOps d = [])) && negb isPending)
      (rollbackAndReplay op) >>
    run (InsertInto true "_modusql_ops" (ops_row op)) >>
    persist.

Definition pending_row (op : PendingOperation) : gmap string jsval :=
  <["id" := Scalar (Str (p_id op))]>
  (<["local_seq" := Scalar (number_scalar (p_localSeq op))]>
  (<["table_name" := Scalar (Str (p_table op))]>
  (<["op_type" := Scalar (Str (p_type op))]>
  (<["data" := Scalar (Str (JSON_stringify (p_data op)))]>
  (<["client_id" := Scalar (Str (p_clientId op))]>
  (<["confirmed" := Scalar (Num 0)]> ∅)))))).

Definition meta_row (counter : number) : gmap string jsval :=
  <["key" := Scalar (Str "local_seq")]>
  (<["value" := Scalar (Str (number_toString counter))]> ∅).

Definition operation_id (client : string) (localSeq : number) (now : Z) : string :=
  client +:+ "_" +:+ number_toString localSeq +:+ "_" +:+ dec now.

(** [now] is the value of [Date.now()] at the call. *)
Definition createOperation (table type : string) (data : object jsval) (now : Z)
  : M PendingOperation :=
  update_this (fun d => set_localSeqCounter (incr (localSeqCounter d)) d) >>
  let! d := this in
  let op := {| p_id := operation_id (clientId d) (localSeqCounter d) now;
               p_localSeq := localSeqCounter d;
               p_table := table; p_type := type; p_data := data;
               p_clientId := clientId d |} in
  update_this (fun d => set_pendingOps (pendingOps d ++ [op]) d) >>
  run (InsertInto false "_modusql_ops" (pending_row op)) >>
  run (InsertInto true "_modusql_meta" (meta_row (localSeqCounter d))) >>
  persist >>
  when (onOperation d) (handleLocalOperation op) >>
  ret op.

Definition insert (table : string) (data : object jsval) (now : Z)
  : M PendingOperation :=
  require_db >>
  run (InsertInto false table (fields data)) >>
  let! op := createOperation table "INSERT" data now in
  persist >>
  ret op.

Definition update (table : string) (data : object jsval)
    (where_ : object scalar) (now : Z) : M PendingOperation :=
  require_db >>
  run (Update table (fields data) (fields where_)) >>
  let! op := createOperation table "UPDATE" (obj_set "_where" (Obj where_) data) now in
  persist >>
  ret op.

Definition delete (table : string) (where_ : object scalar) (now : Z)
  : M PendingOperation :=
  require_db >>
  run (DeleteFrom table (fields where_)) >>
  let! op := createOperation table "DELETE" [("_where", Obj where_)] now in
  persist >>
  ret op.

(** [query('SELECT * FROM ' + table)] *)
Definition query (table : string) : M QueryResult :=
  require_db >>
  let! d := this in
  match db d with
  | None => throw TypeError
  | Some e =>
      match select_all table e with
      | Err x => throw (SqlError x)
      | Ok rs => ret {| rows := rs; rowsAffected := length rs |}
      end
  end.

Definition getLastConfirmedSeq : M Z :=
  let! d := this in ret (confirmedSeq d).

Definition getPendingCount : M nat :=
  let! d := this in ret (length (pendingOps d)).

Definition close : M unit :=
  let! d := this in
  match db d with
  | None => ret tt
  | Some _ => persist >> update_this (set_db None)
  end.

End Database.

(** ** SyncManager (sync.ts) *)

Module SyncManager.

Definition no_callbacks : ModuSQLCallbacks :=
  {| onRoomCreate := false; onConnect := false; onInput := false;
     onDisconnect := false |}.

(** [new SyncManager(db, roomId, callbacks)] *)
Definition new (room : string) (cbs : option ModuSQLCallbacks) : M unit :=
  modify (set_sync (Some {| connection := false; roomId := room;
                            callbacks := default no_callbacks cbs;
                            isOnline := false |})) >>
  update_this (set_onOperation true).

Definition update_sync (f : SyncManager -> SyncManager) : M unit :=
  modify (fun w => set_sync (f <$> sync w) w).

(** [this.callbacks.cb?.(...)] *)
Definition fire_if (cb : ModuSQLCallbacks -> bool) (e : event) : M unit :=
  let! w := get in
  match sync w with
  | Some s => when (cb (callbacks s)) (fire e)
  | None => ret tt
  end.

Definition inputToOperation (input : NetworkInput) : option Operation :=
  match in_data input with
  | Some env =>
      if decide (env_type env = "sumql_op")
      then Some (Database.as_operation (env_operation env) (in_seq input))
      else None
  | None => None
  end.

Definition flushPendingOps : M unit :=
  let! w := get in
  if negb (can_send w) then ret tt
  else for_each (pendingOps (database w)) (fun op => connection_send (op_envelope op)).

(** [[...inputs].sort((a, b) => a.seq - b.seq)], a stable sort: an input
    goes before the inputs after it that do not have a smaller [seq]. *)
Fixpoint insert_by_seq (x : NetworkInput) (l : list NetworkInput) : list NetworkInput :=
  match l with
  | [] => [x]
  | y :: l' => if in_seq x <=? in_seq y then x :: l else y :: insert_by_seq x l'
  end.

Definition sort_by_seq (l : list NetworkInput) : list NetworkInput :=
  foldr insert_by_seq [] l.

Definition onCreate : M unit :=
  console_log LogRoomCreated >> fire_if onRoomCreate RoomCreate.

Fixpoint apply_inputs (l : list NetworkInput) (operations : list Operation)
  : M (list Operation) :=
  match l with
  | [] => ret operations
  | input :: l' =>
      match inputToOperation input with
      | Some op => Database.applyOperation op >> apply_inputs l' (operations ++ [op])
      | None => apply_inputs l' operations
      end
  end.

Definition onJoin (snapshot : option string) (inputs : list NetworkInput) : M unit :=
  console_log (LogJoined (length inputs)) >>
  let! operations := apply_inputs (sort_by_seq inputs) [] in
  fire_if onConnect (Connect snapshot operations).

(** The [onInput] and [onDisconnect] handlers given to [network.connect];
    the plain names are the fields of [ModuSQLCallbacks]. *)
Definition onInputHandler (input : NetworkInput) : M unit :=
  match inputToOperation input with
  | Some op => Database.applyOperation op >> fire_if onInput (Input op)
  | None => ret tt
  end.

Definition onDisconnectHandler : M unit :=
  update_sync (set_isOnline false) >> fire_if onDisconnect Disconnect.

Definition onReconnect : M unit :=
  update_sync (set_isOnline true) >> flushPendingOps.

(** [connect]: the awaited [network.connect] is taken to resolve; the
    handlers above are what the transport calls afterwards. *)
Definition connect : M unit :=
  update_sync (set_connection true) >>
  update_sync (set_isOnline true) >>
  flushPendingOps.

Definition disconnect : M unit :=
  update_sync (fun s => set_isOnline false (set_connection false s)).

End SyncManager.

(** ** ModuSQL (index.ts) *)

Module ModuSQL.

Definition client_id_key : string := "modusql_client_id".

(** [now] and [rnd] are [Date.now()] and the random suffix
    [Math.random().toString(36).substr(2, 9)]. *)
Definition generateClientId (now : Z) (rnd : string) : M string := fun w =>
  let fresh := "client_" +:+ dec now +:+ "_" +:+ rnd in
  match Database.truthy (localStorage w !! client_id_key) with
  | Some stored => (w, Return stored)
  | None => (set_localStorage (<[client_id_key := fresh]> (localStorage w)) w,
             Return fresh)
  end.

(** [new ModuSQL(config)]: a new facade with its own database object, in
    the same browser context. *)
Definition new (cfg : ModuSQLConfig) (now : Z) (rnd : string) : M unit :=
  let! id := generateClientId now rnd in
  modify (fun w =>
    {| localStorage := localStorage w; console := console w; sqljs := sqljs w;
       wire := wire w; fired := fired w;
       database := Database.new (default "modusql" (Database.truthy (cfg_dbName cfg))) id;
       sync := None; config := cfg |}).

(** [init(ModuNetworkClass?, networkUrl?, callbacks?)]; [network] tells
    whether a network class was passed. *)
Definition init (network : bool) (networkUrl : option string)
    (cbs : option ModuSQLCallbacks) : M unit :=
  Database.init >>
  let! w := get in
  match Database.truthy (cfg_roomId (config w)) with
  | Some room =>
      SyncManager.new room cbs >>
      when (network && bool_decide (is_Some (Database.truthy networkUrl)))
        SyncManager.connect
  | None => ret tt
  end.

Definition createTable (schema : TableSchema) : M unit :=
  Database.createTable schema.

Definition insert (table : string) (data : object jsval) (now : Z) : M unit :=
  Database.insert table data now >> ret tt.

Definition update (table : string) (data : object jsval)
    (where_ : object scalar) (now : Z) : M unit :=
  Database.update table data where_ now >> ret tt.

Definition delete (table : string) (where_ : object scalar) (now : Z) : M unit :=
  Database.delete table where_ now >> ret tt.

Definition query (table : string) : M QueryResult := Database.query table.

Definition getIsOnline (w : World) : bool :=
  match sync w with Some s => isOnline s | None => false end.

Definition pendingCount (w : World) : nat := length (pendingOps (database w)).

Definition id (w : World) : string := clientId (database w).

Definition close : M unit :=
  let! w := get in
  match sync w with
  | Some _ => SyncManager.disconnect
  | None => ret tt
  end >>
  Database.close.

End ModuSQL.

(** A browser context in which nothing has run yet. *)
Definition fresh_world : World :=
  {| localStorage := ∅; console := []; sqljs := true; wire := []; fired := [];
     database := Database.new "modusql" EmptyString; sync := None;
     config := {| cfg_dbName := None; cfg_roomId := None |} |}.

(** ** Helpers for stating properties *)

(** The envelopes a computation hands to [connection.send]. *)
Definition sent_by {A} (c : M A) (w : World) : list Envelope :=
  drop (length (wire w)) (wire (exec_world c w)).

(** [input.data?.type] *)
Definition envelope_type (input : NetworkInput) : option string :=
  env_type <$> in_data input.

(** The rows of a table of the engine, if the database is open and the
    table exists. *)
Definition table_rows (name : string) (w : World) : option (list (gmap string scalar)) :=
  match db (database w) with
  | Some e => Sql.t_rows <$> Sql.tables e !! name
  | None => None
  end.

Definition cell_values (col : string) (name : string) (w : World) : option (list scalar) :=
  match table_rows name w with
  | Some rs => Some (List.map (fun r : gmap string scalar => default Null (r !! col)) rs)
  | None => None
  end.

Definition op_ids (l : list PendingOperation) : list string := p_id <$> l.

(** ** Scenarios *)

Module Scenario.

Import Sql.

Definition cfg_app : ModuSQLConfig :=
  {| cfg_dbName := Some "app"; cfg_roomId := None |}.

Definition cfg_other : ModuSQLConfig :=
  {| cfg_dbName := Some "other"; cfg_roomId := None |}.

(** A database that happens to be named like the client id entry. *)
Definition cfg_client_id : ModuSQLConfig :=
  {| cfg_dbName := Some "client_id"; cfg_roomId := None |}.

Definition text_column (name : string) : ColumnDef :=
  {| cd_name := name; cd_type := TEXT; cd_nullable := None; cd_default := None |}.

Definition int_column (name : string) : ColumnDef :=
  {| cd_name := name; cd_type := INTEGER; cd_nullable := None; cd_default := None |}.

(** [t(id TEXT PRIMARY KEY, v INT)] *)
Definition schema_t : TableSchema :=
  {| ts_name := "t"; ts_columns := [text_column "id"; int_column "v"];
     ts_primaryKey := Some "id" |}.

(** [log(v INT)], a table without a primary key *)
Definition schema_log : TableSchema :=
  {| ts_name := "log"; ts_columns := [int_column "v"]; ts_primaryKey := None |}.

Definition row (id : string) (v : Z) : object jsval :=
  [("id", Scalar (Str id)); ("v", Scalar (Num v))].

Definition entry (v : Z) : object jsval := [("v", Scalar (Num v))].

Definition remote_op (id : string) (seq : Z) (table type : string)
    (data : object jsval) : Operation :=
  {| op_id := id; op_seq := seq; op_table := table; op_type := type;
     op_data := data; op_clientId := "B"; op_localSeq := Some (Int seq) |}.

(** A page load: construct the facade and initialise it without a room. *)
Definition open (cfg : ModuSQLConfig) (now : Z) (rnd : string) : M unit :=
  ModuSQL.new cfg now rnd >> ModuSQL.init false None None.

(** S1 up to [close]: create [t], insert [{id:"a", v:1}], close. *)
Definition s1_session : M unit :=
  open cfg_app 1000 "abc" >>
  ModuSQL.createTable schema_t >>
  ModuSQL.insert "t" (row "a" 1) 1001 >>
  ModuSQL.close.

(** The state of S1 just before [close]. *)
Definition s1_before_close : World :=
  exec_world (open cfg_app 1000 "abc" >>
              ModuSQL.createTable schema_t >>
              ModuSQL.insert "t" (row "a" 1) 1001) fresh_world.

(** S1 with the reopen as a page reload: a new facade over the same
    localStorage. *)
Definition s1_reload : M unit := s1_session >> open cfg_app 2000 "def".

(** S1 with [init] called again on the facade that was closed. *)
Definition s1_reinit : M unit := s1_session >> ModuSQL.init false None None.

(** A client with table [log], one confirmed remote row [5] ([savepointSeq]
    1) and one pending local row [1]. *)
Definition log_session : M unit :=
  open cfg_app 1000 "abc" >>
  ModuSQL.createTable schema_log >>
  Database.applyOperation (remote_op "B_1_900" 1 "log" "INSERT" (entry 5)) >>
  ModuSQL.insert "log" (entry 1) 1001.

Definition log_world : World := exec_world log_session fresh_world.

(** The same client when seq 1 had just been confirmed, before the local
    insert: the state at [confirmedSeq] 1. *)
Definition log_confirmed_world : World :=
  exec_world (open cfg_app 1000 "abc" >>
              ModuSQL.createTable schema_log >>
              Database.applyOperation (remote_op "B_1_900" 1 "log" "INSERT" (entry 5)))
    fresh_world.

Definition checkpoint_1 : gmap string table :=
  default ∅ (tables <$> db (database log_confirmed_world)).

(** The next in-order remote operation, and one that leaves a gap. *)
Definition remote_9 : Operation := remote_op "B_2_950" 2 "log" "INSERT" (entry 9).

Definition gap_9 : Operation := remote_op "B_5_950" 5 "log" "INSERT" (entry 9).

(** A client with table [log] and nothing else. *)
Definition empty_log_world : World :=
  exec_world (open cfg_app 1000 "abc" >> ModuSQL.createTable schema_log) fresh_world.

(** A connected client with a room. *)
Definition cfg_room : ModuSQLConfig :=
  {| cfg_dbName := Some "app"; cfg_roomId := Some "room" |}.

Definition online_world : World :=
  exec_world (ModuSQL.new cfg_room 1000 "abc" >>
              ModuSQL.init true (Some "ws://localhost:8001/ws") None >>
              ModuSQL.createTable schema_t) fresh_world.

Definition pending_a : PendingOperation :=
  {| p_id := "client_1000_abc_1_1001"; p_localSeq := Int 1; p_table := "t";
     p_type := "INSERT"; p_data := row "a" 1; p_clientId := "client_1000_abc" |}.

Definition input_of (type : string) (seq : Z) (op : PendingOperation) : NetworkInput :=
  {| in_id := p_id op; in_clientId := p_clientId op; in_type := "input";
     in_data := Some {| env_type := type; env_operation := op |}; in_seq := seq |}.

End Scenario.

(** ** The reconciler's remote transition as the specification words it

    In-order apply of a remote operation: append to the confirmed log and
    advance [confirmedSeq]; with a non-empty pending queue, roll back to the
    current checkpoint (the state at the previous [confirmedSeq]), apply
    the remote operation, re-apply the pending operations, and re-establish
    the checkpoint; with an empty queue, apply and re-establish.
    [checkpoint] is the state at the previous [confirmedSeq]. *)

Definition restore (checkpoint : gmap string Sql.table) : M unit :=
  update_this (fun d =>
    set_db ((fun e => {| Sql.tables := checkpoint; Sql.savepoints := Sql.savepoints e |})
              <$> db d) d).

Definition rollback_replay_spec (checkpoint : gmap string Sql.table) (op : Operation)
  : M unit :=
  let! d := this in
  restore checkpoint >>
  Database.applyOp op >>
  for_each (pendingOps d) (fun p => Database.applyOp (Database.as_operation p 0)) >>
  Database.createSavepoint.

Definition remote_in_order_spec (checkpoint : gmap string Sql.table) (op : Operation)
  : M unit :=
  update_this (fun d => set_confirmedOps (confirmedOps d ++ [op]) d) >>
  update_this (set_confirmedSeq (op_seq op)) >>
  let! d := this in
  if bool_decide (pendingOps d = []) then
    Database.applyOp op >> Database.createSavepoint
  else rollback_replay_spec checkpoint op.

(** ** Calls on a database object over its lifetime *)

Inductive action :=
| Init
| CreateTable (schema : TableSchema)
| Insert (table : string) (data : object jsval) (now : Z)
| Update (table : string) (data : object jsval) (where_ : object scalar) (now : Z)
| Delete (table : string) (where_ : object scalar) (now : Z)
| Deliver (op : Operation)
| Close
| Reload.

(** [Reload] is a page reload: a new [Database] object with the same name
    and client id, then [init].  A mutation returns the operation it
    created. *)
Definition perform (a : action) : M (option PendingOperation) :=
  match a with
  | Init => Database.init >> ret None
  | CreateTable schema => Database.createTable schema >> ret None
  | Insert table data now =>
      let! op := Database.insert table data now in ret (Some op)
  | Update table data where_ now =>
      let! op := Database.update table data where_ now in ret (Some op)
  | Delete table where_ now =>
      let! op := Database.delete table where_ now in ret (Some op)
  | Deliver op => Database.applyOperation op >> ret None
  | Close => Database.close >> ret None
  | Reload =>
      update_this (fun d => Database.new (dbName d) (clientId d)) >>
      Database.init >> ret None
  end.

(** Runs the calls in order; a call that throws is abandoned where it
    threw and the next call goes on from there.  The result lists the
    operations the mutations returned. *)
Fixpoint run_actions (acts : list action) (w : World) : World * list PendingOperation :=
  match acts with
  | [] => (w, [])
  | a :: rest =>
      let '(w1, r) := perform a w in
      let '(w2, ops) := run_actions rest w1 in
      (w2, match r with Return (Some op) => op :: ops | _ => ops end)
  end.

Definition internal_table (name : string) : bool :=
  bool_decide (name = "_modusql_meta" \/ name = "_modusql_ops").

(** A local call that leaves the two internal tables to the core. *)
Definition local_action (a : action) : bool :=
  match a with
  | Init | Close | Reload => true
  | CreateTable schema => negb (internal_table (ts_name schema))
  | Insert table _ _ | Update table _ _ _ | Delete table _ _ => negb (internal_table table)
  | Deliver _ => false
  end.

(** The browser context of a first visit, holding a database object that
    was constructed and not yet initialised. *)
Definition first_visit (name client : string) : World :=
  {| localStorage := ∅; console := []; sqljs := true; wire := []; fired := [];
     database := Database.new name client; sync := None;
     config := {| cfg_dbName := Some name; cfg_roomId := None |} |}.

(** The [local_seq] value in the persisted blob of database [name]. *)
Definition persisted_local_seq (name : string) (w : World) : option (list scalar) :=
  match localStorage w !! Database.blob_key name with
  | Some saved =>
      match Sql.import_text saved with
      | Some e =>
          match Sql.select_where "value" "_modusql_meta" "key" (Str "local_seq") e with
          | Sql.Ok vs => Some vs
          | Sql.Err _ => None
          end
      | None => None
      end
  | None => None
  end.

(** A database object never writes the blob of another name: the name
    stays, and the entry of [other] stays when [other] is not the name. *)
Definition ls_frame (other : string) : relation World :=
  fun w w' =>
    dbName (database w') = dbName (database w) /\
    (other <> dbName (database w) ->
     localStorage w' !! Database.blob_key other = localStorage w !! Database.blob_key other).

(** The target table of an INSERT has a primary key to which the payload
    gives a non-null value (or the table or the database is absent, and the
    INSERT fails). *)
Definition keyed_insert (op : Operation) (w : World) : bool :=
  match db (database w) with
  | Some e =>
      match Sql.tables e !! op_table op with
      | Some T =>
          match Sql.t_pk T with
          | Some k =>
              match base.delete "_where" (fields (op_data op)) !! k with
              | Some (Scalar v) => negb (is_null v)
              | _ => false
              end
          | None => false
          end
      | None => true
      end
  | None => true
  end.

(** The engine after a statement whose failure is caught. *)
Definition exec_or_same (s : Sql.stmt) (e : Sql.engine) : Sql.engine :=
  match Sql.exec s e with
  | Sql.Ok e' => e'
  | Sql.Err _ => e
  end.

(** ** Relations between the worlds before and after a step *)

Definition same_savepoints (o o' : option Sql.engine) : Prop :=
  match o, o' with
  | Some e, Some e' => Sql.savepoints e' = Sql.savepoints e
  | None, None => True
  | _, _ => False
  end.

(** The declared columns and key of every table. *)
Definition schemas (t : gmap string Sql.table)
  : gmap string (list Sql.coldef * option string) :=
  (fun T => (Sql.t_columns T, Sql.t_pk T)) <$> t.

Definition same_schemas (o o' : option Sql.engine) : Prop :=
  match o, o' with
  | Some e, Some e' => schemas (Sql.tables e') = schemas (Sql.tables e)
  | None, None => True
  | _, _ => False
  end.

(** A step that may change table rows and the console and nothing else:
    every other field of the world and of the database object, the
    savepoint stack and the table declarations are as before. *)
Definition engine_step (w w' : World) : Prop :=
  set_console (console w) (set_database (set_db (db (database w)) (database w')) w') = w /\
  same_savepoints (db (database w)) (db (database w')) /\
  same_schemas (db (database w)) (db (database w')).

(** Whether delivering [op] runs rollback and replay: the pending queue is
    not empty and does not contain [op.id]. *)
Definition replay_triggered (op : Operation) (w : World) : bool :=
  (negb (bool_decide (pendingOps (database w) = [])) &&
   negb (bool_decide (is_Some (Database.findIndex (op_id op) (pendingOps (database w))))))%bool.

(** Whether the engine holds a savepoint labelled by [savepointSeq]. *)
Definition has_checkpoint (w : World) : bool :=
  match db (database w) with
  | Some e =>
      (negb (savepointSeq (database w) <? 0) &&
       bool_decide (is_Some (Sql.unwind (savepointSeq (database w)) (Sql.savepoints e))))%bool
  | None => false
  end.

Definition ops_schema_ok (t : gmap string Sql.table) : Prop :=
  schemas t !! "_modusql_ops" = Some (Database.ops_columns, Some "id").

(** The database is open, [_modusql_ops] is declared as [init] declares it
    in the current tables and in every savepoint, and [confirmedSeq] is not
    negative. *)
Definition ready (w : World) : Prop :=
  match db (database w) with
  | Some e =>
      ops_schema_ok (Sql.tables e) /\
      Forall (fun sp => ops_schema_ok sp.2) (Sql.savepoints e) /\
      0 <= confirmedSeq (database w)
  | None => False
  end.

(** [c] run from [w] ends in a world and an outcome that satisfy [Q]. *)
Definition wp {A} (c : M A) (Q : World -> outcome A -> Prop) (w : World) : Prop :=
  Q (c w).1 (c w).2.

(** After the guarded RELEASE the engine has the same tables and a suffix
    of the savepoint stack; nothing else changed. *)
Definition released (w w1 : World) : Prop :=
  exists o, w1 = set_database (set_db o (database w)) w /\
    match db (database w), o with
    | Some e, Some e1 =>
        Sql.tables e1 = Sql.tables e /\ Sql.savepoints e1 `suffix_of` Sql.savepoints e
    | None, None => True
    | _, _ => False
    end.

(** The statement [applyOp] issues for an operation, and the warning it
    logs when the statement fails. *)
Definition apply_stmt (op : Operation) : option Sql.stmt :=
  if decide (op_type op = "INSERT")
  then Some (Sql.InsertInto true (op_table op)
               (base.delete "_where" (fields (op_data op))))
  else if decide (op_type op = "UPDATE")
  then Some (Sql.Update (op_table op) (base.delete "_where" (fields (op_data op)))
               (Database.where_of (op_data op)))
  else if decide (op_type op = "DELETE")
  then Some (Sql.DeleteFrom (op_table op) (Database.where_of (op_data op)))
  else None.

Definition apply_warning (op : Operation) (x : exn) : logline :=
  if decide (op_type op = "INSERT") then WarnFailedInsert x
  else if decide (op_type op = "UPDATE") then WarnFailedUpdate x
  else WarnFailedDelete x.

(** ** The invariant behind the local sequence counter *)

Definition digit_char (c : ascii) : Prop :=
  (48 <= nat_of_ascii c <= 57)%nat.

Fixpoint all_digits (s : string) : Prop :=
  match s with
  | EmptyString => True
  | String c s' => digit_char c /\ all_digits s'
  end.

(** The row of [_modusql_meta] that holds counter value [n]. *)
Definition stored_meta_row (n : Z) : gmap string scalar :=
  <["key" := Str "local_seq"]> (<["value" := Str (dec n)]> ∅).

Definition meta_table (n : Z) : Sql.table :=
  {| Sql.t_columns := Database.meta_columns; Sql.t_pk := Some "key";
     Sql.t_rows := if decide (n = 0) then [] else [stored_meta_row n] |}.

(** A row of [_modusql_ops] written for one of this client's first [n]
    operations. *)
Definition own_op_row (client : string) (n : Z) (r : gmap string scalar) : Prop :=
  exists l now, 1 <= l <= n /\
    r !! "id" = Some (Str (Database.operation_id client (Int l) now)).

Definition core_tables (client : string) (n : Z) (t : gmap string Sql.table) : Prop :=
  t !! "_modusql_meta" = Some (meta_table n) /\
  exists rows,
    t !! "_modusql_ops"
    = Some {| Sql.t_columns := Database.ops_columns; Sql.t_pk := Some "id";
              Sql.t_rows := rows |} /\
    Forall (own_op_row client n) rows.

(** What holds between local calls once [n] operations were created: the
    counter is [n]; the open engine and the persisted blob both hold the
    internal tables with the counter row for [n]; no savepoint is held. *)
Definition counter_inv (name client : string) (n : Z) (w : World) : Prop :=
  0 <= n /\ sqljs w = true /\
  dbName (database w) = name /\ clientId (database w) = client /\
  localSeqCounter (database w) = Int n /\
  match db (database w) with
  | Some e => core_tables client n (Sql.tables e) /\ Sql.savepoints e = []
  | None => True
  end /\
  match localStorage w !! Database.blob_key name with
  | Some saved =>
      exists e, Sql.import_text saved = Some e /\ core_tables client n (Sql.tables e)
  | None => n = 0
  end.

(** The table a statement writes. *)
Definition stmt_table (s : Sql.stmt) : option string :=
  match s with
  | Sql.CreateTableIfNotExists name _ _ => Some name
  | Sql.InsertInto _ tbl _ | Sql.Update tbl _ _ | Sql.DeleteFrom tbl _ => Some tbl
  | _ => None
  end.

(** What a mutation and a call leave behind, from a state with [n]
    operations created. *)
Definition mutation_post (name client : string) (n : Z)
    (w1 : World) (r : outcome PendingOperation) : Prop :=
  match r with
  | Return op => p_localSeq op = Int (n + 1) /\ counter_inv name client (n + 1) w1
  | Throw _ => counter_inv name client n w1
  end.

Definition action_post (name client : string) (n : Z)
    (w1 : World) (r : outcome (option PendingOperation)) : Prop :=
  match r with
  | Return (Some op) => p_localSeq op = Int (n + 1) /\ counter_inv name client (n + 1) w1
  | _ => counter_inv name client n w1
  end.

(** The persisted blob of the database, if there is one, loads into an
    engine that has [_modusql_ops] as [init] declares it. *)
Definition blob_ok (w : World) : Prop :=
  match localStorage w !! Database.blob_key (dbName (database w)) with
  | Some saved =>
      exists e, Sql.import_text saved = Some e /\ ops_schema_ok (Sql.tables e)
  | None => True
  end.

(** No savepoint is held. *)
Definition settled (w : World) : Prop :=
  match db (database w) with
  | Some e => Sql.savepoints e = []
  | None => True
  end.

(** What every state reached through the calls of [action] satisfies. *)
Definition sound (w : World) : Prop :=
  0 <= confirmedSeq (database w) /\
  match db (database w) with
  | Some e => ops_schema_ok (Sql.tables e) /\ Sql.savepoints e = []
  | None => True
  end /\
  blob_ok w.

(** [carries P]: if [P] held before, it holds after. *)
Definition carries (P : World -> Prop) : relation World :=
  fun w w' => P w -> P w'.

(** ** Observations for the properties beyond the reconciler's cases *)

(** The database is open and a reload would load the engine as it is: the
    blob stored for this database decodes to the open engine. *)
Definition image_saved (w : World) : Prop :=
  match db (database w) with
  | Some e =>
      localStorage w !! Database.blob_key (dbName (database w)) ≫= Sql.import_text
      = Some e
  | None => False
  end.

(** The calls that end by persisting: createTable, the local mutations, and
    a delivery that is not a duplicate. *)
Definition writes_through (a : action) (w : World) : bool :=
  match a with
  | CreateTable _ | Insert _ _ _ | Update _ _ _ _ | Delete _ _ _ => true
  | Deliver op => confirmedSeq (database w) <? op_seq op
  | Init | Close | Reload => false
  end.

(** [Q] holds of the world if the computation returned. *)
Definition returned {A} (Q : World -> Prop) (w : World) (r : outcome A) : Prop :=
  match r with Return _ => Q w | Throw _ => True end.

(** The bookkeeping of the reconciler and what the outside sees of a
    client: everything but the engine, the console, the checkpoint number
    and localStorage. *)
Definition ledger (w : World)
  : Z * list Operation * list PendingOperation * number
    * list Envelope * list event * option SyncManager :=
  (confirmedSeq (database w), confirmedOps (database w), pendingOps (database w),
   localSeqCounter (database w), wire w, fired w, sync w).

(** The operation record [createOperation] builds on database object [d]
    (the counter is incremented first). *)
Definition new_op (d : Database) (table type : string) (data : object jsval)
    (now : Z) : PendingOperation :=
  {| p_id := Database.operation_id (clientId d) (incr (localSeqCounter d)) now;
     p_localSeq := incr (localSeqCounter d);
     p_table := table; p_type := type; p_data := data; p_clientId := clientId d |}.

(** The statement a local mutation runs first, and the operation it then
    records. *)
Definition local_stmt (a : action) : option Sql.stmt :=
  match a with
  | Insert table data _ => Some (Sql.InsertInto false table (fields data))
  | Update table data where_ _ => Some (Sql.Update table (fields data) (fields where_))
  | Delete table where_ _ => Some (Sql.DeleteFrom table (fields where_))
  | _ => None
  end.

Definition created_by (a : action) (d : Database) : option PendingOperation :=
  match a with
  | Insert table data now => Some (new_op d table "INSERT" data now)
  | Update table data where_ now =>
      Some (new_op d table "UPDATE" (obj_set "_where" (Obj where_) data) now)
  | Delete table where_ now =>
      Some (new_op d table "DELETE" [("_where", Obj where_)] now)
  | _ => None
  end.

(** A table of the engine with its declaration, if the database is open and
    the table exists. *)
Definition table_of (name : string) (w : World) : option Sql.table :=
  match db (database w) with
  | Some e => Sql.tables e !! name
  | None => None
  end.

(** The payload of a local insert or update has no key [_where] of its
    own. *)
Definition plain_payload (a : action) : bool :=
  match a with
  | Insert _ data _ | Update _ data _ _ => bool_decide (fields data !! "_where" = None)
  | _ => true
  end.

(** What a local mutation leaves of the world apart from the engine and
    localStorage. *)
Definition mutation_effect (w : World) (op : PendingOperation) (w1 : World) : Prop :=
  pendingOps (database w1) = pendingOps (database w) ++ [op] /\
  localSeqCounter (database w1) = p_localSeq op /\
  wire w1 = wire w ++ (if (onOperation (database w) && can_send w)%bool
                       then [op_envelope op] else []) /\
  confirmedSeq (database w1) = confirmedSeq (database w) /\
  confirmedOps (database w1) = confirmedOps (database w) /\
  savepointSeq (database w1) = savepointSeq (database w) /\
  fired w1 = fired w /\ sync w1 = sync w /\ console w1 = console w.

(** The sync manager is untouched and, if it could not send before,
    nothing was sent. *)
Definition quiet : relation World :=
  fun w w' => sync w' = sync w /\ (can_send w = false -> wire w' = wire w).

(** The callback [cb] was passed to [init]. *)
Definition has_callback (cb : ModuSQLCallbacks -> bool) (w : World) : bool :=
  match sync w with
  | Some s => cb (callbacks s)
  | None => false
  end.

(** The deliveries of [ops], one after the other. *)
Definition apply_all (ops : list Operation) (w : World) : World :=
  foldl (fun w op => exec_world (Database.applyOperation op) w) w ops.

(** The engine [init] builds when there is no stored image: a new sql.js
    database with the two CREATE TABLE statements run. *)
Definition first_engine : Sql.engine :=
  exec_or_same
    (Sql.CreateTableIfNotExists "_modusql_ops" Database.ops_columns (Some "id"))
    (exec_or_same
       (Sql.CreateTableIfNotExists "_modusql_meta" Database.meta_columns (Some "key"))
       Sql.empty_engine).

(** * Verification *)

(** ** Monad laws used below *)

Lemma bind_ret_l {A B} (a : A) (k : A -> M B) (w : World) :
  bind (ret a) k w = k a w.
Proof. reflexivity. Qed.

Lemma bind_return {A B} (c : M A) (k : A -> M B) (w w' : World) (a : A) :
  c w = (w', Return a) -> bind c k w = k a w'.
Proof. intros H. unfold bind. by rewrite H. Qed.

Lemma bind_throw {A B} (c : M A) (k : A -> M B) (w w' : World) (x : exn) :
  c w = (w', Throw x) -> bind c k w = (w', Throw x).
Proof. intros H. unfold bind. by rewrite H. Qed.

Lemma when_false (c : M unit) (w : World) : when false c w = (w, Return tt).
Proof. reflexivity. Qed.

Lemma set_database_same (w : World) : set_database (database w) w = w.
Proof. by destruct w. Qed.

(** ** The blob survives a round trip *)

Lemma text_pos_text (p : positive) : Sql.text_pos (Sql.pos_text p) = Some p.
Proof.
  induction p as [p IH|p IH|]; simpl; [| |done].
  - rewrite IH. by destruct p.
  - by rewrite IH.
Qed.

Lemma import_export (e : Sql.engine) :
  Sql.import_text (Sql.export_text e) = Some (Sql.reopened e).
Proof.
  unfold Sql.import_text, Sql.export_text. by rewrite text_pos_text, decode_encode.
Qed.

Lemma committed_settled (e : Sql.engine) :
  Sql.savepoints e = [] -> Sql.committed e = Sql.tables e.
Proof. unfold Sql.committed. by intros ->. Qed.

Lemma reopened_settled (e : Sql.engine) :
  Sql.savepoints e = [] -> Sql.reopened e = e.
Proof.
  intros H. unfold Sql.reopened. rewrite (committed_settled e H).
  destruct e; simpl in *. by subst.
Qed.

(** The outermost savepoint is one of the savepoints held. *)
Lemma outermost_elem (sps : list (Z * gmap string Sql.table)) (snap : gmap string Sql.table) :
  Sql.outermost sps = Some snap -> exists n, (n, snap) ∈ sps.
Proof.
  induction sps as [|[n s0] sps IH]; simpl; [done|].
  destruct sps as [|sp sps].
  - intros [= ->]. exists n. by left.
  - intros H. destruct (IH H) as [m Hm]. exists m. by right.
Qed.

Lemma import_text_nonempty (s : string) (e : Sql.engine) :
  Sql.import_text s = Some e -> s <> EmptyString.
Proof. by intros H ->. Qed.

(** ** C10: an operation of another type is skipped by [applyOp] *)

(** C10. For an operation whose type is none of INSERT, UPDATE, DELETE,
    [applyOp] returns normally and leaves the whole world, and so every
    table of the engine, as it was. *)
Theorem applyOp_other_type_noop (op : Operation) (w : World) :
  op_type op <> "INSERT" -> op_type op <> "UPDATE" -> op_type op <> "DELETE" ->
  Database.applyOp op w = (w, Return tt).
Proof.
  intros Hi Hu Hd. unfold Database.applyOp.
  destruct (decide (op_type op = "INSERT")) as [E|_]; [by destruct Hi|].
  destruct (decide (op_type op = "UPDATE")) as [E|_]; [by destruct Hu|].
  destruct (decide (op_type op = "DELETE")) as [E|_]; [by destruct Hd|].
  reflexivity.
Qed.

Lemma applyOp_other_type_noop_witness :
  let op := Scenario.remote_op "B_2_950" 2 "log" "UPSERT" (Scenario.entry 9) in
  op_type op <> "INSERT" /\ op_type op <> "UPDATE" /\ op_type op <> "DELETE" /\
  Database.applyOp op Scenario.log_world = (Scenario.log_world, Return tt).
Proof.
  simpl. split; [discriminate|]. split; [discriminate|]. split; [discriminate|].
  apply (applyOp_other_type_noop
           (Scenario.remote_op "B_2_950" 2 "log" "UPSERT" (Scenario.entry 9)));
    discriminate.
Defined.

(** ** C5: a duplicate delivery changes nothing *)

(** C5. Delivering a confirmed operation whose [seq] is at most
    [confirmedSeq] leaves the world exactly as it was: engine tables and
    savepoints, pending queue, [confirmedSeq], [savepointSeq], confirmed
    log, the operation records and the persisted blob. *)
Theorem applyOperation_duplicate_noop (op : Operation) (w : World) :
  op_seq op <= confirmedSeq (database w) ->
  exec_world (Database.applyOperation op) w = w.
Proof.
  intros Hdup. unfold exec_world, Database.applyOperation.
  unfold bind at 1. unfold Database.require_db.
  destruct (db (database w)) as [e|]; [|reflexivity].
  unfold bind at 1. unfold this at 1. cbv beta iota.
  assert ((op_seq op =? confirmedSeq (database w) + 1) = false) as -> by lia.
  assert ((confirmedSeq (database w) + 1 <? op_seq op) = false) as -> by lia.
  assert ((op_seq op <=? confirmedSeq (database w)) = true) as -> by lia.
  reflexivity.
Qed.

Lemma applyOperation_duplicate_noop_witness :
  let op := Scenario.remote_op "B_1_900" 1 "log" "INSERT" (Scenario.entry 5) in
  op_seq op <= confirmedSeq (database Scenario.log_world) /\
  exec_world (Database.applyOperation op) Scenario.log_world = Scenario.log_world.
Proof.
  split.
  - vm_compute. discriminate.
  - apply (applyOperation_duplicate_noop
             (Scenario.remote_op "B_1_900" 1 "log" "INSERT" (Scenario.entry 5))).
    vm_compute. discriminate.
Defined.

(** ** Projections a computation leaves alone *)

(** [stable R c]: the world after [c], returned or thrown, is related by
    [R] to the world before. *)
Definition stable (R : relation World) {A} (c : M A) : Prop :=
  forall w, R w (exec_world c w).

(** [keeps f]: the observation [f] of the world is unchanged. *)
Definition keeps {B} (f : World -> B) : relation World :=
  fun w w' => f w' = f w.

#[global] Instance keeps_preorder {B} (f : World -> B) : PreOrder (keeps f).
Proof.
  split.
  - by intros w.
  - intros w1 w2 w3 H12 H23. unfold keeps in *. congruence.
Qed.

Section Stable.
Context (R : relation World) `{!PreOrder R}.

Lemma stable_ret {A} (a : A) : stable R (ret a).
Proof. intros w. reflexivity. Qed.

Lemma stable_throw {A} (x : exn) : stable R (@throw A x).
Proof. intros w. reflexivity. Qed.

Lemma stable_get : stable R get.
Proof. intros w. reflexivity. Qed.

Lemma stable_this : stable R this.
Proof. intros w. reflexivity. Qed.

Lemma stable_bind {A B} (c : M A) (k : A -> M B) :
  stable R c -> (forall a, stable R (k a)) -> stable R (bind c k).
Proof.
  intros Hc Hk w. unfold exec_world, bind.
  specialize (Hc w). unfold exec_world in Hc.
  destruct (c w) as [w' [a|x]]; simpl in *; [|done].
  etrans; [exact Hc|]. apply Hk.
Qed.

Lemma stable_try_catch {A} (body : M A) (handler : exn -> M A) :
  stable R body -> (forall x, stable R (handler x)) -> stable R (try_catch body handler).
Proof.
  intros Hc Hk w. unfold exec_world, try_catch.
  specialize (Hc w). unfold exec_world in Hc.
  destruct (body w) as [w' [a|x]]; simpl in *; [done|].
  etrans; [exact Hc|]. apply Hk.
Qed.

Lemma stable_when (b : bool) (c : M unit) : stable R c -> stable R (when b c).
Proof. intros Hc. destruct b; [done|]. apply stable_ret. Qed.

Lemma stable_for_each {A} (l : list A) (body : A -> M unit) :
  (forall x, stable R (body x)) -> stable R (for_each l body).
Proof.
  intros Hb. induction l as [|x l IH]; simpl.
  - apply stable_ret.
  - apply stable_bind; [apply Hb | intros _; exact IH].
Qed.

Lemma stable_modify (f : World -> World) :
  (forall w, R w (f w)) -> stable R (modify f).
Proof. intros Hf w. apply Hf. Qed.

Lemma stable_require_db : stable R Database.require_db.
Proof.
  intros w. unfold exec_world, Database.require_db.
  destruct (db (database w)); reflexivity.
Qed.
End Stable.

Ltac stable_step :=
  first
    [ apply stable_ret | apply stable_throw | apply stable_get | apply stable_this
    | apply stable_require_db
    | apply stable_bind | apply stable_try_catch | apply stable_when
    | apply stable_for_each
    | progress intros
    | match goal with
      | |- stable _ (match ?x with _ => _ end) => destruct x
      end ].

Lemma keeps_run {B} (f : World -> B) (s : Sql.stmt) :
  (forall w e, f (set_database (set_db e (database w)) w) = f w) ->
  stable (keeps f) (Database.run s).
Proof.
  intros Hf w. unfold keeps, exec_world, Database.run.
  destruct (db (database w)) as [e|]; [|done].
  destruct (Sql.exec s e); simpl; [apply Hf | done].
Qed.

Lemma keeps_update_this {B} (f : World -> B) (g : Database -> Database) :
  (forall w, f (set_database (g (database w)) w) = f w) ->
  stable (keeps f) (update_this g).
Proof. intros Hf. apply stable_modify. intros w. apply Hf. Qed.

Lemma keeps_console_log {B} (f : World -> B) (l : logline) :
  (forall w c, f (set_console c w) = f w) -> stable (keeps f) (console_log l).
Proof. intros Hf. apply stable_modify. intros w. apply Hf. Qed.

(** [init] changes no field of the database object other than the engine
    handle and [localSeqCounter]. *)
Lemma init_keeps {B} (g : Database -> B) :
  (forall d e, g (set_db e d) = g d) ->
  (forall d n, g (set_localSeqCounter n d) = g d) ->
  forall w, g (database (exec_world Database.init w)) = g (database w).
Proof.
  intros Hdb Hctr.
  change (stable (keeps (fun w => g (database w))) Database.init).
  unfold Database.init.
  repeat (stable_step; try apply _);
    try (apply keeps_run; intros; simpl; apply Hdb);
    try (apply keeps_update_this; intros; simpl; first [apply Hdb | apply Hctr]).
Qed.

(** ** C1: what a reload restores *)

(** [init] never touches the in-memory pending queue: it neither clears
    nor rebuilds it. *)
Lemma init_keeps_pendingOps (w : World) :
  pendingOps (database (exec_world Database.init w)) = pendingOps (database w).
Proof.
  apply (init_keeps (fun d => pendingOps d)); by intros [].
Qed.

(** After a reload the pending queue is empty, whatever was pending and
    whatever [_modusql_ops] holds. *)
Lemma reload_pending_queue_empty (w : World) :
  pendingOps (database (exec_world (perform Reload) w)) = [].
Proof.
  unfold perform, exec_world, bind, update_this, modify. simpl.
  pose proof (init_keeps_pendingOps
                (set_database (Database.new (dbName (database w)) (clientId (database w))) w))
    as H.
  unfold exec_world in H. simpl in H.
  by destruct (Database.init _) as [w1 [[]|x]].
Qed.

(** Calling [init] again on the closed facade keeps the queue that was in
    memory; the numbers of S1 hold there without any rebuild. *)
Lemma s1_reinit_keeps_memory_queue :
  let w := exec_world Scenario.s1_reinit fresh_world in
  ModuSQL.pendingCount w = 1%nat /\ localSeqCounter (database w) = Int 1 /\
  cell_values "v" "t" w = Some [Num 1].
Proof. vm_compute. repeat split; reflexivity. Qed.

(** ** C2: the order of the steps of rollback and replay *)

(** C2 (the code at a failing input).  The client has one confirmed row
    [5], confirmed at seq 1, and one pending local insert [1]; the remote
    insert [9] arrives with seq 2.  The transition as the specification
    words it rolls back to the state at seq 1 and yields [5; 9; 1].  The
    code applies the remote operation on top of the pending one, takes the
    new savepoint, rolls back to that savepoint, and applies the remote
    operation again: the table ends as [5; 1; 9; 9; 1]. *)
Theorem in_order_remote_rolls_back_to_new_savepoint :
  let w := Scenario.log_world in
  op_seq Scenario.remote_9 = confirmedSeq (database w) + 1 /\
  Database.findIndex (op_id Scenario.remote_9) (pendingOps (database w)) = None /\
  length (pendingOps (database w)) = 1%nat /\
  cell_values "v" "log" Scenario.log_confirmed_world = Some [Num 5] /\
  cell_values "v" "log" w = Some [Num 5; Num 1] /\
  cell_values "v" "log" (exec_world (Database.applyOperation Scenario.remote_9) w)
    = Some [Num 5; Num 1; Num 9; Num 9; Num 1] /\
  cell_values "v" "log"
    (exec_world (remote_in_order_spec Scenario.checkpoint_1 Scenario.remote_9) w)
    = Some [Num 5; Num 9; Num 1].
Proof. vm_compute. repeat split; reflexivity. Qed.

(** ** C4: the envelope type *)

Lemma for_each_send (l : list PendingOperation) (w : World) :
  for_each l (fun op => connection_send (op_envelope op)) w
  = (set_wire (wire w ++ (op_envelope <$> l)) w, Return tt).
Proof.
  revert w. induction l as [|op l IH]; intros w; simpl.
  - unfold ret. rewrite app_nil_r. by destruct w.
  - unfold bind, connection_send, modify. rewrite IH. simpl.
    by rewrite <- app_assoc.
Qed.

Lemma drop_length_app {A} (l k : list A) : drop (length l) (l ++ k) = k.
Proof. by rewrite drop_app_length. Qed.

(** C4 (as stated, fails).  The envelope a connected client sends for a
    local operation does not carry the type [op], and a received envelope
    of type [sumql_op], which differs from [op], is applied. *)
Lemma sent_envelope_type_is_not_op :
  ~ Forall (fun e => env_type e = "op")
      (sent_by (handleLocalOperation Scenario.pending_a) Scenario.online_world) /\
  envelope_type (Scenario.input_of "sumql_op" 1 Scenario.pending_a) <> Some "op" /\
  confirmedSeq (database (exec_world
     (SyncManager.onInputHandler (Scenario.input_of "sumql_op" 1 Scenario.pending_a))
     Scenario.online_world)) = 1.
Proof.
  split; [|split].
  - intros H. vm_compute in H. inversion H as [|? ? Hty _]. discriminate Hty.
  - discriminate.
  - vm_compute. reflexivity.
Qed.

(** C4 (amended).  Every envelope sent for a local operation or by the
    flush of the pending queue has type [sumql_op]; an input whose
    envelope type is anything else yields no operation, is skipped by the
    join loop, and [onInput] leaves the world as it was: nothing applied,
    no callback fired. *)
Theorem envelope_type_is_sumql_op
    (op : PendingOperation) (input : NetworkInput) (w : World) :
  envelope_type input <> Some "sumql_op" ->
  Forall (fun e => env_type e = "sumql_op") (sent_by (handleLocalOperation op) w) /\
  Forall (fun e => env_type e = "sumql_op") (sent_by SyncManager.flushPendingOps w) /\
  SyncManager.inputToOperation input = None /\
  SyncManager.onInputHandler input w = (w, Return tt) /\
  (forall rest ops, SyncManager.apply_inputs (input :: rest) ops
                    = SyncManager.apply_inputs rest ops).
Proof.
  intros Hty.
  assert (SyncManager.inputToOperation input = None) as Hnone.
  { unfold SyncManager.inputToOperation, envelope_type in *.
    destruct (in_data input) as [env|]; [|done].
    destruct (decide (env_type env = "sumql_op")) as [E|]; [|done].
    exfalso. apply Hty. simpl. by rewrite E. }
  repeat split.
  - unfold sent_by, exec_world, handleLocalOperation, bind, get, when.
    destruct (can_send w); simpl.
    + rewrite drop_length_app. repeat constructor.
    + rewrite drop_all. constructor.
  - unfold sent_by, exec_world, SyncManager.flushPendingOps, bind, get.
    destruct (can_send w); simpl.
    + rewrite for_each_send. simpl. rewrite drop_length_app.
      apply Forall_fmap, Forall_true. done.
    + rewrite drop_all. constructor.
  - exact Hnone.
  - unfold SyncManager.onInputHandler. by rewrite Hnone.
  - intros rest ops. simpl. by rewrite Hnone.
Qed.

Lemma envelope_type_is_sumql_op_witness :
  let input := Scenario.input_of "op" 1 Scenario.pending_a in
  envelope_type input <> Some "sumql_op" /\
  Forall (fun e => env_type e = "sumql_op")
    (sent_by (handleLocalOperation Scenario.pending_a) Scenario.online_world) /\
  SyncManager.onInputHandler input Scenario.online_world
    = (Scenario.online_world, Return tt).
Proof.
  simpl. split; [discriminate|].
  destruct (envelope_type_is_sumql_op Scenario.pending_a
              (Scenario.input_of "op" 1 Scenario.pending_a) Scenario.online_world)
    as (H1 & _ & _ & H4 & _); [discriminate|].
  split; [exact H1 | exact H4].
Defined.

(** ** C9: the keys of the persisted state *)

Lemma blob_key_inj (a b : string) : Database.blob_key a = Database.blob_key b -> a = b.
Proof. unfold Database.blob_key. simpl. intros H. by simplify_eq. Qed.

#[global] Instance ls_frame_preorder (other : string) : PreOrder (ls_frame other).
Proof.
  split.
  - by intros w.
  - intros w1 w2 w3 [Hn12 Hl12] [Hn23 Hl23]. split; [congruence|].
    intros Hne. rewrite Hl23, Hl12; [done..|]. by rewrite Hn12.
Qed.

Lemma ls_frame_run (other : string) (s : Sql.stmt) :
  stable (ls_frame other) (Database.run s).
Proof.
  intros w. unfold exec_world, Database.run.
  destruct (db (database w)) as [e|]; [|done].
  by destruct (Sql.exec s e).
Qed.

Lemma ls_frame_update_this (other : string) (g : Database -> Database) :
  (forall d, dbName (g d) = dbName d) -> stable (ls_frame other) (update_this g).
Proof. intros Hg w. split; [apply Hg | done]. Qed.

Lemma ls_frame_persist (other : string) : stable (ls_frame other) Database.persist.
Proof.
  intros w. unfold exec_world, Database.persist.
  destruct (db (database w)) as [e|]; [|done].
  split; [done|]. intros Hne. simpl.
  apply lookup_insert_ne. intros Hk. apply Hne. symmetry. by apply blob_key_inj.
Qed.

Lemma ls_frame_console_log (other : string) (l : logline) :
  stable (ls_frame other) (console_log l).
Proof. by intros w. Qed.

Lemma ls_frame_handleLocalOperation (other : string) (op : PendingOperation) :
  stable (ls_frame other) (handleLocalOperation op).
Proof.
  unfold handleLocalOperation. repeat stable_step; try apply _. by intros w.
Qed.

Ltac ls_frame_leaf :=
  first
    [ apply ls_frame_run | apply ls_frame_persist | apply ls_frame_console_log
    | apply ls_frame_handleLocalOperation
    | apply ls_frame_update_this; by intros [] ].

Ltac ls_frame_auto := repeat (first [ls_frame_leaf | stable_step]; try apply _).

Lemma ls_frame_applyOp (other : string) (op : Operation) :
  stable (ls_frame other) (Database.applyOp op).
Proof.
  unfold Database.applyOp, Database.applyInsert, Database.applyUpdate,
    Database.applyDelete.
  repeat case_decide; ls_frame_auto.
Qed.

Lemma ls_frame_createSavepoint (other : string) :
  stable (ls_frame other) Database.createSavepoint.
Proof. unfold Database.createSavepoint. ls_frame_auto. Qed.

Lemma ls_frame_applyOperation (other : string) (op : Operation) :
  stable (ls_frame other) (Database.applyOperation op).
Proof.
  unfold Database.applyOperation, Database.rollbackAndReplay.
  apply stable_bind; [apply _ | apply stable_require_db; apply _ |].
  intros _. apply stable_bind; [apply _ | apply stable_this; apply _ |]. intros d.
  apply stable_bind; [apply _ | |].
  - repeat case_match;
      repeat (first [ apply ls_frame_applyOp | apply ls_frame_createSavepoint
                    | ls_frame_leaf | stable_step ]; try apply _).
  - intros []; simpl;
      repeat (first [ apply ls_frame_applyOp | apply ls_frame_createSavepoint
                    | ls_frame_leaf | stable_step ]; try apply _).
Qed.

Lemma ls_frame_createOperation (other table type : string)
    (data : object jsval) (now : Z) :
  stable (ls_frame other) (Database.createOperation table type data now).
Proof. unfold Database.createOperation. ls_frame_auto. Qed.

Lemma ls_frame_init (other : string) : stable (ls_frame other) Database.init.
Proof. unfold Database.init. ls_frame_auto. Qed.

Lemma ls_frame_perform (other : string) (a : action) :
  stable (ls_frame other) (perform a).
Proof.
  destruct a; unfold perform, Database.createTable, Database.insert, Database.update,
    Database.delete, Database.close;
    repeat (first [ apply ls_frame_createOperation | apply ls_frame_applyOperation
                  | apply ls_frame_init | ls_frame_leaf | stable_step ]; try apply _).
Qed.

(** [init] reads localStorage at the blob key of its own name only. *)
Lemma init_reads_own_blob (w : World) (other v : string) :
  other <> dbName (database w) ->
  database (exec_world Database.init
              (set_localStorage (<[Database.blob_key other := v]> (localStorage w)) w))
  = database (exec_world Database.init w).
Proof.
  intros Hne.
  unfold exec_world, Database.init, bind, get, this, update_this, modify, throw, ret,
    Database.run.
  simpl. destruct (sqljs w); simpl; [|done].
  rewrite lookup_insert_ne
    by (intros Hk; apply Hne; symmetry; by apply blob_key_inj).
  repeat (case_match; simplify_eq/=; try done).
Qed.

(** C9 (as stated, fails).  The client id is kept under one fixed key: a
    facade for database [other] reads the id that a facade for database
    [app] wrote. *)
Lemma client_id_shared_across_database_names :
  let w1 := exec_world (ModuSQL.new Scenario.cfg_app 1000 "abc") fresh_world in
  let w2 := exec_world (ModuSQL.new Scenario.cfg_other 2000 "def") w1 in
  dbName (database w1) <> dbName (database w2) /\
  localStorage fresh_world !! ModuSQL.client_id_key = None /\
  localStorage w1 !! ModuSQL.client_id_key = Some (ModuSQL.id w1) /\
  ModuSQL.id w2 = ModuSQL.id w1.
Proof. vm_compute. repeat split; try reflexivity. discriminate. Qed.

(** The blob key of a database named [client_id] is the client id entry
    itself: its [init] takes the stored client id for the database image
    and fails. *)
Lemma database_named_client_id_reads_client_id :
  Database.blob_key "client_id" = ModuSQL.client_id_key /\
  eval_world (Scenario.open Scenario.cfg_client_id 1000 "abc") fresh_world
    = Throw BadImage.
Proof. split; vm_compute; reflexivity. Qed.

(** C9 (amended).  The database blob is namespaced by the database name:
    no call on a database object writes the blob entry of another name, and
    [init] does not read it.  The client id is not namespaced: whatever the
    configured name, a new facade's client id is the value of the single
    entry [modusql_client_id]. *)
Theorem blob_namespaced_client_id_shared
    (a : action) (w : World) (other v : string)
    (cfg : ModuSQLConfig) (now : Z) (rnd : string) :
  other <> dbName (database w) ->
  Database.blob_key other <> Database.blob_key (dbName (database w)) /\
  localStorage (exec_world (perform a) w) !! Database.blob_key other
    = localStorage w !! Database.blob_key other /\
  database (exec_world Database.init
              (set_localStorage (<[Database.blob_key other := v]> (localStorage w)) w))
    = database (exec_world Database.init w) /\
  (let w' := exec_world (ModuSQL.new cfg now rnd) w in
   localStorage w' !! ModuSQL.client_id_key = Some (clientId (database w'))).
Proof.
  intros Hne. repeat split.
  - intros Hk. apply Hne. by apply blob_key_inj.
  - by apply (ls_frame_perform other a w).
  - by apply init_reads_own_blob.
  - unfold exec_world, ModuSQL.new, bind, ModuSQL.generateClientId, Database.truthy.
    destruct (localStorage w !! ModuSQL.client_id_key) as [stored|] eqn:E; simpl.
    + destruct (decide (stored = EmptyString)); simpl; [|done].
      by rewrite lookup_insert_eq.
    + by rewrite lookup_insert_eq.
Qed.

Lemma blob_namespaced_client_id_shared_witness :
  let w := Scenario.log_world in
  let a := Insert "log" (Scenario.entry 7) 1002 in
  "other" <> dbName (database w) /\
  localStorage (exec_world (perform a) w) !! Database.blob_key "other"
    = localStorage w !! Database.blob_key "other".
Proof.
  simpl. split; [vm_compute; discriminate|].
  apply (blob_namespaced_client_id_shared
           (Insert "log" (Scenario.entry 7) 1002) Scenario.log_world "other" "x"
           Scenario.cfg_other 0 "r").
  vm_compute. discriminate.
Defined.

(** ** C6: applying an operation twice *)

Section EngineIdempotence.
Import Sql.

Lemma filter_filter {A} (f : A -> bool) (l : list A) :
  List.filter f (List.filter f l) = List.filter f l.
Proof. apply List.forallb_filter_id, List.forallb_filter. Qed.

Lemma set_table_twice (tbl : string) (T : table) (e : engine) :
  set_table tbl T (set_table tbl T e) = set_table tbl T e.
Proof. unfold set_table. simpl. by rewrite insert_insert_eq. Qed.

Lemma build_row_lookup (o : bool) (b : gmap string scalar) (cs : list coldef)
    (r : gmap string scalar) (k : string) (v : scalar) :
  build_row o b cs = Some r -> b !! k = Some v -> v <> Null ->
  k ∈ (col_name <$> cs) -> r !! k = Some v.
Proof.
  intros Hr Hb Hv. revert r Hr.
  induction cs as [|c cs IH]; intros r Hr Hk; simpl in *.
  - by apply elem_of_nil in Hk.
  - destruct (cell o b c) as [vc|] eqn:Hc; [|done].
    destruct (build_row o b cs) as [r'|] eqn:Hr'; [|done].
    injection Hr as <-.
    destruct (decide (col_name c = k)) as [Heq|Hne].
    + rewrite Heq, lookup_insert_eq. f_equal.
      unfold cell in Hc. rewrite Heq, Hb in Hc.
      destruct v; [done|..];
        (replace (is_null _) with false in Hc by done);
        rewrite andb_false_r in Hc; by injection Hc.
    + rewrite lookup_insert_ne by done.
      apply IH; [done|]. apply elem_of_cons in Hk as [Hk|Hk]; [done|exact Hk].
Qed.

Lemma known_cols_lookup {V} (T : table) (m : gmap string V) (k : string) (v : V) :
  known_cols T m = true -> m !! k = Some v -> k ∈ col_names T.
Proof.
  unfold known_cols. intros H Hk. apply bool_decide_eq_true in H.
  exact (H k v Hk).
Qed.

Lemma bind_all_lookup (m : gmap string jsval) (k : string) (v : scalar) :
  m !! k = Some (Scalar v) -> bind_all m !! k = Some v.
Proof. intros H. unfold bind_all. by rewrite lookup_omap, H. Qed.

(** INSERT OR REPLACE of a row with a non-null key: the second run
    replaces the row the first one wrote. *)
Lemma exec_insert_replace_again (tbl : string) (vals : gmap string jsval)
    (e e1 : engine) (T : table) (k : string) (v : scalar) :
  tables e !! tbl = Some T -> t_pk T = Some k ->
  vals !! k = Some (Scalar v) -> v <> Null ->
  exec_insert true tbl vals e = Ok e1 ->
  exec_insert true tbl vals e1 = Ok e1.
Proof.
  intros HT Hpk Hk Hv. unfold exec_insert. rewrite HT.
  destruct (decide (vals = ∅)); [done|].
  destruct (known_cols T vals) eqn:Hcols; [|done].
  destruct (bindable vals) eqn:Hbind; [|done]. simpl.
  destruct (build_row true (bind_all vals) (t_columns T)) as [r|] eqn:Hr; [|done].
  intros [= <-]. simpl. rewrite lookup_insert_eq. simpl.
  change (known_cols (with_rows T _) vals) with (known_cols T vals).
  rewrite Hcols, Hr. simpl. f_equal.
  assert (pk_value T r = Some v) as Hpkv.
  { unfold pk_value. rewrite Hpk.
    rewrite (build_row_lookup _ _ _ _ k v Hr); [by destruct v| |done|].
    - by apply bind_all_lookup.
    - by apply (known_cols_lookup T vals k (Scalar v)). }
  assert (conflicts T r r = true) as Hself.
  { unfold conflicts. rewrite Hpkv. by apply bool_decide_eq_true. }
  match goal with
  | |- set_table _ (with_rows _ ?rows2) _ = set_table _ (with_rows _ ?rows1) _ =>
      assert (rows2 = rows1) as ->
  end.
  { change (conflicts (with_rows T _) r) with (conflicts T r).
    rewrite List.filter_app, filter_filter. simpl. rewrite Hself. simpl.
    by rewrite app_nil_r. }
  unfold with_rows at 1. simpl. apply set_table_twice.
Qed.

Lemma update_row_again (wheres sets r : gmap string scalar) :
  update_row wheres sets (update_row wheres sets r) = update_row wheres sets r.
Proof.
  unfold update_row. destruct (matches wheres r) eqn:E.
  - destruct (matches wheres (sets ∪ r)); [|done].
    by rewrite (assoc_L (∪)), (idemp_L (∪)).
  - by rewrite E.
Qed.

Lemma update_row_matches (wheres sets r : gmap string scalar) :
  matches wheres (update_row wheres sets r) = true -> matches wheres r = true.
Proof.
  unfold update_row. destruct (matches wheres r) eqn:E; [done|]. by rewrite E.
Qed.

Lemma existsb_update_row (wheres sets : gmap string scalar)
    (rows : list (gmap string scalar)) :
  existsb (matches wheres) (update_row wheres sets <$> rows) = true ->
  existsb (matches wheres) rows = true.
Proof.
  induction rows as [|r rows IH]; simpl; [done|].
  intros H. apply orb_true_iff in H as [H|H]; apply orb_true_iff.
  - left. by apply update_row_matches in H.
  - right. by apply IH.
Qed.

Lemma exec_update_again (tbl : string) (sets : gmap string jsval)
    (wheres : gmap string scalar) (e e1 : engine) :
  exec_update tbl sets wheres e = Ok e1 -> exec_update tbl sets wheres e1 = Ok e1.
Proof.
  unfold exec_update. destruct (tables e !! tbl) as [T|] eqn:HT; [|done].
  destruct (decide (sets = ∅)); [done|].
  destruct (decide (wheres = ∅)); [done|].
  destruct (known_cols T sets && known_cols T wheres) eqn:Hcols; [|done].
  destruct (bindable sets) eqn:Hbind; [|done]. simpl.
  destruct (existsb (matches wheres) (t_rows T) && _) eqn:Hchk; [done|].
  intros [= <-]. simpl. rewrite lookup_insert_eq. simpl.
  change (known_cols (with_rows T ?x) ?m) with (known_cols T m).
  rewrite Hcols. simpl.
  set (rows1 := update_row wheres (bind_all sets) <$> t_rows T) in *.
  assert (update_row wheres (bind_all sets) <$> rows1 = rows1) as ->.
  { unfold rows1. rewrite <- list_fmap_compose. apply list_fmap_ext.
    intros _ r _. apply update_row_again. }
  change (rows_ok (with_rows T rows1)) with (rows_ok T).
  destruct (existsb (matches wheres) rows1) eqn:Hex; simpl.
  - apply existsb_update_row in Hex. rewrite Hex in Hchk. simpl in Hchk.
    rewrite Hchk. simpl. f_equal. apply set_table_twice.
  - f_equal. apply set_table_twice.
Qed.

Lemma exec_delete_again (tbl : string) (wheres : gmap string scalar) (e e1 : engine) :
  exec_delete tbl wheres e = Ok e1 -> exec_delete tbl wheres e1 = Ok e1.
Proof.
  unfold exec_delete. destruct (tables e !! tbl) as [T|] eqn:HT; [|done].
  destruct (decide (wheres = ∅)); [done|].
  destruct (known_cols T wheres) eqn:Hcols; [|done]. simpl.
  intros [= <-]. simpl. rewrite lookup_insert_eq. simpl.
  change (known_cols (with_rows T ?x) ?m) with (known_cols T m).
  rewrite Hcols. simpl. rewrite filter_filter. f_equal. apply set_table_twice.
Qed.
End EngineIdempotence.

Lemma exec_or_same_again (s : Sql.stmt) (e : Sql.engine) :
  (forall e1, Sql.exec s e = Sql.Ok e1 -> Sql.exec s e1 = Sql.Ok e1) ->
  exec_or_same s (exec_or_same s e) = exec_or_same s e.
Proof.
  intros H. unfold exec_or_same at 2 3.
  destruct (Sql.exec s e) as [e1|x] eqn:E.
  - unfold exec_or_same. by rewrite (H e1).
  - unfold exec_or_same. by rewrite E.
Qed.

(** A guarded statement never throws; it leaves the engine of
    [exec_or_same] and touches nothing but the engine and the console. *)
Lemma guarded_run (s : Sql.stmt) (l : exn -> logline) (w : World) :
  eval_world (try_catch (Database.run s) (fun x => console_log (l x))) w = Return tt /\
  db (database (exec_world (try_catch (Database.run s) (fun x => console_log (l x))) w))
    = exec_or_same s <$> db (database w).
Proof.
  unfold eval_world, exec_world, try_catch, Database.run, exec_or_same.
  destruct (db (database w)) as [e|] eqn:E; simpl.
  - destruct (Sql.exec s e); simpl; [done|]. by rewrite E.
  - by rewrite E.
Qed.

Lemma guarded_run_twice (s : Sql.stmt) (l : exn -> logline) (w : World) :
  let c := try_catch (Database.run s) (fun x => console_log (l x)) in
  db (database (exec_world (c >> c) w))
    = (fun e => exec_or_same s (exec_or_same s e)) <$> db (database w).
Proof.
  simpl. unfold exec_world at 1, bind.
  destruct (guarded_run s l w) as [Hr Hd].
  unfold eval_world, exec_world in Hr, Hd.
  destruct (try_catch _ _ w) as [w1 r] eqn:E1. simpl in *. subst r.
  destruct (guarded_run s l w1) as [_ Hd1]. unfold exec_world in Hd1.
  rewrite Hd1, Hd. by destruct (db (database w)).
Qed.

(** C6 (as stated, fails).  On a table without a primary key the second
    INSERT OR REPLACE adds the row again. *)
Lemma insert_twice_without_key_differs :
  let op := Scenario.remote_op "B_1_900" 1 "log" "INSERT" (Scenario.entry 5) in
  let w := Scenario.empty_log_world in
  cell_values "v" "log" (exec_world (Database.applyOp op) w) = Some [Num 5] /\
  cell_values "v" "log" (exec_world (Database.applyOp op >> Database.applyOp op) w)
    = Some [Num 5; Num 5] /\
  db (database (exec_world (Database.applyOp op >> Database.applyOp op) w))
    <> db (database (exec_world (Database.applyOp op) w)).
Proof.
  simpl. split; [vm_compute; reflexivity|]. split; [vm_compute; reflexivity|].
  intros H.
  set (op := Scenario.remote_op "B_1_900" 1 "log" "INSERT" (Scenario.entry 5)) in *.
  assert (cell_values "v" "log"
            (exec_world (Database.applyOp op >> Database.applyOp op)
               Scenario.empty_log_world)
          = cell_values "v" "log"
              (exec_world (Database.applyOp op) Scenario.empty_log_world)) as Hc.
  { unfold cell_values, table_rows. by rewrite H. }
  vm_compute in Hc. discriminate Hc.
Qed.

(** C6 (amended).  Applying an UPDATE or a DELETE twice in succession
    leaves the engine as after the first apply, on every engine state; so
    does applying an INSERT twice when the target table has a primary key to
    which the payload gives a non-null value (or the INSERT fails for want
    of the table). *)
Theorem applyOp_twice_same_engine (op : Operation) (w : World) :
  (op_type op = "INSERT" -> keyed_insert op w = true) ->
  db (database (exec_world (Database.applyOp op >> Database.applyOp op) w))
  = db (database (exec_world (Database.applyOp op) w)).
Proof.
  intros Hkey. unfold Database.applyOp.
  destruct (decide (op_type op = "INSERT")) as [Hi|_];
    [|destruct (decide (op_type op = "UPDATE")) as [Hu|_];
      [|destruct (decide (op_type op = "DELETE")) as [Hd|_]]].
  - unfold Database.applyInsert.
    rewrite (guarded_run_twice _ WarnFailedInsert w).
    rewrite (proj2 (guarded_run _ WarnFailedInsert w)).
    specialize (Hkey Hi). unfold keyed_insert in Hkey.
    destruct (db (database w)) as [e|]; [|done]. simpl. f_equal.
    apply exec_or_same_again. simpl. intros e1 He1.
    destruct (Sql.tables e !! op_table op) as [T|] eqn:HT.
    + destruct (Sql.t_pk T) as [k|] eqn:Hpk; [|done].
      destruct (base.delete "_where" (fields (op_data op)) !! k) as [[v|]|] eqn:Hk;
        [|done..].
      apply (exec_insert_replace_again _ _ e e1 T k v); try done.
      by destruct v.
    + unfold Sql.exec_insert in He1. by rewrite HT in He1.
  - unfold Database.applyUpdate.
    rewrite (guarded_run_twice _ WarnFailedUpdate w).
    rewrite (proj2 (guarded_run _ WarnFailedUpdate w)).
    destruct (db (database w)) as [e|]; [|done]. simpl. f_equal.
    apply exec_or_same_again. simpl. intros e1. apply exec_update_again.
  - unfold Database.applyDelete.
    rewrite (guarded_run_twice _ WarnFailedDelete w).
    rewrite (proj2 (guarded_run _ WarnFailedDelete w)).
    destruct (db (database w)) as [e|]; [|done]. simpl. f_equal.
    apply exec_or_same_again. simpl. intros e1. apply exec_delete_again.
  - reflexivity.
Qed.

Lemma applyOp_twice_same_engine_witness :
  let op := Scenario.remote_op "B_1_900" 1 "t" "INSERT" (Scenario.row "x" 9) in
  let w := Scenario.online_world in
  (op_type op = "INSERT" -> keyed_insert op w = true) /\
  table_rows "t" (exec_world (Database.applyOp op) w)
    = Some [<["id" := Str "x"]> (<["v" := Num 9]> ∅)] /\
  db (database (exec_world (Database.applyOp op >> Database.applyOp op) w))
  = db (database (exec_world (Database.applyOp op) w)).
Proof.
  simpl. split; [intros _; vm_compute; reflexivity|].
  split; [vm_compute; reflexivity|].
  apply (applyOp_twice_same_engine
           (Scenario.remote_op "B_1_900" 1 "t" "INSERT" (Scenario.row "x" 9))
           Scenario.online_world).
  intros _. vm_compute. reflexivity.
Defined.

(** ** Weakest preconditions *)

Lemma wp_bind {A B} (c : M A) (k : A -> M B) (Q : World -> outcome B -> Prop) (w : World) :
  wp c (fun w1 r => match r with
                    | Return a => wp (k a) Q w1
                    | Throw x => Q w1 (Throw x)
                    end) w ->
  wp (bind c k) Q w.
Proof. unfold wp, bind. by destruct (c w) as [w1 [a|x]]. Qed.

Lemma wp_try_catch {A} (body : M A) (handler : exn -> M A)
    (Q : World -> outcome A -> Prop) (w : World) :
  wp body (fun w1 r => match r with
                       | Return a => Q w1 (Return a)
                       | Throw x => wp (handler x) Q w1
                       end) w ->
  wp (try_catch body handler) Q w.
Proof. unfold wp, try_catch. by destruct (body w) as [w1 [a|x]]. Qed.

Lemma wp_mono {A} (c : M A) (Q Q' : World -> outcome A -> Prop) (w : World) :
  wp c Q w -> (forall w1 r, Q w1 r -> Q' w1 r) -> wp c Q' w.
Proof. unfold wp. intros H HQ. by apply HQ. Qed.

Lemma wp_ret {A} (a : A) (Q : World -> outcome A -> Prop) (w : World) :
  Q w (Return a) -> wp (ret a) Q w.
Proof. done. Qed.

Lemma wp_when (b : bool) (c : M unit) (Q : World -> outcome unit -> Prop) (w : World) :
  (if b then wp c Q w else Q w (Return tt)) -> wp (when b c) Q w.
Proof. by destruct b. Qed.

(** A computation that returns, with the worlds related by [R]. *)
Definition returns (R : relation World) (c : M unit) : Prop :=
  forall w, wp c (fun w1 r => r = Return tt /\ R w w1) w.

Lemma returns_for_each (R : relation World) `{!PreOrder R} {A}
    (l : list A) (body : A -> M unit) :
  (forall x, returns R (body x)) -> returns R (for_each l body).
Proof.
  intros Hb. induction l as [|x l IH]; intros w; simpl.
  - by apply wp_ret.
  - apply wp_bind. eapply wp_mono; [apply Hb|].
    intros w1 r [-> H1]. eapply wp_mono; [apply IH|].
    intros w2 r [-> H2]. split; [done|]. by etrans.
Qed.

(** ** Steps that change rows and console only *)

#[global] Instance engine_step_preorder : PreOrder engine_step.
Proof.
  split.
  - intros [? ? ? ? ? [d ? ? ? ? ? ? ? ?] ? ?]. unfold engine_step. simpl.
    split; [done|]. unfold same_savepoints, same_schemas. by destruct d.
  - intros [? ? ? ? ? [d1 ? ? ? ? ? ? ? ?] ? ?] [? ? ? ? ? [d2 ? ? ? ? ? ? ? ?] ? ?]
           [? ? ? ? ? [d3 ? ? ? ? ? ? ? ?] ? ?].
    unfold engine_step, same_savepoints, same_schemas. simpl.
    intros (E12 & S12 & C12) (E23 & S23 & C23).
    unfold set_console, set_database, set_db in *. simpl in *.
    inversion E12; inversion E23; subst. split; [done|].
    destruct d1, d2, d3; try done. split; congruence.
Qed.

Lemma engine_step_fields (w w' : World) :
  engine_step w w' ->
  localStorage w' = localStorage w /\ wire w' = wire w /\ fired w' = fired w /\
  sync w' = sync w /\ localSeqCounter (database w') = localSeqCounter (database w) /\
  confirmedSeq (database w') = confirmedSeq (database w) /\
  savepointSeq (database w') = savepointSeq (database w) /\
  pendingOps (database w') = pendingOps (database w) /\
  confirmedOps (database w') = confirmedOps (database w) /\
  dbName (database w') = dbName (database w).
Proof.
  intros (E & _ & _). destruct w as [? ? ? ? ? [] ? ?], w' as [? ? ? ? ? [] ? ?].
  unfold set_console, set_database, set_db in E. simpl in *.
  inversion E; subst. by repeat split.
Qed.

Section EngineFrame.
Import Sql.

Lemma schemas_set_table (tbl : string) (T T' : table) (e : engine) :
  tables e !! tbl = Some T ->
  t_columns T' = t_columns T -> t_pk T' = t_pk T ->
  schemas (tables (set_table tbl T' e)) = schemas (tables e).
Proof.
  intros HT Hc Hk. unfold schemas, set_table. simpl.
  rewrite fmap_insert, Hc, Hk. apply insert_id. by rewrite lookup_fmap, HT.
Qed.

(** A row statement keeps savepoints and declarations. *)
Lemma exec_row_stmt (s : stmt) (e e' : engine) :
  match s with
  | InsertInto _ _ _ | Update _ _ _ | DeleteFrom _ _ => True
  | _ => False
  end ->
  exec s e = Ok e' ->
  savepoints e' = savepoints e /\ schemas (tables e') = schemas (tables e).
Proof.
  destruct s as [| o tbl vals | tbl sets wheres | tbl wheres | | |]; try done;
    intros _; simpl.
  - unfold exec_insert. destruct (tables e !! tbl) as [T|] eqn:HT; [|done].
    repeat (case_match; try done); intros [= <-];
      (split; [done | by apply (schemas_set_table tbl T)]).
  - unfold exec_update. destruct (tables e !! tbl) as [T|] eqn:HT; [|done].
    repeat (case_match; try done); intros [= <-];
      (split; [done | by apply (schemas_set_table tbl T)]).
  - unfold exec_delete. destruct (tables e !! tbl) as [T|] eqn:HT; [|done].
    repeat (case_match; try done); intros [= <-];
      (split; [done | by apply (schemas_set_table tbl T)]).
Qed.
End EngineFrame.

Lemma engine_step_console (w : World) (c : list logline) :
  engine_step w (set_console c w).
Proof.
  destruct w as [? ? ? ? ? [d ? ? ? ? ? ? ? ?] ? ?]. unfold engine_step. simpl.
  split; [done|]. unfold same_savepoints, same_schemas. by destruct d.
Qed.

Lemma guarded_row_stmt (s : Sql.stmt) (l : exn -> logline) :
  match s with
  | Sql.InsertInto _ _ _ | Sql.Update _ _ _ | Sql.DeleteFrom _ _ => True
  | _ => False
  end ->
  returns engine_step (try_catch (Database.run s) (fun x => console_log (l x))).
Proof.
  intros Hs w. unfold wp, try_catch, Database.run.
  destruct (db (database w)) as [e|] eqn:E; simpl.
  - destruct (Sql.exec s e) as [e'|x] eqn:Hx; simpl.
    + split; [done|]. destruct (exec_row_stmt s e e' Hs Hx) as [Hsp Hsc].
      destruct w as [? ? ? ? ? [] ? ?]. unfold engine_step. simpl in *.
      subst. by repeat split.
    + split; [done|]. apply engine_step_console.
  - split; [done|]. apply engine_step_console.
Qed.

Lemma applyOp_returns (op : Operation) : returns engine_step (Database.applyOp op).
Proof.
  unfold Database.applyOp, Database.applyInsert, Database.applyUpdate,
    Database.applyDelete.
  repeat case_decide; try by apply guarded_row_stmt.
  intros w. apply wp_ret. split; [done|reflexivity].
Qed.

Lemma replay_returns (l : list PendingOperation) :
  returns engine_step
    (for_each l (fun pending => Database.applyOp (Database.as_operation pending 0))).
Proof. apply returns_for_each; [apply _|]. intros p. apply applyOp_returns. Qed.

(** ** The checkpoint number through a delivery *)

Lemma wp_modify (f : World -> World) (Q : World -> outcome unit -> Prop) (w : World) :
  Q (f w) (Return tt) -> wp (modify f) Q w.
Proof. done. Qed.

Lemma wp_this (Q : World -> outcome Database -> Prop) (w : World) :
  Q w (Return (database w)) -> wp this Q w.
Proof. done. Qed.

Lemma wp_run (s : Sql.stmt) (Q : World -> outcome unit -> Prop) (w : World) :
  match db (database w) with
  | None => Q w (Throw TypeError)
  | Some e =>
      match Sql.exec s e with
      | Sql.Err x => Q w (Throw (SqlError x))
      | Sql.Ok e' => Q (set_database (set_db (Some e') (database w)) w) (Return tt)
      end
  end -> wp (Database.run s) Q w.
Proof.
  unfold wp, Database.run. destruct (db (database w)) as [e|]; [|done].
  by destruct (Sql.exec s e).
Qed.

Lemma wp_persist (Q : World -> outcome unit -> Prop) (w : World) :
  match db (database w) with
  | None => Q w (Return tt)
  | Some e =>
      Q (set_localStorage
           (<[Database.blob_key (dbName (database w)) := Sql.export_text e]>
              (localStorage w))
           (set_database (set_db (Some (Sql.reopened e)) (database w)) w))
        (Return tt)
  end -> wp Database.persist Q w.
Proof. unfold wp, Database.persist. by destruct (db (database w)). Qed.

Lemma keeps_savepointSeq_tail (op : Operation) :
  stable (keeps (fun w => savepointSeq (database w)))
    (Database.run (Sql.InsertInto true "_modusql_ops" (Database.ops_row op)) >> Database.persist).
Proof.
  apply stable_bind; [apply _| |].
  - by apply keeps_run.
  - intros _ w. unfold keeps, exec_world, Database.persist. by destruct (db (database w)).
Qed.


Lemma stable_wp {B} (f : World -> B) {A} (c : M A) (w : World) (Q : B -> Prop) :
  stable (keeps f) c -> Q (f w) -> wp c (fun w1 _ => Q (f w1)) w.
Proof.
  intros Hc HQ. unfold wp. specialize (Hc w). unfold keeps, exec_world in Hc.
  by rewrite Hc.
Qed.

Lemma released_refl (w : World) : released w w.
Proof.
  exists (db (database w)). split.
  - by destruct w as [? ? ? ? ? [] ? ?].
  - by destruct (db (database w)).
Qed.

Lemma unwind_suffix (n : Z) (sps : list (Z * gmap string Sql.table)) snap rest :
  Sql.unwind n sps = Some (snap, rest) -> rest `suffix_of` sps.
Proof.
  induction sps as [|[m s] sps IH]; simpl; [done|].
  destruct (decide (m = n)).
  - intros [= <- <-]. done.
  - intros H. apply suffix_cons_r. by apply IH.
Qed.

Lemma release_step (b : bool) (n : Z) (w : World) :
  wp (when b (try_catch (Database.run (Sql.ReleaseSavepoint n)) (fun _ => ret tt)))
     (fun w1 r => r = Return tt /\ released w w1) w.
Proof.
  apply wp_when. destruct b; [|split; [done | apply released_refl]].
  apply wp_try_catch, wp_run.
  destruct (db (database w)) as [e|] eqn:He.
  - simpl. destruct (n <? 0); [split; [done | apply released_refl]|].
    destruct (Sql.unwind n (Sql.savepoints e)) as [[snap [|sp rest]]|] eqn:Hu;
      try (split; [done | apply released_refl]).
    split; [done|]. eexists. split; [done|]. rewrite He. simpl. split; [done|].
    apply unwind_suffix in Hu. by eapply suffix_cons_l.
  - split; [done | apply released_refl].
Qed.

Lemma createSavepoint_savepointSeq (w : World) :
  is_Some (db (database w)) ->
  wp Database.createSavepoint
    (fun w1 _ => savepointSeq (database w1) = confirmedSeq (database w)) w.
Proof.
  intros [e He]. unfold Database.createSavepoint.
  apply wp_bind, wp_this. rewrite He.
  apply wp_bind.
  eapply wp_mono; [apply release_step|].
  intros w1 r [-> (o & -> & _)].
  apply wp_bind, wp_modify. apply wp_bind, wp_this. simpl.
  apply (stable_wp (fun w => savepointSeq (database w)) _ _
           (fun s => s = confirmedSeq (database w))); [|by simpl].
  by apply keeps_run.
Qed.

Lemma has_checkpoint_engine_step (w w1 : World) :
  engine_step w w1 -> has_checkpoint w1 = has_checkpoint w.
Proof.
  intros H. destruct (engine_step_fields _ _ H) as (_ & _ & _ & _ & _ & _ & Hsp & _).
  destruct H as (_ & Hs & _). unfold has_checkpoint. rewrite Hsp.
  unfold same_savepoints in Hs.
  destruct (db (database w)), (db (database w1)); try done. by rewrite Hs.
Qed.

Lemma rollbackAndReplay_savepointSeq (newOp : Operation) (w : World) :
  wp (Database.rollbackAndReplay newOp)
     (fun w1 r => r = Return tt /\
        savepointSeq (database w1)
        = if has_checkpoint w then confirmedSeq (database w)
          else savepointSeq (database w)) w.
Proof.
  unfold Database.rollbackAndReplay. apply wp_bind, wp_this.
  unfold has_checkpoint.
  destruct (db (database w)) as [e|] eqn:He; [|by apply wp_ret].
  apply wp_bind, wp_modify. apply wp_try_catch, wp_bind, wp_run. simpl. rewrite He.
  simpl. destruct (savepointSeq (database w) <? 0); simpl; [done|].
  destruct (Sql.unwind _ _) as [[snap sps]|]; simpl; [|done].
  apply wp_bind. eapply wp_mono; [apply applyOp_returns|].
  intros w1 r [-> H1]. apply wp_bind, wp_bind, wp_this.
  eapply wp_mono; [apply replay_returns|].
  intros w2 r [-> H2].
  assert (engine_step (set_database
            (set_db (Some {| Sql.tables := snap; Sql.savepoints := sps |})
               (database (set_console (console w ++ [LogRollingBack (savepointSeq (database w))]) w)))
            (set_console (console w ++ [LogRollingBack (savepointSeq (database w))]) w)) w2)
    as H12 by (by etrans).
  destruct (engine_step_fields _ _ H12) as (_ & _ & _ & _ & _ & Hc & Hsp & _).
  simpl in Hc, Hsp.
  eapply wp_mono.
  { apply createSavepoint_savepointSeq. destruct H12 as (_ & Hs & _). simpl in Hs.
    unfold same_savepoints in Hs. by destruct (db (database w2)). }
  intros w3 r Hw3. simpl in Hw3. rewrite Hc in Hw3.
  destruct r as [[]|x]; [done|]. unfold wp. simpl. done.
Qed.

(** On a gap-ahead arrival, in whatever state, [savepointSeq] stays as it
    was unless rollback and replay runs (the pending queue is not empty and
    does not contain [op.id]) and the engine holds the savepoint labelled
    by [savepointSeq]. *)
Lemma gap_ahead_savepointSeq_cases (op : Operation) (w : World) :
  confirmedSeq (database w) + 1 < op_seq op ->
  savepointSeq (database (exec_world (Database.applyOperation op) w))
  = if (replay_triggered op w && has_checkpoint w)%bool then op_seq op
    else savepointSeq (database w).
Proof.
  intros Hgap.
  set (X := if (replay_triggered op w && has_checkpoint w)%bool then op_seq op
            else savepointSeq (database w)).
  change (wp (Database.applyOperation op) (fun w1 _ => savepointSeq (database w1) = X) w).
  unfold Database.applyOperation.
  apply wp_bind. unfold wp at 1, Database.require_db.
  destruct (db (database w)) as [e|] eqn:Hdb; simpl.
  2: { subst X. unfold has_checkpoint. rewrite Hdb. by rewrite andb_false_r. }
  apply wp_bind, wp_this.
  assert ((op_seq op =? confirmedSeq (database w) + 1) = false) as -> by lia.
  assert ((confirmedSeq (database w) + 1 <? op_seq op) = true) as -> by lia.
  apply wp_bind. apply wp_bind. apply wp_modify.
  apply wp_bind.
  set (w0 := set_console _ w).
  assert (engine_step w w0) as Hw0 by apply engine_step_console.
  eapply wp_mono with (Q := fun w1 r => r = Return tt /\ engine_step w w1).
  { apply wp_when. destruct (negb _).
    - eapply wp_mono; [apply applyOp_returns|]. intros w1 r [-> H1]. split; [done|].
      by etrans.
    - done. }
  clearbody w0. clear Hw0.
  intros w1 r [-> H1].
  apply wp_bind, wp_modify. apply wp_bind, wp_modify. apply wp_ret. simpl.
  apply wp_bind, wp_this. simpl.
  destruct (engine_step_fields _ _ H1) as (_ & _ & _ & _ & _ & _ & Hsp & Hp & _).
  rewrite Hp. fold (replay_triggered op w).
  set (w2 := set_database _ _).
  assert (has_checkpoint w2 = has_checkpoint w) as Hcp.
  { rewrite <- (has_checkpoint_engine_step w w1 H1). unfold has_checkpoint, w2.
    by destruct w1 as [? ? ? ? ? [] ? ?]. }
  assert (savepointSeq (database w2) = savepointSeq (database w)) as Hsp2.
  { rewrite <- Hsp. by destruct w1 as [? ? ? ? ? [] ? ?]. }
  assert (confirmedSeq (database w2) = op_seq op) as Hc2.
  { by destruct w1 as [? ? ? ? ? [] ? ?]. }
  clearbody w2.
  apply wp_bind, wp_when. subst X.
  destruct (replay_triggered op w); simpl.
  - eapply wp_mono; [apply rollbackAndReplay_savepointSeq|].
    intros w3 r [-> H3]. rewrite Hcp, Hc2, Hsp2 in H3. rewrite <- H3.
    apply (stable_wp (fun w => savepointSeq (database w)) _ _
             (fun s => s = savepointSeq (database w3))); [|done].
    apply keeps_savepointSeq_tail.
  - rewrite <- Hsp2.
    apply (stable_wp (fun w => savepointSeq (database w)) _ _
             (fun s => s = savepointSeq (database w2))); [|done].
    apply keeps_savepointSeq_tail.
Qed.


(** ** C8: a failed apply does not reach the caller *)

Lemma ready_engine_step (w w1 : World) : ready w -> engine_step w w1 -> ready w1.
Proof.
  intros Hr H. destruct (engine_step_fields _ _ H) as (_ & _ & _ & _ & _ & Hc & _).
  destruct H as (_ & Hs & Hsc). unfold ready, same_savepoints, same_schemas in *.
  destruct (db (database w)) as [e|]; [|done].
  destruct (db (database w1)) as [e1|]; [|done].
  destruct Hr as (Ho & Hf & Hge). unfold ops_schema_ok in *.
  rewrite Hsc, Hc. split; [done|]. split; [|done]. by rewrite Hs.
Qed.

Lemma ready_released (w w1 : World) : ready w -> released w w1 -> ready w1.
Proof.
  intros Hr (o & -> & Ho). unfold ready in *. simpl.
  destruct (db (database w)) as [e|]; [|done].
  destruct o as [e1|]; [|done]. destruct Ho as [Ht Hs].
  destruct Hr as (Hok & Hf & Hge). unfold ops_schema_ok in *. rewrite Ht.
  split; [done|]. split; [|by destruct (database w)].
  destruct Hs as [k Hk]. rewrite Hk in Hf. by apply Forall_app in Hf as [_ Hf].
Qed.

Lemma createSavepoint_ready (w : World) :
  ready w -> wp Database.createSavepoint (fun w1 r => r = Return tt /\ ready w1) w.
Proof.
  intros Hr. unfold Database.createSavepoint. apply wp_bind, wp_this.
  assert (is_Some (db (database w))) as [e He].
  { unfold ready in Hr. by destruct (db (database w)). }
  rewrite He. apply wp_bind. eapply wp_mono; [apply release_step|].
  intros w1 r [-> Hrel]. pose proof (ready_released _ _ Hr Hrel) as Hr1.
  apply wp_bind, wp_modify. apply wp_bind, wp_this. apply wp_run. simpl.
  unfold ready in Hr1. destruct (db (database w1)) as [e1|] eqn:He1; [|done].
  destruct Hr1 as (Hok & Hf & Hge).
  assert ((confirmedSeq (database w1) <? 0) = false) as -> by lia.
  split; [done|]. unfold ready. simpl. destruct (database w1); simpl in *.
  repeat split; try done. by constructor.
Qed.

Lemma unwind_Forall (n : Z) (sps : list (Z * gmap string Sql.table)) snap rest
    (P : Z * gmap string Sql.table -> Prop) :
  Sql.unwind n sps = Some (snap, rest) -> Forall P sps ->
  Forall P rest /\ exists m, P (m, snap).
Proof.
  induction sps as [|[m s] sps IH]; simpl; [done|].
  destruct (decide (m = n)).
  - intros [= <- <-] Hf. split; [done|]. exists m. by inversion Hf.
  - intros H Hf. apply IH; [done|]. by inversion Hf.
Qed.

Lemma rollbackAndReplay_ready (newOp : Operation) (w : World) :
  ready w ->
  wp (Database.rollbackAndReplay newOp) (fun w1 r => r = Return tt /\ ready w1) w.
Proof.
  intros Hr. unfold Database.rollbackAndReplay. apply wp_bind, wp_this.
  pose proof Hr as Hr'. unfold ready in Hr'.
  destruct (db (database w)) as [e|] eqn:He; [|done].
  destruct Hr' as (Hok & Hf & Hge).
  apply wp_bind, wp_modify. apply wp_try_catch, wp_bind, wp_run. simpl. rewrite He.
  assert (forall x, wp (console_log (ErrorRollbackFailed x))
            (fun w1 r => r = Return tt /\ ready w1)
            (set_console (console w ++ [LogRollingBack (savepointSeq (database w))]) w))
    as Hfail.
  { intros x. unfold wp. simpl. split; [done|]. unfold ready. simpl. by rewrite He. }
  simpl. destruct (savepointSeq (database w) <? 0); simpl; [apply Hfail|].
  destruct (Sql.unwind _ _) as [[snap sps]|] eqn:Hu; simpl; [|apply Hfail].
  destruct (unwind_Forall _ _ _ _ _ Hu Hf) as [Hf' [m Hsnap]].
  set (w0 := set_database _ _).
  assert (ready w0) as Hr0.
  { unfold ready, w0. simpl. by destruct (database w). }
  clearbody w0.
  apply wp_bind. eapply wp_mono; [apply applyOp_returns|].
  intros w1 r [-> H1]. apply wp_bind, wp_bind, wp_this.
  eapply wp_mono; [apply replay_returns|].
  intros w2 r [-> H2].
  eapply wp_mono.
  { apply createSavepoint_ready. eapply ready_engine_step; [|exact H2].
    eapply ready_engine_step; [exact Hr0 | exact H1]. }
  by intros w3 r [-> H3].
Qed.

Ltac compute_true t :=
  let H := fresh in
  assert (t = true) as H by (vm_compute; reflexivity); rewrite H; clear H.

Lemma ops_row_insert_ok (op : Operation) (e : Sql.engine) :
  ops_schema_ok (Sql.tables e) ->
  exists e', Sql.exec (Sql.InsertInto true "_modusql_ops" (Database.ops_row op)) e = Sql.Ok e'.
Proof.
  unfold ops_schema_ok, schemas. rewrite lookup_fmap.
  destruct (Sql.tables e !! "_modusql_ops") as [T|] eqn:HT; [|done].
  simpl. intros [= Hc Hk]. unfold Sql.exec_insert. rewrite HT.
  unfold Database.ops_row.
  generalize (op_id op) (op_seq op) (op_table op) (op_type op)
    (JSON_stringify (op_data op)) (op_clientId op). intros i s t ty d c.
  destruct (decide _) as [Hempty|_].
  { apply (f_equal (fun m => m !! "id")) in Hempty.
    by rewrite lookup_insert_eq in Hempty. }
  unfold Sql.known_cols, Sql.col_names. rewrite Hc.
  match goal with
  | |- context [bool_decide ?P] => compute_true (bool_decide P)
  end.
  match goal with
  | |- context [Sql.bindable ?m] => compute_true (Sql.bindable m)
  end.
  cbn [negb].
  match goal with
  | |- context [Sql.build_row ?o ?b ?cs] =>
      destruct (Sql.build_row o b cs) as [r|] eqn:Hr; [|by vm_compute in Hr]
  end.
  by eexists.
Qed.

Lemma committed_ops_schema_ok (e : Sql.engine) :
  ops_schema_ok (Sql.tables e) ->
  Forall (fun sp => ops_schema_ok sp.2) (Sql.savepoints e) ->
  ops_schema_ok (Sql.committed e).
Proof.
  intros Ht Hs. unfold Sql.committed.
  destruct (Sql.outermost (Sql.savepoints e)) as [snap|] eqn:Ho; [|done].
  destruct (outermost_elem _ _ Ho) as [n Hn]. simpl.
  rewrite Forall_forall in Hs. apply list_elem_of_In in Hn. exact (Hs _ Hn).
Qed.

Lemma ops_record_ready (op : Operation) (w : World) :
  ready w ->
  wp (Database.run (Sql.InsertInto true "_modusql_ops" (Database.ops_row op)) >>
      Database.persist)
     (fun w1 r => r = Return tt /\ ready w1 /\ blob_ok w1 /\ settled w1) w.
Proof.
  intros Hr. apply wp_bind, wp_run. pose proof Hr as Hr'. unfold ready in Hr'.
  destruct (db (database w)) as [e|] eqn:He; [|done].
  destruct Hr' as (Hok & Hf & Hge).
  destruct (ops_row_insert_ok op e Hok) as [e' He'].
  change (Sql.exec_insert true "_modusql_ops" (Database.ops_row op) e)
    with (Sql.exec (Sql.InsertInto true "_modusql_ops" (Database.ops_row op)) e).
  rewrite He'.
  destruct (exec_row_stmt (Sql.InsertInto true "_modusql_ops" (Database.ops_row op)) e e' I He')
    as [Hsp Hsc].
  apply wp_persist. simpl. split; [done|].
  assert (ops_schema_ok (Sql.committed e')) as Hok'.
  { apply committed_ops_schema_ok; [|by rewrite Hsp].
    unfold ops_schema_ok in *. by rewrite Hsc. }
  split; [|split].
  - unfold ready. simpl. by destruct (database w).
  - unfold blob_ok. simpl.
    replace (dbName (set_db (Some (Sql.reopened e')) (set_db (Some e') (database w))))
      with (dbName (database w)) by (by destruct (database w)).
    rewrite lookup_insert_eq. eexists. split; [apply import_export | exact Hok'].
  - unfold settled. simpl. done.
Qed.

Lemma failed_apply_logged (op : Operation) (w : World) (s : Sql.stmt)
    (e : Sql.engine) (x : Sql.sqlerror) :
  apply_stmt op = Some s -> db (database w) = Some e -> Sql.exec s e = Sql.Err x ->
  Database.applyOp op w
  = (set_console (console w ++ [apply_warning op (SqlError x)]) w, Return tt).
Proof.
  unfold apply_stmt, apply_warning, Database.applyOp, Database.applyInsert,
    Database.applyUpdate, Database.applyDelete.
  intros Hs He Hx.
  repeat case_decide; simplify_eq;
    unfold try_catch, Database.run; by rewrite He, Hx.
Qed.

(** A delivery to a ready database returns and leaves it ready; the
    persisted blob stays loadable, and no savepoint is left behind. *)
Lemma applyOperation_ready (op : Operation) (w : World) :
  ready w ->
  wp (Database.applyOperation op)
     (fun w1 r => r = Return tt /\ ready w1 /\ (blob_ok w -> blob_ok w1) /\
                  (settled w -> settled w1)) w.
Proof.
  intros Hr. unfold Database.applyOperation.
  apply wp_bind. unfold wp at 1, Database.require_db.
  pose proof Hr as Hr'. unfold ready in Hr'.
  destruct (db (database w)) as [e|] eqn:Hdb; [|done]. simpl.
  destruct Hr' as (Hok & Hf & Hge).
  apply wp_bind, wp_this.
  set (isPending := bool_decide (is_Some _)).
  assert (forall w2, ready w2 ->
    wp (let! d := this in
        when (negb (bool_decide (pendingOps d = [])) && negb isPending)
          (Database.rollbackAndReplay op) >>
        Database.run (Sql.InsertInto true "_modusql_ops" (Database.ops_row op)) >>
        Database.persist)
       (fun w1 r => r = Return tt /\ ready w1 /\ (blob_ok w -> blob_ok w1) /\
                    (settled w -> settled w1)) w2) as Htail.
  { intros w2 Hr2. apply wp_bind, wp_this. apply wp_bind, wp_when.
    destruct (_ && _)%bool.
    - eapply wp_mono; [by apply rollbackAndReplay_ready|].
      intros w3 r [-> Hr3]. eapply wp_mono; [by apply ops_record_ready|].
      by intros w4 r (-> & ? & ? & ?).
    - eapply wp_mono; [by apply ops_record_ready|].
      by intros w4 r (-> & ? & ? & ?). }
  assert (forall w1 n, 0 <= n -> ready w1 ->
    ready (set_database
             (set_confirmedOps
                (confirmedOps (database (set_database (set_confirmedSeq n (database w1)) w1))
                 ++ [op])
                (database (set_database (set_confirmedSeq n (database w1)) w1)))
             (set_database (set_confirmedSeq n (database w1)) w1))) as Hadv.
  { intros w1 n Hn. unfold ready. simpl. destruct (db (database w1)); [|done].
    intros (? & ? & _). done. }
  apply wp_bind.
  destruct (op_seq op =? confirmedSeq (database w) + 1) eqn:Hin.
  - apply wp_bind.
    eapply wp_mono with (Q := fun w1 r => r = Return tt /\ ready w1).
    { destruct (Database.findIndex _ _) as [i|].
      - apply wp_modify. split; [done|]. unfold ready. simpl. by rewrite Hdb.
      - eapply wp_mono; [apply applyOp_returns|]. intros w1 r [-> H1].
        split; [done|]. by eapply ready_engine_step. }
    intros w1 r [-> Hr1].
    apply wp_bind, wp_modify. apply wp_bind, wp_modify. apply wp_bind.
    eapply wp_mono.
    { apply createSavepoint_ready. apply Hadv; [lia | done]. }
    intros w2 r [-> Hr2]. apply wp_ret. simpl. by apply Htail.
  - destruct (confirmedSeq (database w) + 1 <? op_seq op) eqn:Hgap.
    + apply wp_bind, wp_modify. apply wp_bind.
      eapply wp_mono with (Q := fun w1 r => r = Return tt /\ ready w1).
      { apply wp_when. destruct (negb isPending).
        - eapply wp_mono; [apply applyOp_returns|]. intros w1 r [-> H1].
          split; [done|]. eapply ready_engine_step; [|exact H1].
          unfold ready. simpl. by rewrite Hdb.
        - split; [done|]. unfold ready. simpl. by rewrite Hdb. }
      intros w1 r [-> Hr1].
      apply wp_bind, wp_modify. apply wp_bind, wp_modify. apply wp_ret. simpl.
      apply Htail, Hadv; [lia | done].
    + destruct (op_seq op <=? confirmedSeq (database w)) eqn:Hdup.
      * apply wp_ret. simpl. apply wp_ret. split; [done|]. split; [|done].
        unfold ready. by rewrite Hdb.
      * apply wp_ret. simpl. apply Htail. unfold ready. by rewrite Hdb.
Qed.

(** C8.  [applyOp] always returns normally; when the SQL statement of the
    operation fails, the engine is left as it was and one warning is
    logged.  On a database that is open with its operation table in place,
    [applyOperation] returns normally too, and leaves the database in such
    a state again, so that no sequence of deliveries throws. *)
Theorem reconciler_never_throws (op : Operation) (w : World) :
  ready w ->
  eval_world (Database.applyOp op) w = Return tt /\
  (forall s e x, apply_stmt op = Some s -> db (database w) = Some e ->
     Sql.exec s e = Sql.Err x ->
     Database.applyOp op w
     = (set_console (console w ++ [apply_warning op (SqlError x)]) w, Return tt)) /\
  eval_world (Database.applyOperation op) w = Return tt /\
  ready (exec_world (Database.applyOperation op) w).
Proof.
  intros Hr. split; [|split].
  - destruct (applyOp_returns op w) as [H _]. exact H.
  - intros s e x. apply failed_apply_logged.
  - destruct (applyOperation_ready op w Hr) as (H1 & H2 & _). by split.
Qed.

Lemma reconciler_never_throws_witness :
  let op := Scenario.remote_op "B_2_950" 2 "nowhere" "INSERT" (Scenario.entry 9) in
  ready Scenario.log_world /\
  eval_world (Database.applyOperation op) Scenario.log_world = Return tt /\
  console (exec_world (Database.applyOp op) Scenario.log_world)
    = [WarnFailedInsert (SqlError Sql.NoSuchTable)].
Proof.
  simpl.
  assert (ready Scenario.log_world) as Hr.
  { vm_compute. split; [reflexivity|]. split; [|discriminate].
    repeat constructor. }
  split; [exact Hr|].
  destruct (reconciler_never_throws
              (Scenario.remote_op "B_2_950" 2 "nowhere" "INSERT" (Scenario.entry 9))
              Scenario.log_world Hr) as (_ & _ & H & _).
  split; [exact H | vm_compute; reflexivity].
Defined.

(** ** C7: the local sequence counter *)

(** *** Decimal numerals *)

Lemma uint_string_digits (d : Decimal.uint) : all_digits (NilEmpty.string_of_uint d).
Proof.
  induction d; simpl; try done; (split; [unfold digit_char; vm_compute; split; (lia || (intros H; discriminate H)) | done]).
Qed.

Lemma digits_prefix_uint (d : Decimal.uint) :
  digits_prefix (NilEmpty.string_of_uint d) = d.
Proof. induction d; simpl; by try rewrite IHd. Qed.

Lemma dec_nonneg (n : Z) :
  0 <= n -> dec n = NilEmpty.string_of_uint (N.to_uint (Z.to_N n)) /\
            N.to_uint (Z.to_N n) <> Decimal.Nil.
Proof.
  intros Hn. unfold dec, Z.to_int.
  destruct n as [|p|p]; [| |lia]; simpl.
  - split; [reflexivity | discriminate].
  - unfold NilZero.string_of_uint.
    assert (Pos.to_uint p <> Decimal.Nil) as Hnz.
    { intros H. apply (f_equal Pos.of_uint) in H. rewrite DecimalPos.Unsigned.of_to in H.
      discriminate H. }
    split; [|exact Hnz]. by destruct (Pos.to_uint p).
Qed.

Lemma parseInt_dec (n : Z) : 0 <= n -> parseInt (dec n) = Int n.
Proof.
  intros Hn. destruct (dec_nonneg n Hn) as [-> Hnz].
  assert (N.of_uint (N.to_uint (Z.to_N n)) = Z.to_N n) as Hof
    by apply DecimalN.Unsigned.of_to.
  remember (N.to_uint (Z.to_N n)) as d eqn:Hd. clear Hd.
  assert (parse_digits (NilEmpty.string_of_uint d) = Some n) as Hp.
  { unfold parse_digits. rewrite digits_prefix_uint.
    destruct d; [done|..]; by rewrite Hof, Z2N.id. }
  unfold parseInt.
  pose proof (uint_string_digits d) as Hdig.
  destruct (NilEmpty.string_of_uint d) as [|c s] eqn:Hs.
  - by destruct d.
  - destruct Hdig as [Hc _]. unfold digit_char in Hc.
    assert (is_space c = false) as Hsp.
    { unfold is_space.
      destruct (Nat.eqb_spec (nat_of_ascii c) 32) as [E|_]; [lia|].
      destruct (Nat.leb_spec 9 (nat_of_ascii c)) as [_|E]; [|lia].
      destruct (Nat.leb_spec (nat_of_ascii c) 13) as [E|_]; [lia|done]. }
    simpl. rewrite Hsp.
    assert (c <> "-"%char /\ c <> "+"%char) as [Hm Hpl].
    { split; intros ->; vm_compute in Hc; lia. }
    destruct c as [[] [] [] [] [] [] [] []]; try done; by rewrite Hp.
Qed.

(** ** Operation ids of one client *)

Lemma digits_no_underscore (s : string) (r r' : string) (s' : string) :
  all_digits s -> all_digits s' ->
  s +:+ String "_"%char r = s' +:+ String "_"%char r' -> s = s'.
Proof.
  revert s'. induction s as [|c s IH]; intros [|c' s'] Hs Hs' H; simpl in *.
  - done.
  - injection H as <- _. destruct Hs' as [Hc _]. vm_compute in Hc. lia.
  - injection H as -> _. destruct Hs as [Hc _]. vm_compute in Hc. lia.
  - injection H as <- H. f_equal. destruct Hs, Hs'. by eapply IH.
Qed.

Lemma dec_inj (n m : Z) : 0 <= n -> 0 <= m -> dec n = dec m -> n = m.
Proof.
  intros Hn Hm H. apply (f_equal parseInt) in H.
  rewrite !parseInt_dec in H by done. by injection H.
Qed.

Lemma string_app_inv_head (p s s' : string) : p +:+ s = p +:+ s' -> s = s'.
Proof. induction p as [|c p IH]; simpl; [done|]. intros [= H]. by apply IH. Qed.

Lemma operation_id_inj (client : string) (l l' now now' : Z) :
  0 <= l -> 0 <= l' ->
  Database.operation_id client (Int l) now = Database.operation_id client (Int l') now' ->
  l = l'.
Proof.
  intros Hl Hl'. unfold Database.operation_id. simpl. intros H.
  apply string_app_inv_head in H. simpl in H. injection H as H.
  destruct (dec_nonneg l Hl) as [El _], (dec_nonneg l' Hl') as [El' _].
  apply dec_inj; [done..|].
  eapply digits_no_underscore; [| |exact H].
  - rewrite El. apply uint_string_digits.
  - rewrite El'. apply uint_string_digits.
Qed.

(** *** Statements on other tables *)

Section CounterEngine.
Import Sql.

Lemma exec_other_table (s : stmt) (tbl k : string) (e e' : engine) :
  stmt_table s = Some tbl -> exec s e = Ok e' -> k <> tbl ->
  tables e' !! k = tables e !! k.
Proof.
  intros Hs He Hk.
  assert (e' = e \/ exists T, e' = set_table tbl T e) as [->|[T ->]].
  { destruct s; simpl in *; simplify_eq.
    - unfold exec_create in He. repeat case_match; simplify_eq; eauto.
    - unfold exec_insert in He. repeat case_match; simplify_eq; eauto.
    - unfold exec_update in He. repeat case_match; simplify_eq; eauto.
    - unfold exec_delete in He. repeat case_match; simplify_eq; eauto. }
  - done.
  - simpl. by rewrite lookup_insert_ne.
Qed.

Lemma core_tables_frame (client : string) (n : Z) (t t' : gmap string table) :
  t' !! "_modusql_meta" = t !! "_modusql_meta" ->
  t' !! "_modusql_ops" = t !! "_modusql_ops" ->
  core_tables client n t -> core_tables client n t'.
Proof. unfold core_tables. by intros -> ->. Qed.

Lemma existsb_false_Forall {A} (f : A -> bool) (l : list A) :
  Forall (fun x => f x = false) l -> existsb f l = false.
Proof. induction 1 as [|x l Hx _ IH]; simpl; [done|]. by rewrite Hx, IH. Qed.

(** The INSERT of the pending row of operation [n + 1]. *)
Lemma pending_insert_ok (client : string) (n : Z) (op : PendingOperation)
    (rows : list (gmap string scalar)) (e : engine) :
  0 <= n ->
  tables e !! "_modusql_ops"
    = Some {| t_columns := Database.ops_columns; t_pk := Some "id"; t_rows := rows |} ->
  Forall (own_op_row client n) rows ->
  (exists now, p_id op = Database.operation_id client (Int (n + 1)) now) ->
  exists r,
    exec (InsertInto false "_modusql_ops" (Database.pending_row op)) e
    = Ok (set_table "_modusql_ops"
            {| t_columns := Database.ops_columns; t_pk := Some "id";
               t_rows := rows ++ [r] |} e) /\
    own_op_row client (n + 1) r.
Proof.
  intros Hn HT Hrows [now Hid]. simpl. unfold exec_insert. rewrite HT.
  unfold Database.pending_row.
  generalize (Database.number_scalar (p_localSeq op)) (p_table op) (p_type op)
    (JSON_stringify (p_data op)) (p_clientId op). intros ls t ty d c.
  remember (p_id op) as i eqn:Hi.
  destruct (decide _) as [Hempty|_].
  { apply (f_equal (fun m => m !! "id")) in Hempty.
    by rewrite lookup_insert_eq in Hempty. }
  unfold known_cols, col_names. cbn [t_columns].
  match goal with
  | |- context [bool_decide ?P] => compute_true (bool_decide P)
  end.
  match goal with
  | |- context [bindable ?m] => compute_true (bindable m)
  end.
  cbn [negb].
  match goal with
  | |- context [build_row ?o ?b ?cs] =>
      destruct (build_row o b cs) as [r|] eqn:Hr; [|by vm_compute in Hr]
  end.
  assert (r !! "id" = Some (Str i)) as Hrid.
  { vm_compute in Hr. injection Hr as <-. vm_compute. reflexivity. }
  exists r. cbn [t_rows].
  assert (existsb (conflicts {| t_columns := Database.ops_columns; t_pk := Some "id";
                                t_rows := rows |} r) rows = false) as ->.
  { apply existsb_false_Forall. eapply List.Forall_impl; [|exact Hrows].
    intros r' (l & now' & Hl & Hr'). unfold conflicts, pk_value. simpl.
    rewrite Hrid, Hr'. simpl. apply bool_decide_eq_false. intros [= E].
    rewrite Hid in E. apply operation_id_inj in E; lia. }
  split; [done|]. exists (n + 1), now. split; [lia|]. by rewrite Hrid, Hid.
Qed.

(** The INSERT OR REPLACE of the counter row. *)
Lemma meta_insert_ok (n m : Z) (e : engine) :
  m <> 0 ->
  tables e !! "_modusql_meta" = Some (meta_table n) ->
  exec (InsertInto true "_modusql_meta" (Database.meta_row (Int m))) e
  = Ok (set_table "_modusql_meta" (meta_table m) e).
Proof.
  intros Hm HT. simpl. unfold exec_insert. rewrite HT.
  unfold Database.meta_row, meta_table, stored_meta_row. simpl number_toString.
  generalize (dec m) (dec n). intros vm vn.
  destruct (decide _) as [Hempty|_].
  { apply (f_equal (fun m => m !! "key")) in Hempty.
    by rewrite lookup_insert_eq in Hempty. }
  unfold known_cols, col_names. cbn [t_columns].
  match goal with
  | |- context [bool_decide ?P] => compute_true (bool_decide P)
  end.
  match goal with
  | |- context [bindable ?m] => compute_true (bindable m)
  end.
  cbn [negb].
  match goal with
  | |- context [build_row ?o ?b ?cs] =>
      assert (build_row o b cs = Some (<["key" := Str "local_seq"]> (<["value" := Str vm]> ∅)))
        as -> by (vm_compute; reflexivity)
  end.
  f_equal. f_equal. unfold with_rows. cbn [t_columns t_pk t_rows].
  destruct (decide (m = 0)); [done|]. f_equal.
  destruct (decide (n = 0)); [done|].
  simpl. 
  match goal with
  | |- context [conflicts ?T ?r ?r'] => compute_true (conflicts T r r')
  end.
  done.
Qed.
End CounterEngine.

(** *** The calls keep the invariant *)

Lemma own_op_row_mono (client : string) (n m : Z) (r : gmap string scalar) :
  n <= m -> own_op_row client n r -> own_op_row client m r.
Proof. intros Hnm (l & now & Hl & Hr). exists l, now. split; [lia|done]. Qed.

Lemma core_tables_after_create (client : string) (n : Z) (e : Sql.engine)
    (rows : list (gmap string scalar)) (r : gmap string scalar) :
  0 <= n ->
  Sql.tables e !! "_modusql_meta" = Some (meta_table n) ->
  Forall (own_op_row client n) rows -> own_op_row client (n + 1) r ->
  core_tables client (n + 1)
    (Sql.tables
       (Sql.set_table "_modusql_meta" (meta_table (n + 1))
          (Sql.set_table "_modusql_ops"
             {| Sql.t_columns := Database.ops_columns; Sql.t_pk := Some "id";
                Sql.t_rows := rows ++ [r] |} e))).
Proof.
  intros Hn Hmeta Hrows Hr. split; simpl.
  - by rewrite lookup_insert_eq.
  - exists (rows ++ [r]). rewrite lookup_insert_ne by done. rewrite lookup_insert_eq.
    split; [done|]. apply Forall_app. split; [|by constructor].
    eapply List.Forall_impl; [|exact Hrows]. intros r'. apply own_op_row_mono. lia.
Qed.

Lemma counter_inv_persisted (name client : string) (n : Z) (w : World) (e : Sql.engine) :
  0 <= n -> sqljs w = true -> dbName (database w) = name ->
  clientId (database w) = client -> localSeqCounter (database w) = Int n ->
  db (database w) = Some e -> core_tables client n (Sql.tables e) ->
  Sql.savepoints e = [] ->
  localStorage w !! Database.blob_key name = Some (Sql.export_text e) ->
  counter_inv name client n w.
Proof.
  intros Hn Hsql Hname Hclient Hctr He Hcore Hsp Hls. unfold counter_inv.
  rewrite He, Hls. do 5 (split; [done|]). split; [by split|].
  eexists. split; [apply import_export|]. by rewrite reopened_settled.
Qed.

Lemma createOperation_spec (name client : string) (n : Z)
    (table type : string) (data : object jsval) (now : Z) (w : World) :
  counter_inv name client n w -> is_Some (db (database w)) ->
  wp (Database.createOperation table type data now)
     (fun w1 r => exists op, r = Return op /\ p_localSeq op = Int (n + 1) /\
                  counter_inv name client (n + 1) w1 /\ is_Some (db (database w1))) w.
Proof.
  intros (Hn & Hsql & Hname & Hclient & Hctr & Hdb & Hls) [e He].
  rewrite He in Hdb. destruct Hdb as [[Hmeta (rows & Hops & Hrows)] Hsp].
  unfold Database.createOperation.
  apply wp_bind, wp_modify. apply wp_bind, wp_this. simpl.
  rewrite Hctr, Hclient. simpl incr.
  set (op := {| p_id := _ |}).
  destruct (pending_insert_ok client n op rows e Hn Hops Hrows) as (r & Hexec & Hr).
  { by exists now. }
  apply wp_bind, wp_modify. apply wp_bind, wp_run. simpl. rewrite He.
  simpl in Hexec. rewrite Hexec.
  apply wp_bind, wp_run. simpl.
  set (e1 := Sql.set_table "_modusql_ops" _ e).
  assert (Sql.tables e1 !! "_modusql_meta" = Some (meta_table n)) as Hmeta1.
  { unfold e1. simpl. by rewrite lookup_insert_ne. }
  pose proof (meta_insert_ok n (n + 1) e1 ltac:(lia) Hmeta1) as Hexec2.
  simpl in Hexec2. rewrite Hexec2.
  set (e2 := Sql.set_table "_modusql_meta" _ e1).
  assert (core_tables client (n + 1) (Sql.tables e2)) as Hcore.
  { by apply core_tables_after_create. }
  assert (Sql.savepoints e2 = []) as Hsp2 by done.
  clearbody e2. clear Hexec2 Hmeta1. clearbody e1.
  apply wp_bind, wp_persist. cbn [database set_database db set_db].
  rewrite (reopened_settled e2 Hsp2).
  apply wp_bind.
  set (w1 := set_localStorage _ _).
  assert (counter_inv name client (n + 1) w1 /\ db (database w1) = Some e2) as [Hinv Hdb1].
  { split; [|done]. apply (counter_inv_persisted _ _ _ _ e2); try done; try lia.
    unfold w1. simpl. rewrite Hname. by rewrite lookup_insert_eq. }
  clearbody w1.
  eapply wp_mono with (Q := fun w2 r => r = Return tt /\
      counter_inv name client (n + 1) w2 /\ db (database w2) = Some e2).
  { apply wp_when. destruct (onOperation _); [|done].
    unfold handleLocalOperation, wp, bind, get, when, connection_send, modify. simpl.
    destruct (can_send w1); simpl; done. }
  intros w2 r' (-> & Hinv2 & Hdb2). apply wp_ret. cbv beta.
  exists op. split; [done|]. split; [done|]. split; [done | by eexists].
Qed.

Lemma internal_table_false (tbl : string) :
  internal_table tbl = false -> tbl <> "_modusql_meta" /\ tbl <> "_modusql_ops".
Proof.
  unfold internal_table. intros H. apply bool_decide_eq_false in H. split; intros ->; tauto.
Qed.

Lemma persist_inv (name client : string) (n : Z) (w : World) :
  counter_inv name client n w ->
  wp Database.persist
     (fun w1 r => r = Return tt /\ counter_inv name client n w1 /\
                  db (database w1) = db (database w)) w.
Proof.
  intros Hinv. apply wp_persist.
  destruct (db (database w)) as [e|] eqn:He; [|done].
  destruct Hinv as (Hn & Hsql & Hname & Hclient & Hctr & Hdb & Hls).
  rewrite He in Hdb. destruct Hdb as [Hcore Hsp].
  rewrite (reopened_settled e Hsp).
  split; [done|]. split; [|by destruct (database w)].
  apply (counter_inv_persisted _ _ _ _ e); try done; try (by destruct (database w)).
  simpl. replace (dbName (set_db (Some e) (database w))) with (dbName (database w))
    by (by destruct (database w)).
  rewrite Hname. by rewrite lookup_insert_eq.
Qed.

(** The statements that write a table leave the savepoint stack alone. *)
Lemma exec_keeps_savepoints (s : Sql.stmt) (e e' : Sql.engine) :
  is_Some (stmt_table s) -> Sql.exec s e = Sql.Ok e' ->
  Sql.savepoints e' = Sql.savepoints e.
Proof.
  intros [t Ht] Hx.
  destruct s as [name cols pk|or_replace tbl vals|tbl sets wheres|tbl wheres| | |];
    simpl in Ht; try done.
  - simpl in Hx. unfold Sql.exec_create in Hx.
    repeat case_match; by simplify_eq.
  - by apply (exec_row_stmt (Sql.InsertInto or_replace tbl vals) e e' I Hx).
  - by apply (exec_row_stmt (Sql.Update tbl sets wheres) e e' I Hx).
  - by apply (exec_row_stmt (Sql.DeleteFrom tbl wheres) e e' I Hx).
Qed.

(** A statement on a user table keeps the invariant, whether it succeeds
    or fails. *)
Lemma user_stmt_inv (name client : string) (n : Z) (s : Sql.stmt) (tbl : string) (w : World) :
  stmt_table s = Some tbl -> internal_table tbl = false ->
  counter_inv name client n w -> is_Some (db (database w)) ->
  wp (Database.run s)
     (fun w1 r => counter_inv name client n w1 /\ is_Some (db (database w1))) w.
Proof.
  intros Hs Htbl Hinv [e He]. apply wp_run. rewrite He.
  destruct (Sql.exec s e) as [e'|x] eqn:Hx; [|split; [done | by eexists]].
  split; [|by eexists].
  destruct Hinv as (Hn & Hsql & Hname & Hclient & Hctr & Hdb & Hls).
  rewrite He in Hdb. destruct (internal_table_false tbl Htbl) as [Hm Ho].
  destruct Hdb as [Hcore Hsp].
  unfold counter_inv. simpl. destruct (database w); simpl in *.
  do 5 (split; [done|]). split; [|done]. split.
  - eapply core_tables_frame; [| |exact Hcore];
      by apply (exec_other_table s tbl _ e e').
  - rewrite (exec_keeps_savepoints s e e'); [done | by eexists | done].
Qed.

Lemma mutation_inv (name client : string) (n : Z) (s : Sql.stmt)
    (table type : string) (data : object jsval) (now : Z) (w : World) :
  stmt_table s = Some table -> internal_table table = false ->
  counter_inv name client n w ->
  wp (Database.require_db >>
      Database.run s >>
      let! op := Database.createOperation table type data now in
      Database.persist >> ret op)
     (mutation_post name client n) w.
Proof.
  intros Hs Htbl Hinv. apply wp_bind. unfold wp at 1, Database.require_db.
  destruct (db (database w)) as [e|] eqn:He; simpl; [|done].
  apply wp_bind. eapply wp_mono.
  { apply (user_stmt_inv name client n s table); try done; by eexists. }
  intros w1 [[]|x] [Hinv1 Hdb1]; [|done].
  apply wp_bind. eapply wp_mono; [by apply createOperation_spec|].
  intros w2 r (op & -> & Hseq & Hinv2 & Hdb2).
  apply wp_bind. eapply wp_mono; [by apply persist_inv|].
  intros w3 r (-> & Hinv3 & _). by apply wp_ret.
Qed.

Lemma exec_create_existing (name : string) (cols : list Sql.coldef)
    (pk : option string) (e : Sql.engine) (T : Sql.table) :
  Sql.tables e !! name = Some T ->
  Sql.exec (Sql.CreateTableIfNotExists name cols pk) e = Sql.Ok e.
Proof. intros H. simpl. unfold Sql.exec_create. by rewrite H. Qed.

Lemma select_counter (n : Z) (e : Sql.engine) :
  Sql.tables e !! "_modusql_meta" = Some (meta_table n) ->
  Sql.select_where "value" "_modusql_meta" "key" (Str "local_seq") e
  = Sql.Ok (if decide (n = 0) then [] else [Str (dec n)]).
Proof.
  intros H. unfold Sql.select_where. rewrite H.
  unfold meta_table, stored_meta_row. generalize (dec n). intros v.
  unfold Sql.col_names. cbn [Sql.t_columns Sql.t_rows].
  match goal with
  | |- context [negb ?b] => compute_true b
  end.
  cbn [negb]. destruct (decide (n = 0)); [done|]. simpl.
  match goal with
  | |- context [Sql.matches ?a ?b] => compute_true (Sql.matches a b)
  end.
  simpl. by rewrite lookup_insert_ne, lookup_insert_eq.
Qed.

Lemma import_text_savepoints (s : string) (e : Sql.engine) :
  Sql.import_text s = Some e -> Sql.savepoints e = [].
Proof. unfold Sql.import_text. repeat case_match; by intros [= <-]. Qed.

(** [init] on a database object whose counter is [n], or 0 as after the
    constructor, restores the counter from the blob. *)
Lemma init_inv (name client : string) (n : Z) (w : World) :
  0 <= n -> sqljs w = true ->
  dbName (database w) = name -> clientId (database w) = client ->
  (localSeqCounter (database w) = Int n \/ localSeqCounter (database w) = Int 0) ->
  match localStorage w !! Database.blob_key name with
  | Some saved =>
      exists e, Sql.import_text saved = Some e /\ core_tables client n (Sql.tables e)
  | None => n = 0
  end ->
  wp Database.init (fun w1 r => r = Return tt /\ counter_inv name client n w1) w.
Proof.
  intros Hn Hsql Hname Hclient Hctr Hls. unfold Database.init.
  apply wp_bind. unfold wp at 1, get. cbn [fst snd]. rewrite Hsql. cbn [negb].
  rewrite Hname.
  destruct (localStorage w !! Database.blob_key name) as [saved|] eqn:Hsaved.
  - destruct Hls as (e & Himp & Hmeta & rows & Hops & Hrows).
    destruct (decide (saved = EmptyString)) as [->|_]; [done|].
    rewrite Himp. apply wp_bind, wp_modify.
    apply wp_bind, wp_run. cbn [database set_database db set_db].
    rewrite (exec_create_existing _ _ _ e _ Hmeta).
    apply wp_bind, wp_run. cbn [database set_database db set_db].
    rewrite (exec_create_existing _ _ _ e _ Hops).
    apply wp_bind, wp_this. cbn [database set_database db set_db].
    rewrite (select_counter n e Hmeta).
    assert (core_tables client n (Sql.tables e)) as Hcore.
    { split; [done|]. by exists rows. }
    assert (Sql.savepoints e = []) as Hsp by (by apply (import_text_savepoints saved)).
    destruct (decide (n = 0)) as [->|Hn0].
    + apply wp_ret. split; [done|]. unfold counter_inv. simpl.
      rewrite Hname, Hsaved. destruct (database w); simpl in *.
      do 4 (split; [done|]). split; [by destruct Hctr|]. split; [done|].
      by exists e.
    + apply wp_modify. split; [done|]. unfold counter_inv. simpl.
      rewrite Hname, Hsaved. rewrite parseInt_dec by done.
      destruct (database w); simpl in *.
      do 5 (split; [done|]). split; [done|]. by exists e.
  - subst n. apply wp_bind, wp_modify.
    apply wp_bind, wp_run. cbn [database set_database db set_db].
    match goal with
    | |- context [Sql.exec ?s ?e0] =>
        let r := eval vm_compute in (Sql.exec s e0) in
        change (Sql.exec s e0) with r
    end.
    cbv beta iota.
    apply wp_bind, wp_run. cbn [database set_database db set_db].
    match goal with
    | |- context [Sql.exec ?s ?e0] =>
        let r := eval vm_compute in (Sql.exec s e0) in
        change (Sql.exec s e0) with r
    end.
    cbv beta iota.
    apply wp_bind, wp_this. cbn [database set_database db set_db].
    match goal with
    | |- context [Sql.select_where ?a ?b ?c ?d ?e0] =>
        let r := eval vm_compute in (Sql.select_where a b c d e0) in
        change (Sql.select_where a b c d e0) with r
    end.
    cbv beta iota. apply wp_ret. split; [done|].
    unfold counter_inv. simpl. rewrite Hname, Hsaved.
    destruct (database w); simpl in *.
    do 4 (split; [done|]). split; [by destruct Hctr|]. split; [|done].
    split; [|done].
    split; [vm_compute; reflexivity|]. exists []. split; [vm_compute; reflexivity|done].
Qed.

Lemma perform_mutation (name client : string) (n : Z)
    (c : M PendingOperation) (w : World) :
  wp c (mutation_post name client n) w ->
  wp (let! op := c in ret (Some op)) (action_post name client n) w.
Proof.
  intros H. apply wp_bind. eapply wp_mono; [exact H|].
  intros w1 [op|x] Hpost; [by apply wp_ret | exact Hpost].
Qed.

Lemma perform_inv (name client : string) (n : Z) (a : action) (w : World) :
  local_action a = true -> counter_inv name client n w ->
  wp (perform a) (action_post name client n) w.
Proof.
  intros Ha Hinv. pose proof Hinv as (Hn & Hsql & Hname & Hclient & Hctr & Hdb & Hls).
  destruct a as [|schema|table data now|table data where_ now|table where_ now|op| |];
    simpl in Ha; try apply negb_true_iff in Ha; try done; unfold perform.
  - apply wp_bind. eapply wp_mono; [apply (init_inv name client n); auto|].
    intros w1 r [-> H1]. by apply wp_ret.
  - apply wp_bind. unfold Database.createTable.
    apply wp_bind. unfold wp at 1, Database.require_db.
    destruct (db (database w)) as [e|] eqn:He; simpl; [|done].
    apply wp_bind. eapply wp_mono.
    { apply (user_stmt_inv name client n _ (ts_name schema)); try done; by eexists. }
    intros w1 [[]|x] [Hinv1 Hdb1]; [|done].
    eapply wp_mono; [by apply persist_inv|].
    intros w2 r (-> & Hinv2 & _). by apply wp_ret.
  - apply perform_mutation. unfold Database.insert.
    by apply (mutation_inv name client n (Sql.InsertInto false table (fields data))).
  - apply perform_mutation. unfold Database.update.
    by apply (mutation_inv name client n (Sql.Update table (fields data) (fields where_))).
  - apply perform_mutation. unfold Database.delete.
    by apply (mutation_inv name client n (Sql.DeleteFrom table (fields where_))).
  - apply wp_bind. unfold Database.close. apply wp_bind, wp_this.
    destruct (db (database w)) as [e|] eqn:He; [|by apply wp_ret, wp_ret].
    apply wp_bind. eapply wp_mono; [by apply persist_inv|].
    intros w1 r (-> & Hinv1 & _). apply wp_modify, wp_ret.
    destruct Hinv1 as (? & ? & ? & ? & ? & _ & ?).
    unfold action_post, counter_inv. simpl. by destruct (database w1).
  - apply wp_bind, wp_modify. apply wp_bind.
    eapply wp_mono; [apply (init_inv name client n); simpl; auto|].
    intros w1 r [-> H1]. by apply wp_ret.
Qed.

Lemma run_actions_inv (name client : string) (acts : list action) :
  forall n w,
    forallb local_action acts = true -> counter_inv name client n w ->
    p_localSeq <$> (run_actions acts w).2
      = (fun i => Int (n + Z.of_nat i)) <$> seq 1 (length (run_actions acts w).2) /\
    counter_inv name client (n + Z.of_nat (length (run_actions acts w).2))
      (run_actions acts w).1.
Proof.
  induction acts as [|a acts IH]; intros n w Hacts Hinv; simpl.
  - by rewrite Z.add_0_r.
  - simpl in Hacts. apply andb_true_iff in Hacts as [Ha Hacts].
    pose proof (perform_inv name client n a w Ha Hinv) as Hstep. unfold wp in Hstep.
    destruct (perform a w) as [w1 r]. simpl in Hstep.
    destruct r as [[op|]|x]; simpl in Hstep.
    + destruct Hstep as [Hseq Hinv1].
      destruct (IH (n + 1) w1 Hacts Hinv1) as [IHseq IHinv].
      destruct (run_actions acts w1) as [w2 ops]. simpl in *.
      split.
      * change (p_localSeq op :: (p_localSeq <$> ops)
                = Int (n + Z.of_nat 1)
                  :: ((fun i => Int (n + Z.of_nat i)) <$> seq 2 (length ops))).
        rewrite Hseq, IHseq. f_equal.
        rewrite <- (fmap_S_seq 1), <- list_fmap_compose. apply list_fmap_ext.
        intros _ i _. simpl. f_equal. lia.
      * replace (n + Z.of_nat (S (length ops)))
          with (n + 1 + Z.of_nat (length ops)) by lia. exact IHinv.
    + destruct (IH n w1 Hacts Hstep) as [IHseq IHinv].
      by destruct (run_actions acts w1) as [w2 ops].
    + destruct (IH n w1 Hacts Hstep) as [IHseq IHinv].
      by destruct (run_actions acts w1) as [w2 ops].
Qed.

Lemma first_visit_inv (name client : string) :
  counter_inv name client 0 (first_visit name client).
Proof. unfold counter_inv, first_visit. simpl. by rewrite lookup_empty. Qed.

Lemma persisted_counter (name client : string) (n : Z) (w : World) :
  counter_inv name client n w -> n <> 0 ->
  persisted_local_seq name w = Some [Str (dec n)].
Proof.
  intros (_ & _ & _ & _ & _ & _ & Hls) Hn. unfold persisted_local_seq.
  destruct (localStorage w !! Database.blob_key name) as [saved|]; [|done].
  destruct Hls as (e & -> & Hmeta & _).
  rewrite (select_counter n e Hmeta). by destruct (decide (n = 0)).
Qed.

Lemma reload_inv (name client : string) (n : Z) (w : World) :
  counter_inv name client n w ->
  counter_inv name client n (exec_world (perform Reload) w).
Proof.
  intros Hinv. pose proof Hinv as (Hn & Hsql & Hname & Hclient & Hctr & Hdb & Hls).
  change (wp (perform Reload) (fun w1 _ => counter_inv name client n w1) w).
  unfold perform. apply wp_bind, wp_modify. apply wp_bind.
  eapply wp_mono; [apply (init_inv name client n); simpl; auto|].
  intros w1 r [-> H1]. by apply wp_ret.
Qed.

(** C7.  Over any sequence of local calls on a database from its first
    visit on (init, createTable, insert, update, delete on user tables,
    close, page reload), the [localSeq] values of the operations created
    are exactly 1, 2, ..., k in order; the counter in memory is k, the
    persisted [_modusql_meta] row holds k as soon as one operation exists,
    and a reload restores the counter to k. *)
Theorem localSeq_strictly_increasing (name client : string) (acts : list action) :
  forallb local_action acts = true ->
  let w := (run_actions acts (first_visit name client)).1 in
  let ops := (run_actions acts (first_visit name client)).2 in
  p_localSeq <$> ops = (fun i => Int (Z.of_nat i)) <$> seq 1 (length ops) /\
  localSeqCounter (database w) = Int (Z.of_nat (length ops)) /\
  (ops <> [] ->
   persisted_local_seq name w = Some [Str (dec (Z.of_nat (length ops)))]) /\
  localSeqCounter (database (exec_world (perform Reload) w))
    = Int (Z.of_nat (length ops)).
Proof.
  intros Hacts. simpl.
  destruct (run_actions_inv name client acts 0 (first_visit name client) Hacts
              (first_visit_inv name client)) as [Hseq Hinv].
  rewrite Z.add_0_l in Hinv.
  split; [exact Hseq|]. split; [by destruct Hinv as (_ & _ & _ & _ & H & _)|].
  split.
  - intros Hne. apply (persisted_counter name client); [done|].
    destruct (run_actions acts (first_visit name client)).2; [done|]. simpl. lia.
  - by destruct (reload_inv name client _ _ Hinv) as (_ & _ & _ & _ & H & _).
Qed.

Lemma localSeq_strictly_increasing_witness :
  let acts := [Init; CreateTable Scenario.schema_t;
               Insert "t" (Scenario.row "a" 1) 1001; Close; Reload;
               Insert "t" (Scenario.row "a" 1) 2001;
               Insert "t" (Scenario.row "b" 2) 2002] in
  forallb local_action acts = true /\
  p_localSeq <$> (run_actions acts (first_visit "app" "client_1000_abc")).2
    = [Int 1; Int 2].
Proof.
  simpl. split; [vm_compute; reflexivity|].
  pose proof (localSeq_strictly_increasing "app" "client_1000_abc"
                [Init; CreateTable Scenario.schema_t;
                 Insert "t" (Scenario.row "a" 1) 1001; Close; Reload;
                 Insert "t" (Scenario.row "a" 1) 2001;
                 Insert "t" (Scenario.row "b" 2) 2002] eq_refl) as (H & _).
  vm_compute in H. vm_compute. exact H.
Defined.

(** ** C2, in general: the rollback target is the savepoint just taken *)

(** Right after [createSavepoint], rolling back to the savepoint labelled
    by [savepointSeq] gives back the engine as it is: in the in-order
    branch of [applyOperation], where [createSavepoint] runs before
    [rollbackAndReplay], the ROLLBACK undoes nothing. *)
Lemma rollback_after_createSavepoint_is_identity (w : World) :
  ready w ->
  wp Database.createSavepoint
     (fun w1 r => r = Return tt /\
        exists e1, db (database w1) = Some e1 /\
          Sql.exec (Sql.RollbackTo (savepointSeq (database w1))) e1 = Sql.Ok e1) w.
Proof.
  intros Hr. unfold Database.createSavepoint. apply wp_bind, wp_this.
  assert (is_Some (db (database w))) as [e He].
  { unfold ready in Hr. by destruct (db (database w)). }
  rewrite He. apply wp_bind. eapply wp_mono; [apply release_step|].
  intros w1 r [-> Hrel]. pose proof (ready_released _ _ Hr Hrel) as Hr1.
  apply wp_bind, wp_modify. apply wp_bind, wp_this. apply wp_run. simpl.
  unfold ready in Hr1. destruct (db (database w1)) as [e1|] eqn:He1; [|done].
  destruct Hr1 as (_ & _ & Hge).
  destruct (confirmedSeq (database w1) <? 0) eqn:Hneg; [lia|].
  split; [done|]. eexists. split; [reflexivity|].
  simpl. destruct (decide _); [done|congruence].
Qed.

(** ** Every reachable state with an open database is ready *)

#[global] Instance carries_preorder (P : World -> Prop) : PreOrder (carries P).
Proof. split; unfold carries; [by intros w | by intros w1 w2 w3 H12 H23 H; auto]. Qed.

Lemma sound_engine (w : World) (e e' : Sql.engine) :
  sound w -> db (database w) = Some e ->
  schemas (Sql.tables e') !! "_modusql_ops" = schemas (Sql.tables e) !! "_modusql_ops" ->
  Sql.savepoints e' = Sql.savepoints e ->
  sound (set_database (set_db (Some e') (database w)) w).
Proof.
  intros (Hc & Hdb & Hb) He Hs Hsp. rewrite He in Hdb. destruct Hdb as [Hok Hf].
  unfold sound, blob_ok, ops_schema_ok in *. simpl.
  rewrite Hs, Hsp. by destruct (database w).
Qed.

Lemma exec_create_ops_lookup (name : string) (cols : list Sql.coldef)
    (pk : option string) (e e' : Sql.engine) :
  Sql.exec (Sql.CreateTableIfNotExists name cols pk) e = Sql.Ok e' ->
  is_Some (Sql.tables e !! "_modusql_ops") ->
  Sql.tables e' !! "_modusql_ops" = Sql.tables e !! "_modusql_ops" /\
  Sql.savepoints e' = Sql.savepoints e.
Proof.
  simpl. unfold Sql.exec_create. intros H [T HT].
  destruct (Sql.tables e !! name) eqn:Hn; [by injection H as <-|].
  destruct (decide (cols = [])); [done|].
  destruct (negb _); [done|]. destruct (negb _); [done|].
  injection H as <-. simpl. split; [|done].
  apply lookup_insert_ne. intros ->. congruence.
Qed.

Lemma carries_run (s : Sql.stmt) :
  is_Some (stmt_table s) -> stable (carries sound) (Database.run s).
Proof.
  intros Hs w Hw. unfold exec_world, Database.run.
  destruct (db (database w)) as [e|] eqn:He; [|done].
  destruct (Sql.exec s e) as [e'|x] eqn:Hx; [|done]. simpl.
  pose proof Hw as (_ & Hdb & _). rewrite He in Hdb. destruct Hdb as [Hok _].
  destruct s as [name cols pk|or_replace tbl vals|tbl sets wheres|tbl wheres| | |];
    try (by destruct Hs as [? [=]]).
  - destruct (exec_create_ops_lookup _ _ _ e e' Hx) as [Hl Hsp].
    { unfold ops_schema_ok, schemas in Hok. rewrite lookup_fmap in Hok.
      by destruct (Sql.tables e !! "_modusql_ops"). }
    apply (sound_engine w e e'); try done. unfold schemas. by rewrite !lookup_fmap, Hl.
  - destruct (exec_row_stmt (Sql.InsertInto or_replace tbl vals) e e' I Hx) as [Hsp Hsc].
    apply (sound_engine w e e'); try done. by rewrite Hsc.
  - destruct (exec_row_stmt (Sql.Update tbl sets wheres) e e' I Hx) as [Hsp Hsc].
    apply (sound_engine w e e'); try done. by rewrite Hsc.
  - destruct (exec_row_stmt (Sql.DeleteFrom tbl wheres) e e' I Hx) as [Hsp Hsc].
    apply (sound_engine w e e'); try done. by rewrite Hsc.
Qed.

Lemma carries_update_this (g : Database -> Database) :
  (forall d, db (g d) = db d /\ confirmedSeq (g d) = confirmedSeq d /\
             dbName (g d) = dbName d) ->
  stable (carries sound) (update_this g).
Proof.
  intros Hg w (Hc & Hdb & Hb). destruct (Hg (database w)) as (E1 & E2 & E3).
  unfold exec_world, update_this, modify, sound, blob_ok in *. simpl.
  by rewrite E1, E2, E3.
Qed.

Lemma carries_persist : stable (carries sound) Database.persist.
Proof.
  intros w Hw. pose proof Hw as (Hc & Hdb & Hb). unfold exec_world, Database.persist.
  destruct (db (database w)) as [e|] eqn:He; [|done].
  destruct Hdb as [Hok Hsp]. rewrite (reopened_settled e Hsp).
  unfold sound, blob_ok. simpl.
  replace (dbName (set_db (Some e) (database w))) with (dbName (database w))
    by (by destruct (database w)).
  rewrite lookup_insert_eq.
  split; [by destruct (database w)|]. split; [done|].
  eexists. split; [apply import_export|]. by rewrite reopened_settled.
Qed.

Lemma carries_console_log (l : logline) : stable (carries sound) (console_log l).
Proof. by intros w Hw. Qed.

Lemma carries_handleLocalOperation (op : PendingOperation) :
  stable (carries sound) (handleLocalOperation op).
Proof.
  unfold handleLocalOperation. repeat (stable_step; try apply _). by intros w Hw.
Qed.

Lemma carries_applyOperation (op : Operation) :
  stable (carries sound) (Database.applyOperation op).
Proof.
  intros w Hw. pose proof Hw as (Hc & Hdb & Hb).
  destruct (db (database w)) as [e|] eqn:He.
  - destruct Hdb as [Hok Hsp].
    assert (ready w) as Hr. { unfold ready. rewrite He, Hsp. by repeat split. }
    assert (settled w) as Hset. { unfold settled. by rewrite He. }
    pose proof (applyOperation_ready op w Hr) as Hpost. unfold wp in Hpost.
    cbv beta in Hpost.
    destruct Hpost as (_ & Hr1 & Hb1 & Hs1). specialize (Hs1 Hset).
    unfold exec_world, sound. unfold ready in Hr1. unfold settled in Hs1.
    destruct (db (database (Database.applyOperation op w).1)) as [e1|]; [|done].
    destruct Hr1 as (? & ? & ?). split; [done|]. split; [done|]. by apply Hb1.
  - unfold exec_world, Database.applyOperation, bind, Database.require_db.
    by rewrite He.
Qed.

Ltac carries_leaf :=
  first
    [ apply carries_run; by eexists
    | apply carries_persist | apply carries_console_log
    | apply carries_handleLocalOperation | apply carries_applyOperation
    | apply carries_update_this; by intros [] ].

Lemma carries_createOperation (table type : string) (data : object jsval) (now : Z) :
  stable (carries sound) (Database.createOperation table type data now).
Proof.
  unfold Database.createOperation.
  repeat (first [carries_leaf | stable_step]; try apply _).
Qed.

Lemma exec_create_internal (name : string) (cols : list Sql.coldef) (pk : string)
    (e : Sql.engine) :
  cols <> [] -> NoDup (Sql.col_name <$> cols) -> pk ∈ (Sql.col_name <$> cols) ->
  exists e', Sql.exec (Sql.CreateTableIfNotExists name cols (Some pk)) e = Sql.Ok e' /\
    Sql.savepoints e' = Sql.savepoints e /\
    (forall k, k <> name -> Sql.tables e' !! k = Sql.tables e !! k) /\
    (Sql.tables e !! name = None ->
     Sql.tables e' !! name
     = Some {| Sql.t_columns := cols; Sql.t_pk := Some pk; Sql.t_rows := [] |}) /\
    (is_Some (Sql.tables e !! name) -> e' = e).
Proof.
  intros Hc Hnd Hpk. simpl. unfold Sql.exec_create.
  destruct (Sql.tables e !! name) as [T|] eqn:HT.
  - exists e. repeat split; try done; congruence.
  - destruct (decide (cols = [])); [done|].
    unfold Sql.col_names. cbn [Sql.t_columns].
    rewrite (bool_decide_eq_true_2 _ Hnd), (bool_decide_eq_true_2 _ Hpk). simpl.
    eexists. split; [done|]. split; [done|]. split; [|split].
    + intros k Hk. by apply lookup_insert_ne.
    + intros _. by apply lookup_insert_eq.
    + intros [? ?]. done.
Qed.

Lemma init_sound (w : World) :
  sound w -> wp Database.init (fun w1 _ => sound w1) w.
Proof.
  intros Hw. pose proof Hw as (Hc & Hdb & Hb). unfold Database.init.
  apply wp_bind. unfold wp at 1, get. cbn [fst snd].
  destruct (sqljs w); cbn [negb]; [|done].
  (* the engine that is loaded *)
  assert (forall e0,
    (Sql.tables e0 !! "_modusql_ops" = None \/ ops_schema_ok (Sql.tables e0)) ->
    Sql.savepoints e0 = [] ->
    wp (update_this (set_db (Some e0)) >>
        Database.run (Sql.CreateTableIfNotExists "_modusql_meta" Database.meta_columns
                        (Some "key")) >>
        Database.run (Sql.CreateTableIfNotExists "_modusql_ops" Database.ops_columns
                        (Some "id")) >>
        let! d := this in
        match db d with
        | None => throw TypeError
        | Some e =>
            match Sql.select_where "value" "_modusql_meta" "key" (Str "local_seq") e with
            | Sql.Err x => throw (SqlError x)
            | Sql.Ok (v :: _) =>
                update_this (set_localSeqCounter (parseInt (scalar_toString v)))
            | Sql.Ok [] => ret tt
            end
        end) (fun w1 _ => sound w1) w) as Hload.
  { intros e0 He0 Hsp0. apply wp_bind, wp_modify.
    apply wp_bind, wp_run. cbn [database set_database db set_db].
    destruct (exec_create_internal "_modusql_meta" Database.meta_columns "key" e0)
      as (e1 & -> & Hsp1 & Hother1 & _);
      [done | apply (bool_decide_unpack _); by vm_compute
      | apply (bool_decide_unpack _); by vm_compute |].
    apply wp_bind, wp_run. cbn [database set_database db set_db].
    destruct (exec_create_internal "_modusql_ops" Database.ops_columns "id" e1)
      as (e2 & -> & Hsp2 & Hother2 & Hnew & Hsame);
      [done | apply (bool_decide_unpack _); by vm_compute
      | apply (bool_decide_unpack _); by vm_compute |].
    assert (sound (set_database (set_db (Some e2)
              (database (set_database (set_db (Some e1)
                 (database (set_database (set_db (Some e0) (database w)) w)))
                 (set_database (set_db (Some e0) (database w)) w))))
              (set_database (set_db (Some e1)
                 (database (set_database (set_db (Some e0) (database w)) w)))
                 (set_database (set_db (Some e0) (database w)) w)))) as Hs2.
    { unfold sound, blob_ok in *. simpl. rewrite Hsp2, Hsp1, Hsp0.
      split; [exact Hc|]. split; [|exact Hb]. split; [|done].
      unfold ops_schema_ok, schemas in He0 |- *. rewrite lookup_fmap in He0 |- *.
      rewrite <- (Hother1 "_modusql_ops") in He0 by done.
      destruct He0 as [Hnone|Hok].
      - by rewrite (Hnew Hnone).
      - destruct (Sql.tables e1 !! "_modusql_ops") as [T|] eqn:HT; [|done].
        rewrite (Hsame ltac:(by eexists)). by rewrite HT. }
    set (w2 := set_database _ _) in *. clearbody w2.
    apply wp_bind, wp_this. destruct (db (database w2)); [|done].
    destruct (Sql.select_where _ _ _ _ _) as [[|v vs]|x]; done. }
  unfold blob_ok in Hb.
  destruct (localStorage w !! _) as [saved|].
  - destruct Hb as (e0 & Himp & Hok0).
    destruct (decide (saved = EmptyString)) as [->|_]; [done|].
    rewrite Himp. apply Hload; [by right|].
    unfold Sql.import_text in Himp. repeat case_match; by simplify_eq.
  - apply Hload; [by left | done].
Qed.

Lemma carries_init : stable (carries sound) Database.init.
Proof. intros w Hw. by apply init_sound. Qed.

Lemma perform_sound (a : action) : stable (carries sound) (perform a).
Proof.
  destruct a; unfold perform, Database.createTable, Database.insert, Database.update,
    Database.delete, Database.close;
    repeat (first [ apply carries_createOperation | apply carries_init
                  | carries_leaf | stable_step ]; try apply _).
  - intros w (Hc & _ & Hb). unfold exec_world, update_this, modify, sound, blob_ok in *.
    simpl. by destruct (database w).
  - intros w (Hc & _ & Hb). unfold exec_world, update_this, modify, sound, blob_ok in *.
    simpl. done.
Qed.

Lemma run_actions_sound (acts : list action) (w : World) :
  sound w -> sound (run_actions acts w).1.
Proof.
  revert w. induction acts as [|a acts IH]; intros w Hw; simpl; [done|].
  pose proof (perform_sound a w Hw) as H1. unfold exec_world in H1.
  destruct (perform a w) as [w1 r]. simpl in H1.
  specialize (IH w1 H1). by destruct (run_actions acts w1).
Qed.

Lemma first_visit_sound (name client : string) : sound (first_visit name client).
Proof. unfold sound, blob_ok, first_visit. simpl. by rewrite lookup_empty. Qed.

(** From a first visit, whatever calls were made, local or remote, on
    whatever tables: if the database is open, it is ready. *)
Lemma reachable_ready (name client : string) (acts : list action) :
  let w := (run_actions acts (first_visit name client)).1 in
  is_Some (db (database w)) -> ready w.
Proof.
  simpl. intros [e He].
  destruct (run_actions_sound acts _ (first_visit_sound name client)) as (Hc & Hdb & _).
  unfold ready. rewrite He in Hdb |- *. destruct Hdb as [Hok Hsp].
  rewrite Hsp. by repeat split.
Qed.

(** ** C3: the checkpoint on a gap-ahead arrival *)

(** Between calls no savepoint is held: a delivery that takes one ends by
    exporting the database, which reopens the connection. *)
Lemma reachable_settled (name client : string) (acts : list action) :
  settled (run_actions acts (first_visit name client)).1.
Proof.
  destruct (run_actions_sound acts _ (first_visit_sound name client)) as (_ & Hdb & _).
  unfold settled. destruct (db (database _)); [by destruct Hdb | done].
Qed.

Lemma settled_no_checkpoint (w : World) : settled w -> has_checkpoint w = false.
Proof.
  unfold settled, has_checkpoint. destruct (db (database w)) as [e|]; [|done].
  intros ->. simpl. by rewrite andb_false_r.
Qed.

(** C3.  When no savepoint is held, a gap-ahead arrival leaves
    [savepointSeq] as it was, whether the pending queue is empty or not (if
    the replay runs, its ROLLBACK finds no savepoint and nothing is
    re-established).  No savepoint is held in any state reached from a
    first visit by calls and deliveries, so there every gap-ahead arrival
    leaves [savepointSeq] as it was. *)
Theorem gap_ahead_keeps_savepointSeq (op : Operation) :
  (forall w : World,
     settled w -> confirmedSeq (database w) + 1 < op_seq op ->
     savepointSeq (database (exec_world (Database.applyOperation op) w))
     = savepointSeq (database w)) /\
  (forall (name client : string) (acts : list action),
     let w := (run_actions acts (first_visit name client)).1 in
     settled w /\
     (confirmedSeq (database w) + 1 < op_seq op ->
      savepointSeq (database (exec_world (Database.applyOperation op) w))
      = savepointSeq (database w))).
Proof.
  assert (forall w : World,
     settled w -> confirmedSeq (database w) + 1 < op_seq op ->
     savepointSeq (database (exec_world (Database.applyOperation op) w))
     = savepointSeq (database w)) as Hgen.
  { intros w Hs Hgap. rewrite (gap_ahead_savepointSeq_cases op w Hgap).
    by rewrite (settled_no_checkpoint w Hs), andb_false_r. }
  split; [exact Hgen|]. intros name client acts. cbv zeta.
  split; [apply reachable_settled|]. apply Hgen, reachable_settled.
Qed.

Lemma gap_ahead_keeps_savepointSeq_witness :
  let acts := [Init; CreateTable Scenario.schema_log;
               Deliver (Scenario.remote_op "B_1_900" 1 "log" "INSERT" (Scenario.entry 5));
               Insert "log" (Scenario.entry 1) 1001] in
  let w := (run_actions acts (first_visit "app" "client_1000_abc")).1 in
  confirmedSeq (database w) + 1 < op_seq Scenario.gap_9 /\
  replay_triggered Scenario.gap_9 w = true /\
  savepointSeq (database w) = 1 /\
  savepointSeq (database (exec_world (Database.applyOperation Scenario.gap_9) w))
  = savepointSeq (database w).
Proof.
  cbv zeta.
  set (acts := [Init; CreateTable Scenario.schema_log;
               Deliver (Scenario.remote_op "B_1_900" 1 "log" "INSERT" (Scenario.entry 5));
               Insert "log" (Scenario.entry 1) 1001]).
  assert (confirmedSeq (database (run_actions acts (first_visit "app" "client_1000_abc")).1)
          + 1 < op_seq Scenario.gap_9) as Hgap by (vm_compute; reflexivity).
  split; [exact Hgap|]. split; [vm_compute; reflexivity|].
  split; [vm_compute; reflexivity|].
  exact (proj2 (proj2 (gap_ahead_keeps_savepointSeq Scenario.gap_9)
                  "app" "client_1000_abc" acts) Hgap).
Defined.

(** ** C1: a reload restores the tables, not the pending queue *)

(** C1 (as stated, fails).  In scenario S1 with the reopen as a page
    reload, [pendingCount] after the reopen is 0, not 1. *)
Lemma s1_reload_pendingCount_is_not_1 :
  let w := exec_world Scenario.s1_reload fresh_world in
  ModuSQL.pendingCount w = 0%nat /\ ModuSQL.pendingCount w <> 1%nat.
Proof. vm_compute. split; [reflexivity | discriminate]. Qed.

(** C1 (amended).  Closing an open database whose file holds the two
    internal tables and reopening it with a new instance over the same
    localStorage restores exactly the tables the file held at [close] (the
    tables of the engine when no savepoint is held, as between calls; so
    the unconfirmed rows are still in [_modusql_ops]), with no savepoint,
    and leaves the pending queue of the new instance empty: [init] does not
    read [_modusql_ops].  In scenario S1 the reopened database answers
    [SELECT * FROM t] with the inserted row, [localSeqCounter] is 1,
    [pendingCount] is 0 and the operation is still stored as unconfirmed. *)
Theorem reload_restores_tables_not_queue :
  (forall (w : World) (e : Sql.engine),
     sqljs w = true -> db (database w) = Some e ->
     is_Some (Sql.committed e !! "_modusql_meta") ->
     is_Some (Sql.committed e !! "_modusql_ops") ->
     let w' := exec_world (Database.close >> perform Reload) w in
     db (database w')
       = Some {| Sql.tables := Sql.committed e; Sql.savepoints := [] |} /\
     (Sql.savepoints e = [] -> Sql.committed e = Sql.tables e) /\
     pendingOps (database w') = []) /\
  (let w := exec_world Scenario.s1_reload fresh_world in
   eval_world (ModuSQL.query "t") w
     = Return {| rows := [<["id" := Str "a"]> (<["v" := Num 1]> ∅)];
                 rowsAffected := 1 |} /\
   localSeqCounter (database w) = Int 1 /\
   ModuSQL.pendingCount w = 0%nat /\
   cell_values "id" "_modusql_ops" w = Some [Str "client_1000_abc_1_1001"] /\
   cell_values "confirmed" "_modusql_ops" w = Some [Num 0]).
Proof.
  split; [|vm_compute; repeat split; reflexivity].
  intros w e Hsql He [Tm Hm] [To Ho]. cbv zeta.
  change (wp (Database.close >> perform Reload)
            (fun w1 _ => db (database w1) = Some (Sql.reopened e) /\
                         (Sql.savepoints e = [] -> Sql.committed e = Sql.tables e) /\
                         pendingOps (database w1) = []) w).
  apply wp_bind. unfold Database.close. apply wp_bind, wp_this. rewrite He.
  apply wp_bind, wp_persist. rewrite He. apply wp_modify.
  unfold perform. apply wp_bind, wp_modify. apply wp_bind.
  unfold Database.init. apply wp_bind. unfold wp at 1, get. cbn [fst snd].
  simpl. rewrite Hsql. cbn [negb].
  replace (dbName (set_db (Some (Sql.reopened e)) (database w)))
    with (dbName (database w)) by (by destruct (database w)).
  rewrite lookup_insert_eq.
  destruct (decide _) as [Hempty|_].
  { by apply (import_text_nonempty _ _ (import_export e)) in Hempty. }
  rewrite import_export.
  apply wp_bind, wp_modify.
  apply wp_bind, wp_run. cbn [database set_database db set_db].
  rewrite (exec_create_existing _ _ _ (Sql.reopened e) _ Hm).
  apply wp_bind, wp_run. cbn [database set_database db set_db].
  rewrite (exec_create_existing _ _ _ (Sql.reopened e) _ Ho).
  apply wp_bind, wp_this. cbn [database set_database db set_db].
  pose proof (committed_settled e) as Hc.
  destruct (Sql.select_where _ _ _ _ _) as [[|v vs]|x]; done.
Qed.

Lemma reload_restores_tables_not_queue_witness :
  let w := Scenario.s1_before_close in
  let e := default Sql.empty_engine (db (database w)) in
  let w' := exec_world (Database.close >> perform Reload) w in
  sqljs w = true /\ db (database w) = Some e /\
  is_Some (Sql.committed e !! "_modusql_meta") /\
  is_Some (Sql.committed e !! "_modusql_ops") /\
  length (pendingOps (database w)) = 1%nat /\
  Sql.savepoints e = [] /\
  db (database w')
    = Some {| Sql.tables := Sql.committed e; Sql.savepoints := [] |} /\
  (Sql.savepoints e = [] -> Sql.committed e = Sql.tables e) /\
  pendingOps (database w') = [].
Proof.
  cbv zeta.
  assert (sqljs Scenario.s1_before_close = true) as Hsql by (vm_compute; reflexivity).
  assert (db (database Scenario.s1_before_close)
          = Some (default Sql.empty_engine (db (database Scenario.s1_before_close))))
    as He by (vm_compute; reflexivity).
  assert (is_Some (Sql.committed (default Sql.empty_engine
                                    (db (database Scenario.s1_before_close)))
                   !! "_modusql_meta")) as Hm by (vm_compute; eexists; reflexivity).
  assert (is_Some (Sql.committed (default Sql.empty_engine
                                    (db (database Scenario.s1_before_close)))
                   !! "_modusql_ops")) as Ho by (vm_compute; eexists; reflexivity).
  split; [exact Hsql|]. split; [exact He|]. split; [exact Hm|]. split; [exact Ho|].
  split; [vm_compute; reflexivity|]. split; [vm_compute; reflexivity|].
  exact (proj1 reload_restores_tables_not_queue Scenario.s1_before_close _ Hsql He Hm Ho).
Defined.

(** * Further properties of the code *)

(** ** Closing, persisting and failing calls *)

Lemma close_closes (w : World) : db (database (exec_world Database.close w)) = None.
Proof.
  unfold exec_world, Database.close, bind, this. simpl.
  destruct (db (database w)) as [e|] eqn:He; simpl; [|done].
  unfold Database.persist. simpl. by rewrite He.
Qed.

(** X1.  [close] stores the image of the database file and drops the
    handle.  From then on createTable, insert, update, delete, query and
    applyOperation throw "Database not initialized" and change nothing, and
    a second [close] does nothing. *)
Theorem closed_database_rejects_calls (w : World) :
  let w' := exec_world Database.close w in
  db (database w') = None /\
  (forall e, db (database w) = Some e ->
     localStorage w' !! Database.blob_key (dbName (database w)) = Some (Sql.export_text e)) /\
  (forall schema, Database.createTable schema w' = (w', Throw NotInitialized)) /\
  (forall table data now, Database.insert table data now w' = (w', Throw NotInitialized)) /\
  (forall table data where_ now,
     Database.update table data where_ now w' = (w', Throw NotInitialized)) /\
  (forall table where_ now, Database.delete table where_ now w' = (w', Throw NotInitialized)) /\
  (forall table, Database.query table w' = (w', Throw NotInitialized)) /\
  (forall op, Database.applyOperation op w' = (w', Throw NotInitialized)) /\
  Database.close w' = (w', Return tt).
Proof.
  simpl. pose proof (close_closes w) as Hc.
  split; [exact Hc|]. split.
  { intros e He. unfold exec_world, Database.close, bind, this, Database.persist.
    simpl. rewrite He. simpl. rewrite He. simpl. by rewrite lookup_insert_eq. }
  set (w' := exec_world Database.close w) in *. clearbody w'.
  repeat split; intros;
    unfold Database.createTable, Database.insert, Database.update, Database.delete,
      Database.query, Database.applyOperation, Database.close, bind, this,
      Database.require_db; by rewrite Hc.
Qed.

Lemma wp_run_returned (s : Sql.stmt) (Q : World -> outcome unit -> Prop) (w : World) :
  (forall e e', db (database w) = Some e -> Sql.exec s e = Sql.Ok e' ->
     Q (set_database (set_db (Some e') (database w)) w) (Return tt)) ->
  (forall x, Q w (Throw x)) ->
  wp (Database.run s) Q w.
Proof.
  intros Hok Hthrow. apply wp_run.
  destruct (db (database w)) as [e|] eqn:He; [|apply Hthrow].
  destruct (Sql.exec s e) as [e'|x] eqn:Hx; [exact (Hok e e' eq_refl Hx) | apply Hthrow].
Qed.

Lemma persist_saves (w : World) :
  is_Some (db (database w)) ->
  wp Database.persist (fun w1 r => r = Return tt /\ image_saved w1) w.
Proof.
  intros [e He]. apply wp_persist. rewrite He. split; [done|].
  unfold image_saved. simpl.
  replace (dbName (set_db (Some (Sql.reopened e)) (database w)))
    with (dbName (database w)) by (by destruct (database w)).
  rewrite lookup_insert_eq. simpl. apply import_export.
Qed.

Lemma createOperation_open (table type : string) (data : object jsval) (now : Z)
    (w : World) :
  wp (Database.createOperation table type data now)
     (returned (fun w1 => is_Some (db (database w1)))) w.
Proof.
  unfold Database.createOperation.
  apply wp_bind, wp_modify. apply wp_bind, wp_this. apply wp_bind, wp_modify.
  apply wp_bind; apply wp_run_returned; [intros ? ? _ _ | done].
  apply wp_bind; apply wp_run_returned; [intros ? ? _ _ | done].
  apply wp_bind, wp_persist. cbn [database set_database db set_db].
  apply wp_bind, wp_when.
  match goal with |- context [onOperation ?d] => destruct (onOperation d) end.
  - unfold handleLocalOperation, wp, bind, get, when, connection_send, modify, ret.
    simpl. match goal with |- context [can_send ?x] => destruct (can_send x) end;
      simpl; by eexists.
  - apply wp_ret. simpl. by eexists.
Qed.

Lemma mutation_saves (s : Sql.stmt) (table type : string) (data : object jsval)
    (now : Z) (w : World) :
  wp (Database.require_db >>
      Database.run s >>
      let! op := Database.createOperation table type data now in
      Database.persist >> ret op)
     (returned image_saved) w.
Proof.
  apply wp_bind. unfold wp at 1, Database.require_db.
  destruct (db (database w)); simpl; [|done].
  apply wp_bind; apply wp_run_returned; [intros ? ? _ _ | done].
  apply wp_bind. eapply wp_mono; [apply createOperation_open|].
  intros w1 [op|x] Hopen; [|done]. simpl in Hopen.
  apply wp_bind. eapply wp_mono; [by apply persist_saves|].
  intros w2 r [-> Hs]. by apply wp_ret.
Qed.

Lemma applyOperation_saves (op : Operation) (w : World) :
  confirmedSeq (database w) < op_seq op ->
  wp (Database.applyOperation op) (returned image_saved) w.
Proof.
  intros Hnew. unfold Database.applyOperation.
  apply wp_bind. unfold wp at 1, Database.require_db.
  destruct (db (database w)); simpl; [|done].
  apply wp_bind, wp_this. apply wp_bind.
  set (isPending := bool_decide _).
  assert (forall w2 : World,
    wp (let! d := this in
        when (negb (bool_decide (pendingOps d = [])) && negb isPending)
          (Database.rollbackAndReplay op) >>
        Database.run (Sql.InsertInto true "_modusql_ops" (Database.ops_row op)) >>
        Database.persist)
       (returned image_saved) w2) as Htail.
  { intros w2. apply wp_bind, wp_this. apply wp_bind.
    eapply wp_mono with (Q := fun _ _ => True); [done|].
    intros w3 [[]|x] _; [|done].
    apply wp_bind; apply wp_run_returned; [intros ? ? _ _ | done].
    eapply wp_mono; [apply persist_saves; by eexists|].
    by intros w4 r [-> Hs]. }
  eapply wp_mono with (Q := fun _ r => r <> Return false).
  2: { intros w2 [[]|x] Hr; [apply Htail | done | done]. }
  clear Htail.
  destruct (op_seq op =? confirmedSeq (database w) + 1) eqn:Hin.
  - unfold wp, bind. repeat (match goal with
      | |- context [match ?c ?w0 with _ => _ end] => destruct (c w0) as [? [[]|?]]
      end; simpl; try done).
  - destruct (confirmedSeq (database w) + 1 <? op_seq op) eqn:Hgap; [|].
    + unfold wp, bind. simpl. repeat (match goal with
      | |- context [match ?c ?w0 with _ => _ end] => destruct (c w0) as [? [[]|?]]
      end; simpl; try done).
    + assert ((op_seq op <=? confirmedSeq (database w)) = false) as -> by lia. done.
Qed.

(** X2.  A call that ends by persisting (createTable, insert, update,
    delete, a delivery that is not a duplicate) and returns leaves the
    database open with, under its blob key, an image that decodes to the
    engine as it then is: a reload would load the same tables. *)
Theorem successful_call_saves_image (a : action) (w : World)
    (r : option PendingOperation) :
  writes_through a w = true ->
  eval_world (perform a) w = Return r ->
  image_saved (exec_world (perform a) w).
Proof.
  intros Ha Hp.
  assert (wp (perform a) (returned image_saved) w) as H.
  { destruct a as [|schema|table data now|table data where_ now|table where_ now|op| |];
      try done; unfold perform.
    - apply wp_bind. unfold Database.createTable.
      apply wp_bind. unfold wp at 1, Database.require_db.
      destruct (db (database w)); simpl; [|done].
      apply wp_bind; apply wp_run_returned; [intros ? ? _ _ | done].
      eapply wp_mono; [apply persist_saves; by eexists|].
      intros w2 r2 [-> Hs]. by apply wp_ret.
    - apply wp_bind. eapply wp_mono; [apply mutation_saves|].
      intros w2 [op|x] Hs; [by apply wp_ret | done].
    - apply wp_bind. eapply wp_mono; [apply mutation_saves|].
      intros w2 [op|x] Hs; [by apply wp_ret | done].
    - apply wp_bind. eapply wp_mono; [apply mutation_saves|].
      intros w2 [op|x] Hs; [by apply wp_ret | done].
    - simpl in Ha. apply wp_bind. eapply wp_mono; [apply applyOperation_saves; lia|].
      intros w2 [[]|x] Hs; [by apply wp_ret | done]. }
  unfold wp in H. unfold eval_world in Hp. unfold exec_world. by rewrite Hp in H.
Qed.

Lemma successful_call_saves_image_witness :
  let a := Deliver Scenario.remote_9 in
  let w := Scenario.log_world in
  writes_through a w = true /\
  eval_world (perform a) w = Return None /\
  image_saved (exec_world (perform a) w).
Proof.
  cbv zeta.
  assert (eval_world (perform (Deliver Scenario.remote_9)) Scenario.log_world
          = Return None) as Hr by (vm_compute; reflexivity).
  split; [reflexivity|]. split; [exact Hr|].
  exact (successful_call_saves_image (Deliver Scenario.remote_9)
           Scenario.log_world _ eq_refl Hr).
Defined.

(** X3.  A local insert, update or delete whose SQL statement fails throws
    that error and leaves the world as it was: no operation is created,
    queued, sent or stored.  An insert of an empty payload and an update or
    delete with an empty where fail in this way on every open database. *)
Theorem failed_statement_leaves_no_trace (w : World) (e : Sql.engine) :
  db (database w) = Some e ->
  (forall table data now x,
     Sql.exec (Sql.InsertInto false table (fields data)) e = Sql.Err x ->
     Database.insert table data now w = (w, Throw (SqlError x))) /\
  (forall table data where_ now x,
     Sql.exec (Sql.Update table (fields data) (fields where_)) e = Sql.Err x ->
     Database.update table data where_ now w = (w, Throw (SqlError x))) /\
  (forall table where_ now x,
     Sql.exec (Sql.DeleteFrom table (fields where_)) e = Sql.Err x ->
     Database.delete table where_ now w = (w, Throw (SqlError x))) /\
  (forall table now, exists x,
     Database.insert table [] now w = (w, Throw (SqlError x))) /\
  (forall table data now, exists x,
     Database.update table data [] now w = (w, Throw (SqlError x))) /\
  (forall table now, exists x,
     Database.delete table [] now w = (w, Throw (SqlError x))).
Proof.
  intros He.
  assert (forall s (k : M PendingOperation) x, Sql.exec s e = Sql.Err x ->
            (Database.require_db >> Database.run s >> k) w = (w, Throw (SqlError x)))
    as Hfail.
  { intros s k x Hx. unfold bind, Database.require_db, Database.run.
    rewrite He. simpl. by rewrite He, Hx. }
  assert (forall s, (forall T, Sql.tables e !! default EmptyString (stmt_table s) = Some T ->
                       Sql.exec s e = Sql.Err Sql.SyntaxError) ->
                    stmt_table s <> None ->
                    match s with Sql.CreateTableIfNotExists _ _ _ => False | _ => True end ->
                    exists x, Sql.exec s e = Sql.Err x) as Hempty.
  { intros s Hs Hn Hk.
    destruct (Sql.tables e !! default EmptyString (stmt_table s)) as [T|] eqn:HT.
    - eexists. by apply (Hs T).
    - exists Sql.NoSuchTable. destruct s; simpl in *; try done.
      + unfold Sql.exec_insert. by rewrite HT.
      + unfold Sql.exec_update. by rewrite HT.
      + unfold Sql.exec_delete. by rewrite HT. }
  split; [intros; by apply Hfail|]. split; [intros; by apply Hfail|].
  split; [intros; by apply Hfail|].
  split; [|split].
  - intros table now.
    destruct (Hempty (Sql.InsertInto false table ∅)) as [x Hx]; try done.
    { simpl. intros T HT. unfold Sql.exec_insert. by rewrite HT. }
    exists x. by apply Hfail.
  - intros table data now.
    destruct (Hempty (Sql.Update table (fields data) ∅)) as [x Hx]; try done.
    { simpl. intros T HT. unfold Sql.exec_update. rewrite HT.
      by destruct (decide (fields data = ∅)). }
    exists x. by apply Hfail.
  - intros table now.
    destruct (Hempty (Sql.DeleteFrom table ∅)) as [x Hx]; try done.
    { simpl. intros T HT. unfold Sql.exec_delete. by rewrite HT. }
    exists x. by apply Hfail.
Qed.

Lemma failed_statement_leaves_no_trace_witness :
  let w := Scenario.log_world in
  let e := default Sql.empty_engine (db (database w)) in
  db (database w) = Some e /\
  Database.insert "nowhere" (Scenario.entry 7) 1002 w
    = (w, Throw (SqlError Sql.NoSuchTable)) /\
  exists x, Database.delete "log" [] 1002 w = (w, Throw (SqlError x)).
Proof.
  cbv zeta.
  assert (db (database Scenario.log_world)
          = Some (default Sql.empty_engine (db (database Scenario.log_world)))) as He
    by (vm_compute; reflexivity).
  split; [exact He|].
  destruct (failed_statement_leaves_no_trace Scenario.log_world _ He)
    as (Hi & _ & _ & _ & _ & Hd).
  split; [|apply Hd]. apply Hi. vm_compute. reflexivity.
Defined.

(** ** The bookkeeping of a delivery *)

Lemma ledger_run (s : Sql.stmt) : stable (keeps ledger) (Database.run s).
Proof. apply keeps_run. by intros w e. Qed.

Lemma ledger_persist : stable (keeps ledger) Database.persist.
Proof.
  intros w. unfold keeps, exec_world, Database.persist. by destruct (db (database w)).
Qed.

Lemma ledger_console_log (l : logline) : stable (keeps ledger) (console_log l).
Proof. by apply keeps_console_log. Qed.

Ltac ledger_leaf :=
  first [ apply ledger_run | apply ledger_persist | apply ledger_console_log
        | apply keeps_update_this; by intros [] ].

Lemma ledger_applyOp (op : Operation) : stable (keeps ledger) (Database.applyOp op).
Proof.
  unfold Database.applyOp, Database.applyInsert, Database.applyUpdate,
    Database.applyDelete.
  repeat case_decide; repeat (first [ledger_leaf | stable_step]; try apply _).
Qed.

Lemma ledger_createSavepoint : stable (keeps ledger) Database.createSavepoint.
Proof.
  unfold Database.createSavepoint.
  repeat (first [ledger_leaf | stable_step]; try apply _).
Qed.

Lemma ledger_rollbackAndReplay (op : Operation) :
  stable (keeps ledger) (Database.rollbackAndReplay op).
Proof.
  unfold Database.rollbackAndReplay.
  repeat (first [ apply ledger_applyOp | apply ledger_createSavepoint
                | ledger_leaf | stable_step ]; try apply _).
Qed.

Lemma ledger_tail (op : Operation) (b : bool) :
  stable (keeps ledger)
    (let! d := this in
     when (negb (bool_decide (pendingOps d = [])) && b) (Database.rollbackAndReplay op) >>
     Database.run (Sql.InsertInto true "_modusql_ops" (Database.ops_row op)) >>
     Database.persist).
Proof.
  repeat (first [ apply ledger_rollbackAndReplay | ledger_leaf | stable_step ];
          try apply _).
Qed.

(** X5.  The bookkeeping of a delivery on an open database: [confirmedSeq]
    becomes the larger of itself and [op.seq]; the operation is appended to
    the confirmed log unless it is a duplicate; the pending queue loses the
    operation exactly when it arrives in order and is the client's own; the
    local counter, the wire, the callbacks fired and the sync manager stay
    as they were. *)
Theorem applyOperation_ledger (op : Operation) (w : World) :
  is_Some (db (database w)) ->
  ledger (exec_world (Database.applyOperation op) w)
  = (Z.max (confirmedSeq (database w)) (op_seq op),
     (if op_seq op <=? confirmedSeq (database w) then confirmedOps (database w)
      else confirmedOps (database w) ++ [op]),
     (if op_seq op =? confirmedSeq (database w) + 1
      then match Database.findIndex (op_id op) (pendingOps (database w)) with
           | Some i => base.delete i (pendingOps (database w))
           | None => pendingOps (database w)
           end
      else pendingOps (database w)),
     localSeqCounter (database w), wire w, fired w, sync w).
Proof.
  intros [e He].
  set (X := (Z.max _ _, _, _, _, _, _, _)).
  change (wp (Database.applyOperation op) (fun w1 _ => ledger w1 = X) w).
  unfold Database.applyOperation.
  apply wp_bind. unfold wp at 1, Database.require_db. rewrite He. simpl.
  apply wp_bind, wp_this. apply wp_bind.
  set (isPending := bool_decide _).
  assert (forall w2, ledger w2 = X ->
    wp (let! d := this in
        when (negb (bool_decide (pendingOps d = [])) && negb isPending)
          (Database.rollbackAndReplay op) >>
        Database.run (Sql.InsertInto true "_modusql_ops" (Database.ops_row op)) >>
        Database.persist)
       (fun w1 _ => ledger w1 = X) w2) as Htail.
  { intros w2 H2. apply (stable_wp ledger _ _ (fun l => l = X)); [|done].
    apply ledger_tail. }
  destruct (op_seq op =? confirmedSeq (database w) + 1) eqn:Hin.
  - apply wp_bind.
    eapply wp_mono with (Q := fun w1 r => r = Return tt /\
       ledger w1 = (confirmedSeq (database w), confirmedOps (database w),
                    match Database.findIndex (op_id op) (pendingOps (database w)) with
                    | Some i => base.delete i (pendingOps (database w))
                    | None => pendingOps (database w)
                    end, localSeqCounter (database w), wire w, fired w, sync w)).
    { destruct (Database.findIndex _ _) as [i|].
      - by apply wp_modify.
      - destruct (applyOp_returns op w) as [Hr _]. unfold wp. split; [done|].
        apply (ledger_applyOp op w). }
    intros w1 r [-> H1].
    apply wp_bind, wp_modify. apply wp_bind, wp_modify. apply wp_bind.
    set (w2 := set_database _ _).
    assert (ledger w2 = X) as H2.
    { unfold ledger in H1. unfold ledger, w2, X. simpl.
      destruct w1 as [? ? ? ? ? [] ? ?]. simpl in *. simplify_eq.
      assert ((op_seq op <=? confirmedSeq (database w)) = false) as -> by lia.
      repeat f_equal. lia. }
    clearbody w2.
    eapply wp_mono.
    { apply (stable_wp ledger _ _ (fun l => l = X)); [|exact H2].
      apply ledger_createSavepoint. }
    intros w3 [[]|x] H3; [|done]. apply wp_ret. simpl. by apply Htail.
  - destruct (confirmedSeq (database w) + 1 <? op_seq op) eqn:Hgap.
    + apply wp_bind, wp_modify. apply wp_bind.
      eapply wp_mono with (Q := fun w1 r => r = Return tt /\ ledger w1 = ledger w).
      { apply wp_when. destruct (negb isPending).
        - match goal with |- wp _ _ ?w0 =>
            destruct (applyOp_returns op w0) as [Hr _]; unfold wp; split; [done|];
            apply (ledger_applyOp op w0)
          end.
        - done. }
      intros w1 r [-> H1].
      apply wp_bind, wp_modify. apply wp_bind, wp_modify. apply wp_ret. simpl.
      apply Htail. unfold ledger in H1. unfold ledger, X. simpl.
      destruct w1 as [? ? ? ? ? [] ? ?]. simpl in *. simplify_eq.
      assert ((op_seq op <=? confirmedSeq (database w)) = false) as -> by lia.
      repeat f_equal. lia.
    + assert ((op_seq op <=? confirmedSeq (database w)) = true) as Hdup by lia.
      rewrite Hdup. apply wp_ret. simpl. apply wp_ret. unfold X. rewrite Hdup.
      unfold ledger. repeat f_equal. lia.
Qed.

Lemma applyOperation_ledger_witness :
  let w := Scenario.log_world in
  is_Some (db (database w)) /\
  confirmedSeq (database w) = 1 /\
  length (pendingOps (database w)) = 1%nat /\
  ledger (exec_world (Database.applyOperation Scenario.gap_9) w)
  = (5, confirmedOps (database w) ++ [Scenario.gap_9], pendingOps (database w),
     Int 1, [], [], None).
Proof.
  cbv zeta.
  assert (is_Some (db (database Scenario.log_world))) as Hopen
    by (vm_compute; eexists; reflexivity).
  split; [exact Hopen|]. split; [vm_compute; reflexivity|].
  split; [vm_compute; reflexivity|].
  rewrite (applyOperation_ledger Scenario.gap_9 Scenario.log_world Hopen).
  vm_compute. reflexivity.
Defined.

Lemma createSavepoint_settled (w : World) (e : Sql.engine) :
  db (database w) = Some e -> Sql.savepoints e = [] ->
  wp Database.createSavepoint
     (fun w1 r =>
        Sql.tables <$> db (database w1) = Some (Sql.tables e) /\
        (r = Return tt ->
         (Sql.savepoints <$> db (database w1)) ≫= Sql.outermost = Some (Sql.tables e))) w.
Proof.
  intros He Hs. unfold Database.createSavepoint. apply wp_bind, wp_this. rewrite He.
  apply wp_bind.
  eapply wp_mono with (Q := fun w1 r => r = Return tt /\ db (database w1) = Some e).
  { apply wp_when. destruct (0 <? savepointSeq (database w)); [|done].
    apply wp_try_catch, wp_run. rewrite He. simpl.
    destruct (savepointSeq (database w) <? 0); [by apply wp_ret|].
    rewrite Hs. simpl. by apply wp_ret. }
  intros w1 r [-> H1]. apply wp_bind, wp_modify. apply wp_bind, wp_this.
  apply wp_run. simpl. rewrite H1. simpl.
  destruct (_ <? 0); simpl.
  - by split.
  - by rewrite Hs.
Qed.

Lemma record_then_persist (op : Operation) (w : World) (e : Sql.engine) :
  db (database w) = Some e ->
  wp (Database.run (Sql.InsertInto true "_modusql_ops" (Database.ops_row op)) >>
      Database.persist)
     (fun w1 _ =>
        db (database w1) = Some e \/
        exists e', Sql.exec (Sql.InsertInto true "_modusql_ops" (Database.ops_row op)) e
                   = Sql.Ok e' /\
                   db (database w1) = Some (Sql.reopened e')) w.
Proof.
  intros He. apply wp_bind, wp_run. rewrite He.
  destruct (Sql.exec _ e) as [e'|x] eqn:Hx; [|by left].
  apply wp_persist. simpl. right. by exists e'.
Qed.

(** X4.  The confirmation of the client's own pending operation, from a
    state that holds no savepoint, changes no table but [_modusql_ops].
    When it arrives in order it changes no table at all: the record with
    [confirmed = 1] is written after the savepoint is taken, and the export
    in [persist] ends the open transaction, so the stored row still says
    [confirmed = 0]. *)
Theorem confirming_own_operation_keeps_tables (op : Operation) (w : World) :
  settled w ->
  is_Some (Database.findIndex (op_id op) (pendingOps (database w))) ->
  let w' := exec_world (Database.applyOperation op) w in
  (forall name, name <> "_modusql_ops" -> table_rows name w' = table_rows name w) /\
  (op_seq op = confirmedSeq (database w) + 1 ->
   forall name, table_rows name w' = table_rows name w).
Proof.
  intros Hs [i Hi]. cbv zeta.
  set (P := fun w1 : World =>
    (forall name, name <> "_modusql_ops" -> table_rows name w1 = table_rows name w) /\
    (op_seq op = confirmedSeq (database w) + 1 ->
     forall name, table_rows name w1 = table_rows name w)).
  change (wp (Database.applyOperation op) (fun w1 _ => P w1) w).
  assert (P w) as Hsame by done.
  unfold Database.applyOperation.
  apply wp_bind. unfold wp at 1, Database.require_db.
  unfold settled in Hs.
  destruct (db (database w)) as [e|] eqn:He; simpl; [|done].
  apply wp_bind, wp_this. apply wp_bind. rewrite Hi.
  rewrite (bool_decide_eq_true_2 (is_Some (Some i))) by by eexists.
  cbn [negb].
  assert (forall (w2 : World) (e2 : Sql.engine),
    db (database w2) = Some e2 -> Sql.tables e2 = Sql.tables e ->
    (op_seq op = confirmedSeq (database w) + 1 ->
     Sql.outermost (Sql.savepoints e2) = Some (Sql.tables e)) ->
    (Sql.savepoints e2 = [] \/ Sql.outermost (Sql.savepoints e2) = Some (Sql.tables e)) ->
    wp (let! d := this in
        when (negb (bool_decide (pendingOps d = [])) && false)
          (Database.rollbackAndReplay op) >>
        Database.run (Sql.InsertInto true "_modusql_ops" (Database.ops_row op)) >>
        Database.persist)
       (fun w1 _ => P w1) w2) as Htail.
  { intros w2 e2 H2 Ht Hin Hout. apply wp_bind, wp_this. rewrite andb_false_r.
    apply wp_bind, wp_when. cbn beta iota.
    eapply wp_mono; [by apply (record_then_persist op w2 e2)|].
    intros w3 _ [H3|(e3 & Hx & H3)]; unfold P, table_rows; rewrite H3, He.
    - rewrite Ht. done.
    - simpl. unfold Sql.committed.
      rewrite (exec_keeps_savepoints (Sql.InsertInto true "_modusql_ops" (Database.ops_row op))
                 e2 e3 (mk_is_Some _ _ eq_refl) Hx).
      split.
      + intros name Hn. destruct Hout as [->| ->]; simpl; [|done].
        f_equal. rewrite <- Ht.
        by apply (exec_other_table
                    (Sql.InsertInto true "_modusql_ops" (Database.ops_row op))
                    "_modusql_ops" name e2 e3 eq_refl Hx).
      + intros Hseq name. by rewrite (Hin Hseq). }
  destruct (op_seq op =? confirmedSeq (database w) + 1) eqn:Hin.
  - apply wp_bind, wp_modify. apply wp_bind, wp_modify. apply wp_bind, wp_modify.
    apply wp_bind.
    eapply wp_mono; [apply (createSavepoint_settled _ e); [by rewrite <- He | done]|].
    intros w2 r [Ht Hr]. destruct (db (database w2)) as [e2|] eqn:H2; [|done].
    simpl in Ht. injection Ht as Ht.
    destruct r as [[]|x].
    + apply wp_ret. simpl. specialize (Hr eq_refl). simpl in Hr.
      apply (Htail w2 e2 H2 Ht); [done | by right].
    + unfold P, table_rows. rewrite H2, He, Ht. done.
  - destruct (confirmedSeq (database w) + 1 <? op_seq op) eqn:Hgap.
    + apply wp_bind, wp_modify. apply wp_bind, wp_when. cbn beta iota.
      apply wp_bind, wp_modify. apply wp_bind, wp_modify. apply wp_ret. simpl.
      apply (Htail _ e); [by rewrite <- He | done | lia | by left].
    + destruct (op_seq op <=? confirmedSeq (database w)); apply wp_ret; simpl.
      * by apply wp_ret.
      * apply (Htail _ e); [done | done | lia | by left].
Qed.

Lemma confirming_own_operation_keeps_tables_witness :
  let w := Scenario.log_world in
  let op := Database.as_operation
              {| p_id := "client_1000_abc_1_1001"; p_localSeq := Int 1; p_table := "log";
                 p_type := "INSERT"; p_data := Scenario.entry 1;
                 p_clientId := "client_1000_abc" |} 2 in
  let w' := exec_world (Database.applyOperation op) w in
  settled w /\
  is_Some (Database.findIndex (op_id op) (pendingOps (database w))) /\
  op_seq op = confirmedSeq (database w) + 1 /\
  pendingOps (database w') = [] /\
  table_rows "_modusql_ops" w' = table_rows "_modusql_ops" w /\
  (fun r : gmap string scalar => r !! "confirmed") <$> default [] (table_rows "_modusql_ops" w')
  = [Some (Num 0)].
Proof.
  cbv zeta.
  assert (settled Scenario.log_world) as Hs by (vm_compute; reflexivity).
  assert (is_Some (Database.findIndex "client_1000_abc_1_1001"
                     (pendingOps (database Scenario.log_world)))) as Hp
    by (vm_compute; eexists; reflexivity).
  split; [exact Hs|]. split; [exact Hp|].
  split; [vm_compute; reflexivity|]. split; [vm_compute; reflexivity|].
  split; [|vm_compute; reflexivity].
  refine (proj2 (confirming_own_operation_keeps_tables
           (Database.as_operation
              {| p_id := "client_1000_abc_1_1001"; p_localSeq := Int 1; p_table := "log";
                 p_type := "INSERT"; p_data := Scenario.entry 1;
                 p_clientId := "client_1000_abc" |} 2)
           Scenario.log_world Hs Hp) _ "_modusql_ops").
  vm_compute. reflexivity.
Defined.

(** ** Local mutations and their replay *)

Lemma createOperation_result (table type : string) (data : object jsval) (now : Z)
    (w : World) :
  wp (Database.createOperation table type data now)
     (fun w1 r =>
        forall op, r = Return op ->
          op = new_op (database w) table type data now /\
          mutation_effect w op w1 /\
          exists e e1 e2,
            db (database w) = Some e /\
            Sql.exec (Sql.InsertInto false "_modusql_ops" (Database.pending_row op)) e
              = Sql.Ok e1 /\
            Sql.exec (Sql.InsertInto true "_modusql_meta"
                        (Database.meta_row (p_localSeq op))) e1 = Sql.Ok e2 /\
            db (database w1) = Some (Sql.reopened e2)) w.
Proof.
  unfold Database.createOperation.
  apply wp_bind, wp_modify. apply wp_bind, wp_this. apply wp_bind, wp_modify.
  cbn [database set_database localSeqCounter set_localSeqCounter clientId].
  fold (new_op (database w) table type data now).
  set (op := new_op (database w) table type data now).
  apply wp_bind; apply wp_run_returned; [intros e e1 He He1 | done].
  apply wp_bind; apply wp_run_returned; [intros e1' e2 He1' He2 | done].
  apply wp_bind, wp_persist. cbn [database set_database db set_db].
  simpl in He, He1'. injection He1' as <-.
  assert (db (database w) = Some e) as Hdb by (by destruct (database w)).
  apply wp_bind.
  set (w3 := set_localStorage _ _).
  assert (can_send w3 = can_send w) as Hcs by done.
  eapply wp_mono with (Q := fun w4 r => r = Return tt /\
     w4 = if (onOperation (database w) && can_send w)%bool
          then set_wire (wire w3 ++ [op_envelope op]) w3 else w3).
  { apply wp_when. replace (onOperation _) with (onOperation (database w))
      by (by destruct (database w)).
    destruct (onOperation (database w)); [|done]. simpl.
    unfold handleLocalOperation, wp, bind, get, when, connection_send, modify, ret.
    simpl. rewrite Hcs. by destruct (can_send w). }
  intros w4 r [-> ->]. apply wp_ret. intros op' [= <-].
  split; [done|]. split.
  - unfold mutation_effect.
    destruct (onOperation (database w) && can_send w)%bool; simpl;
      destruct (database w); simpl; rewrite ?app_nil_r; done.
  - exists e, e1, e2. repeat split; try done.
    by destruct (onOperation (database w) && can_send w)%bool.
Qed.

Lemma insert_keeps_savepoints (o : bool) (t : string) (vals : gmap string jsval)
    (e e' : Sql.engine) :
  Sql.exec (Sql.InsertInto o t vals) e = Sql.Ok e' ->
  Sql.savepoints e' = Sql.savepoints e.
Proof. apply exec_keeps_savepoints. by eexists. Qed.

Lemma keeps_table_run (table : string) (s : Sql.stmt) (t : string) :
  stmt_table s = Some t -> t <> table -> stable (keeps (table_of table)) (Database.run s).
Proof.
  intros Hs Ht w. unfold keeps, exec_world, Database.run, table_of.
  destruct (db (database w)) as [e|] eqn:He; simpl; [|by rewrite He].
  destruct (Sql.exec s e) as [e'|x] eqn:Hx; simpl; [|by rewrite He].
  eapply exec_other_table; [|exact Hx|]; [exact Hs | congruence].
Qed.

(** A local mutation that returns: the statement it ran, the operation it
    recorded, and its effects. *)
Lemma mutation_result (s : Sql.stmt) (table type : string) (data : object jsval)
    (now : Z) (w : World) :
  stmt_table s = Some table ->
  wp (Database.require_db >>
      Database.run s >>
      let! op := Database.createOperation table type data now in
      Database.persist >> ret op)
     (fun w1 r =>
        forall op, r = Return op ->
          op = new_op (database w) table type data now /\
          mutation_effect w op w1 /\
          exists e e', db (database w) = Some e /\ Sql.exec s e = Sql.Ok e' /\
            (Sql.savepoints e = [] -> internal_table table = false ->
             table_of table w1 = Sql.tables e' !! table)) w.
Proof.
  intros Hs. apply wp_bind. unfold wp at 1, Database.require_db.
  destruct (db (database w)) as [e|] eqn:He; simpl; [|done].
  apply wp_bind; apply wp_run_returned; [intros e0 e' He0 He' | done].
  rewrite He in He0. injection He0 as <-.
  set (w1 := set_database _ w).
  apply wp_bind. eapply wp_mono; [apply createOperation_result|].
  intros w2 [op|x] H2; [|done]. destruct (H2 op eq_refl) as (Hop & Heff & e1 & e2 & e3 & Hdb1 & Hx1 & Hx2 & Hdb2).
  apply wp_bind, wp_persist. rewrite Hdb2. apply wp_ret.
  intros op' [= <-].
  split; [by rewrite Hop; destruct (database w)|].
  split.
  { destruct Heff as (? & ? & ? & ? & ? & ? & ? & ? & ?). unfold mutation_effect.
    simpl. unfold w1 in *. simpl in *.
    replace (onOperation (set_db (Some e') (database w))) with (onOperation (database w))
      in * by (by destruct (database w)).
    replace (can_send (set_database (set_db (Some e') (database w)) w)) with (can_send w)
      in * by done.
    destruct (database w); simpl in *. done. }
  exists e, e'. split; [done|]. split; [done|]. intros Hsp Hint.
  destruct (internal_table_false table Hint) as [Hm Ho].
  unfold table_of. simpl. rewrite ?Hdb2.
  simpl in Hdb1. injection Hdb1 as <-.
  assert (Sql.savepoints e3 = []) as Hsp3.
  { rewrite (insert_keeps_savepoints _ _ _ _ _ Hx2),
      (insert_keeps_savepoints _ _ _ _ _ Hx1),
      (exec_keeps_savepoints s e e' (mk_is_Some _ _ Hs) He'). exact Hsp. }
  simpl. unfold Sql.committed at 1. simpl.
  unfold Sql.committed. rewrite Hsp3. simpl.
  etrans; [eapply exec_other_table; [|exact Hx2|exact Hm]; reflexivity|].
  eapply exec_other_table; [|exact Hx1|exact Ho]; reflexivity.
Qed.

Lemma wrap_some (c : M PendingOperation) (w : World) (op : PendingOperation)
    (Q : PendingOperation -> World -> Prop) :
  wp c (fun w1 r => forall op, r = Return op -> Q op w1) w ->
  eval_world (let! op := c in ret (Some op)) w = Return (Some op) ->
  Q op (exec_world (let! op := c in ret (Some op)) w).
Proof.
  unfold wp, eval_world, exec_world, bind.
  destruct (c w) as [w1 [o|x]]; simpl; [|done]. intros H [= ->]. by apply H.
Qed.

Lemma perform_created (a : action) (w : World) (op : PendingOperation) :
  eval_world (perform a) w = Return (Some op) ->
  created_by a (database w) = Some op /\
  mutation_effect w op (exec_world (perform a) w) /\
  exists s e e', local_stmt a = Some s /\ stmt_table s = Some (p_table op) /\
    db (database w) = Some e /\ Sql.exec s e = Sql.Ok e' /\
    (Sql.savepoints e = [] -> internal_table (p_table op) = false ->
     table_of (p_table op) (exec_world (perform a) w) = Sql.tables e' !! p_table op).
Proof.
  intros Hr.
  assert (forall s table type data now,
            stmt_table s = Some table ->
            eval_world (let! op := (Database.require_db >> Database.run s >>
                                    let! op := Database.createOperation table type data now in
                                    Database.persist >> ret op) in ret (Some op)) w
              = Return (Some op) ->
            op = new_op (database w) table type data now /\
            mutation_effect w op
              (exec_world (let! op := (Database.require_db >> Database.run s >>
                                    let! op := Database.createOperation table type data now in
                                    Database.persist >> ret op) in ret (Some op)) w) /\
            exists e e', db (database w) = Some e /\ Sql.exec s e = Sql.Ok e' /\
              (Sql.savepoints e = [] -> internal_table table = false ->
               table_of table
                 (exec_world (let! op := (Database.require_db >> Database.run s >>
                                    let! op := Database.createOperation table type data now in
                                    Database.persist >> ret op) in ret (Some op)) w)
               = Sql.tables e' !! table)) as Hgen.
  { intros s table type data now Hs Hret.
    apply (wrap_some _ w op
             (fun op w1 => op = new_op (database w) table type data now /\
                mutation_effect w op w1 /\
                exists e e', db (database w) = Some e /\ Sql.exec s e = Sql.Ok e' /\
                  (Sql.savepoints e = [] -> internal_table table = false ->
                   table_of table w1 = Sql.tables e' !! table))); [|exact Hret].
    by apply mutation_result. }
  destruct a as [|schema|table data now|table data where_ now|table where_ now|op0| |];
    simpl in Hr; unfold eval_world in Hr; simpl in Hr.
  - unfold bind in Hr. by destruct (Database.init w) as [? [|]].
  - unfold bind in Hr at 1. by destruct (Database.createTable schema w) as [? [|]].
  - destruct (Hgen (Sql.InsertInto false table (fields data)) table "INSERT" data now
                eq_refl Hr)
      as (Hop & Heff & e & e' & ? & ? & ?).
    split; [by rewrite Hop|]. split; [exact Heff|].
    exists (Sql.InsertInto false table (fields data)), e, e'. rewrite Hop.
    by repeat split.
  - destruct (Hgen (Sql.Update table (fields data) (fields where_)) table "UPDATE"
                (obj_set "_where" (Obj where_) data) now eq_refl Hr)
      as (Hop & Heff & e & e' & ? & ? & ?).
    split; [by rewrite Hop|]. split; [exact Heff|].
    exists (Sql.Update table (fields data) (fields where_)), e, e'. rewrite Hop.
    by repeat split.
  - destruct (Hgen (Sql.DeleteFrom table (fields where_)) table "DELETE"
                [("_where", Obj where_)] now eq_refl Hr)
      as (Hop & Heff & e & e' & ? & ? & ?).
    split; [by rewrite Hop|]. split; [exact Heff|].
    exists (Sql.DeleteFrom table (fields where_)), e, e'. rewrite Hop.
    by repeat split.
  - unfold bind in Hr at 1. by destruct (Database.applyOperation op0 w) as [? [|]].
  - unfold bind in Hr at 1. by destruct (Database.close w) as [? [|]].
  - unfold bind in Hr. unfold update_this, modify in Hr. simpl in Hr.
    by destruct (Database.init _) as [? [|]].
Qed.


(** X6.  A local insert, update or delete that returns: the operation
    returned is the one built from the incremented counter, the arguments
    and [Date.now()], with the where clause under [_where] for an update or
    delete; it is appended to the pending queue and the counter is its
    [localSeq]; its envelope is the one thing sent when a sync manager
    listens and can send, and nothing is sent otherwise; [confirmedSeq], the
    confirmed log, the callbacks fired and the console stay as they
    were. *)
Theorem local_mutation_enqueues_and_sends (a : action) (w : World)
    (op : PendingOperation) :
  eval_world (perform a) w = Return (Some op) ->
  let w1 := exec_world (perform a) w in
  created_by a (database w) = Some op /\
  pendingOps (database w1) = pendingOps (database w) ++ [op] /\
  localSeqCounter (database w1) = p_localSeq op /\
  sent_by (perform a) w
    = (if (onOperation (database w) && can_send w)%bool then [op_envelope op] else []) /\
  confirmedSeq (database w1) = confirmedSeq (database w) /\
  confirmedOps (database w1) = confirmedOps (database w) /\
  fired w1 = fired w /\ console w1 = console w.
Proof.
  intros Hr. simpl.
  destruct (perform_created a w op Hr)
    as (Hc & (Hp & Hl & Hw & Hcs & Hco & _ & Hf & _ & Hcon) & _).
  repeat split; try done.
  unfold sent_by. rewrite Hw. apply drop_length_app.
Qed.

Lemma local_mutation_enqueues_and_sends_witness :
  let a := Insert "t" (Scenario.row "a" 1) 1001 in
  let w := Scenario.online_world in
  eval_world (perform a) w = Return (Some Scenario.pending_a) /\
  pendingOps (database (exec_world (perform a) w)) = [Scenario.pending_a] /\
  sent_by (perform a) w = [op_envelope Scenario.pending_a].
Proof.
  cbv zeta.
  assert (eval_world (perform (Insert "t" (Scenario.row "a" 1) 1001)) Scenario.online_world
          = Return (Some Scenario.pending_a)) as Hr by (vm_compute; reflexivity).
  split; [exact Hr|].
  destruct (local_mutation_enqueues_and_sends
              (Insert "t" (Scenario.row "a" 1) 1001) Scenario.online_world
              Scenario.pending_a Hr) as (_ & Hp & _ & Hs & _).
  split; [exact Hp | exact Hs].
Defined.

Section Replay.
Import Sql.

Lemma cell_replace (b : gmap string scalar) (c : coldef) (v : scalar) :
  cell false b c = Some v -> cell true b c = Some v.
Proof. unfold cell. by destruct (_ && _)%bool. Qed.

Lemma build_row_replace (b : gmap string scalar) (cs : list coldef)
    (r : gmap string scalar) :
  build_row false b cs = Some r -> build_row true b cs = Some r.
Proof.
  revert r. induction cs as [|c cs IH]; intros r; simpl; [done|].
  destruct (cell false b c) as [v|] eqn:Hc; [|done].
  destruct (build_row false b cs) as [r'|]; [|done].
  intros [= <-]. by rewrite (cell_replace _ _ _ Hc), (IH r').
Qed.

Lemma filter_none {A} (f : A -> bool) (l : list A) :
  existsb f l = false -> List.filter (fun x => negb (f x)) l = l.
Proof.
  induction l as [|x l IH]; simpl; [done|].
  intros H. apply orb_false_iff in H as [Hx Hl]. rewrite Hx. simpl. by rewrite IH.
Qed.

(** An INSERT that succeeds does what INSERT OR REPLACE does. *)
Lemma insert_as_replace (tbl : string) (vals : gmap string jsval) (e e' : engine) :
  exec (InsertInto false tbl vals) e = Ok e' -> exec (InsertInto true tbl vals) e = Ok e'.
Proof.
  simpl. unfold exec_insert. destruct (tables e !! tbl) as [T|]; [|done].
  destruct (decide (vals = ∅)); [done|].
  destruct (negb (known_cols T vals)); [done|].
  destruct (negb (bindable vals)); [done|].
  destruct (build_row false (bind_all vals) (t_columns T)) as [r|] eqn:Hr; [|done].
  rewrite (build_row_replace _ _ _ Hr).
  destruct (existsb (conflicts T r) (t_rows T)) eqn:Hex; [done|].
  intros [= <-]. by rewrite filter_none.
Qed.
End Replay.

Section ReplayTables.
Import Sql.

(** A row statement reads and writes its own table only. *)
Lemma exec_same_table (s : stmt) (tbl : string) (e1 e2 e1' : engine) :
  match s with
  | InsertInto _ _ _ | Update _ _ _ | DeleteFrom _ _ => True
  | _ => False
  end ->
  stmt_table s = Some tbl ->
  tables e2 !! tbl = tables e1 !! tbl ->
  exec s e1 = Ok e1' ->
  exists e2', exec s e2 = Ok e2' /\ tables e2' !! tbl = tables e1' !! tbl.
Proof.
  intros Hk Hs Ht.
  destruct s as [|o t vals|t sets wheres|t wheres| | |]; try done;
    simpl in Hs; injection Hs as ->; simpl.
  - unfold exec_insert. rewrite Ht. destruct (tables e1 !! tbl) as [T|]; [|done].
    repeat (case_match; try done); intros [= <-]; eexists; (split; [done|]);
      simpl; by rewrite !lookup_insert_eq.
  - unfold exec_update. rewrite Ht. destruct (tables e1 !! tbl) as [T|]; [|done].
    repeat (case_match; try done); intros [= <-]; eexists; (split; [done|]);
      simpl; by rewrite !lookup_insert_eq.
  - unfold exec_delete. rewrite Ht. destruct (tables e1 !! tbl) as [T|]; [|done].
    repeat (case_match; try done); intros [= <-]; eexists; (split; [done|]);
      simpl; by rewrite !lookup_insert_eq.
Qed.
End ReplayTables.

Lemma fields_replace {A} (k : string) (v : A) (o : object A) :
  <[k := v]> (fields ((fun kv : string * A =>
                         if bool_decide (kv.1 = k) then (k, v) else kv) <$> o))
  = <[k := v]> (fields o).
Proof.
  unfold fields. induction o as [|[k' v'] o IH]; [done|].
  rewrite fmap_cons. cbn [fst]. case_bool_decide as Hk; rewrite !list_to_map_cons; cbn [fst snd].
  - subst k'. by rewrite !insert_insert_eq.
  - rewrite (insert_insert_ne _ k k') by done. rewrite IH.
    by rewrite (insert_insert_ne _ k k').
Qed.

Lemma fields_append {A} (k : string) (v : A) (o : object A) :
  k ∉ o.*1 -> fields (o ++ [(k, v)]) = <[k := v]> (fields o).
Proof.
  unfold fields. induction o as [|[k' v'] o IH]; intros Hin; [done|].
  rewrite fmap_cons in Hin. apply not_elem_of_cons in Hin as [Hk Hin].
  rewrite <- app_comm_cons, !list_to_map_cons. cbn [fst snd].
  rewrite IH by done. by rewrite (insert_insert_ne _ k k').
Qed.

(** [{ ...o, k: v }] read as a map. *)
Lemma fields_obj_set {A} (k : string) (v : A) (o : object A) :
  fields (obj_set k v o) = <[k := v]> (fields o).
Proof.
  unfold obj_set. case_bool_decide as Hin; [|by apply fields_append].
  rewrite <- fields_replace. symmetry. apply insert_id.
  unfold fields. induction o as [|[k' v'] o IH]; [by apply elem_of_nil in Hin|].
  rewrite fmap_cons. cbn [fst]. case_bool_decide as Hk; rewrite !list_to_map_cons; cbn [fst snd].
  - by rewrite lookup_insert_eq.
  - rewrite lookup_insert_ne by done. apply IH.
    rewrite fmap_cons in Hin. apply elem_of_cons in Hin as [Hin|Hin]; [|done].
    simpl in Hin. congruence.
Qed.

(** The statement [applyOp] issues for the operation a local mutation
    recorded is the statement the mutation ran, with OR REPLACE for an
    INSERT. *)
Lemma replay_stmt (a : action) (d : Database) (op : PendingOperation) (seq : Z) :
  created_by a d = Some op -> plain_payload a = true ->
  apply_stmt (Database.as_operation op seq)
  = match a with
    | Insert table data _ => Some (Sql.InsertInto true table (fields data))
    | _ => local_stmt a
    end.
Proof.
  intros Hc Hp.
  destruct a as [|schema|table data now|table data where_ now|table where_ now|op0| |];
    simpl in Hc; try done; injection Hc as <-; unfold apply_stmt; simpl.
  - simpl in Hp. apply bool_decide_eq_true in Hp. by rewrite delete_id.
  - simpl in Hp. apply bool_decide_eq_true in Hp.
    unfold Database.where_of. rewrite fields_obj_set, lookup_insert_eq. simpl.
    by rewrite delete_insert_eq, delete_id.
  - unfold Database.where_of, fields. simpl. rewrite lookup_insert_eq. done.
Qed.

Lemma applied_stmt (op : Operation) (w : World) (s : Sql.stmt) (e e' : Sql.engine) :
  apply_stmt op = Some s -> db (database w) = Some e -> Sql.exec s e = Sql.Ok e' ->
  Database.applyOp op w = (set_database (set_db (Some e') (database w)) w, Return tt).
Proof.
  unfold apply_stmt, Database.applyOp, Database.applyInsert,
    Database.applyUpdate, Database.applyDelete.
  intros Hs He Hx.
  repeat case_decide; simplify_eq;
    unfold try_catch, Database.run; by rewrite He, Hx.
Qed.

(** X7.  Replaying a local operation reproduces the mutation.  For a
    mutation on a user table that returned, from a state holding no
    savepoint and with a payload that has no key [_where] of its own:
    [applyOp] of the recorded operation, from any state in which the table
    is as it was before the mutation, leaves the table as the mutation left
    it, and logs nothing. *)
Theorem local_operation_replays_alike (a : action) (w w2 : World)
    (op : PendingOperation) (seq : Z) :
  settled w ->
  eval_world (perform a) w = Return (Some op) ->
  internal_table (p_table op) = false ->
  plain_payload a = true ->
  table_of (p_table op) w2 = table_of (p_table op) w ->
  table_of (p_table op) (exec_world (Database.applyOp (Database.as_operation op seq)) w2)
  = table_of (p_table op) (exec_world (perform a) w) /\
  console (exec_world (Database.applyOp (Database.as_operation op seq)) w2) = console w2.
Proof.
  intros Hset Hr Hint Hplain Hsame.
  destruct (perform_created a w op Hr)
    as (Hc & _ & s & e & e' & Hls & Hst & He & Hx & Hafter).
  unfold settled in Hset. rewrite He in Hset.
  rewrite (Hafter Hset Hint).
  pose proof (replay_stmt a (database w) op seq Hc Hplain) as Hrs.
  assert (exists s', apply_stmt (Database.as_operation op seq) = Some s' /\
            stmt_table s' = Some (p_table op) /\ Sql.exec s' e = Sql.Ok e' /\
            match s' with
            | Sql.InsertInto _ _ _ | Sql.Update _ _ _ | Sql.DeleteFrom _ _ => True
            | _ => False
            end) as (s' & Hs' & Hst' & Hx' & Hk').
  { destruct a as [|schema|table data now|table data where_ now|table where_ now|op0| |];
      simpl in Hls; try done; injection Hls as <-.
    - eexists. split; [exact Hrs|]. split; [exact Hst|].
      split; [by apply insert_as_replace | done].
    - eexists. split; [exact Hrs|]. by repeat split.
    - eexists. split; [exact Hrs|]. by repeat split. }
  unfold table_of in Hsame. rewrite He in Hsame.
  assert (is_Some (Sql.tables e !! p_table op)) as [T HT].
  { destruct (Sql.tables e !! p_table op) eqn:E; [by eexists|].
    destruct s' as [|o t vals|t sets wheres|t wheres| | |]; try done;
      simpl in Hst'; injection Hst' as ->; simpl in Hx'.
    - unfold Sql.exec_insert in Hx'. by rewrite E in Hx'.
    - unfold Sql.exec_update in Hx'. by rewrite E in Hx'.
    - unfold Sql.exec_delete in Hx'. by rewrite E in Hx'. }
  destruct (db (database w2)) as [e2|] eqn:He2; [|by rewrite HT in Hsame].
  destruct (exec_same_table s' (p_table op) e e2 e' Hk' Hst' Hsame Hx')
    as (e2' & Hx2 & Ht2).
  unfold exec_world. rewrite (applied_stmt _ w2 s' e2 e2' Hs' He2 Hx2).
  unfold table_of. simpl. split; [exact Ht2 | done].
Qed.

Lemma local_operation_replays_alike_witness :
  let a := Insert "log" (Scenario.entry 7) 1002 in
  let w := Scenario.log_world in
  let w2 := Scenario.empty_log_world in
  let op := {| p_id := "client_1000_abc_2_1002"; p_localSeq := Int 2;
               p_table := "log"; p_type := "INSERT";
               p_data := Scenario.entry 7; p_clientId := "client_1000_abc" |} in
  let w2' := exec_world (Database.applyOp (Database.as_operation
               {| p_id := "client_1000_abc_1_1001"; p_localSeq := Int 1;
                  p_table := "log"; p_type := "INSERT";
                  p_data := Scenario.entry 1; p_clientId := "client_1000_abc" |} 2))
               (exec_world (Database.applyOp
                  (Scenario.remote_op "B_1_900" 1 "log" "INSERT" (Scenario.entry 5))) w2) in
  settled w /\
  eval_world (perform a) w = Return (Some op) /\
  internal_table (p_table op) = false /\
  plain_payload a = true /\
  table_of (p_table op) w2' = table_of (p_table op) w /\
  table_of "log" (exec_world (Database.applyOp (Database.as_operation op 3)) w2')
  = table_of "log" (exec_world (perform a) w) /\
  cell_values "v" "log" (exec_world (perform a) w) = Some [Num 5; Num 1; Num 7].
Proof.
  cbv zeta.
  set (op := {| p_id := "client_1000_abc_2_1002"; p_localSeq := Int 2;
               p_table := "log"; p_type := "INSERT";
               p_data := Scenario.entry 7; p_clientId := "client_1000_abc" |}).
  set (w2' := exec_world _ (exec_world _ Scenario.empty_log_world)).
  assert (eval_world (perform (Insert "log" (Scenario.entry 7) 1002)) Scenario.log_world
          = Return (Some op)) as Hr by (vm_compute; reflexivity).
  assert (internal_table (p_table op) = false) as Hi by (vm_compute; reflexivity).
  assert (plain_payload (Insert "log" (Scenario.entry 7) 1002) = true) as Hp
    by (vm_compute; reflexivity).
  assert (table_of (p_table op) w2' = table_of (p_table op) Scenario.log_world) as Hs
    by (vm_compute; reflexivity).
  assert (settled Scenario.log_world) as Hset by (vm_compute; reflexivity).
  split; [exact Hset|].
  split; [exact Hr|]. split; [exact Hi|]. split; [exact Hp|]. split; [exact Hs|].
  split; [|vm_compute; reflexivity].
  exact (proj1 (local_operation_replays_alike
                  (Insert "log" (Scenario.entry 7) 1002) Scenario.log_world w2' op 3
                  Hset Hr Hi Hp Hs)).
Defined.

Lemma NoDup_fmap_via {A B C} (f : A -> B) (g : A -> C) (l : list A) :
  (forall x y, x ∈ l -> y ∈ l -> f x = f y -> g x = g y) ->
  NoDup (g <$> l) -> NoDup (f <$> l).
Proof.
  induction l as [|x l IH]; simpl; intros Hfg Hg; [constructor|].
  inversion Hg as [|? ? Hx Hg']; subst. constructor.
  - intros Hin. apply Hx. apply list_elem_of_fmap in Hin as (y & Hy & Hyl).
    apply list_elem_of_fmap. exists y. split; [|done].
    apply Hfg; [by left | by right | done].
  - apply IH; [|exact Hg']. intros y z Hy Hz. apply Hfg; by right.
Qed.

Lemma run_actions_created (name client : string) (acts : list action) :
  forall n w,
    forallb local_action acts = true -> counter_inv name client n w ->
    Forall (fun op => p_clientId op = client /\
                      exists now, p_id op = Database.operation_id client (p_localSeq op) now)
           (run_actions acts w).2.
Proof.
  induction acts as [|a acts IH]; intros n w Hacts Hinv; simpl; [constructor|].
  simpl in Hacts. apply andb_true_iff in Hacts as [Ha Hacts].
  pose proof (perform_inv name client n a w Ha Hinv) as Hstep. unfold wp in Hstep.
  pose proof (perform_created a w) as Hcr. unfold eval_world in Hcr.
  destruct (perform a w) as [w1 r]. simpl in Hstep, Hcr.
  destruct r as [[op|]|x]; simpl in Hstep.
  - destruct Hstep as [Hseq Hinv1].
    specialize (IH (n + 1) w1 Hacts Hinv1).
    destruct (run_actions acts w1) as [w2 ops]. simpl in *.
    constructor; [|exact IH].
    destruct (Hcr op eq_refl) as (Hc & _).
    destruct Hinv as (_ & _ & _ & Hclient & _).
    destruct a; simpl in Hc; try done; injection Hc as <-; simpl;
      rewrite Hclient; (split; [done | by eexists]).
  - specialize (IH n w1 Hacts Hstep). by destruct (run_actions acts w1).
  - specialize (IH n w1 Hacts Hstep). by destruct (run_actions acts w1).
Qed.

(** X8.  Over any sequence of local calls on a database from its first
    visit (init, createTable, insert, update, delete, close, reload, on user
    tables, at any clock values), the operations created have pairwise
    distinct ids and all carry the client id. *)
Theorem operation_ids_distinct (name client : string) (acts : list action) :
  forallb local_action acts = true ->
  let ops := (run_actions acts (first_visit name client)).2 in
  NoDup (p_id <$> ops) /\ Forall (fun op => p_clientId op = client) ops.
Proof.
  intros Hacts. simpl.
  destruct (run_actions_inv name client acts 0 (first_visit name client) Hacts
              (first_visit_inv name client)) as [Hseq _].
  pose proof (run_actions_created name client acts 0 (first_visit name client) Hacts
                (first_visit_inv name client)) as Hcr.
  set (ops := (run_actions acts (first_visit name client)).2) in *. clearbody ops.
  split; [|eapply List.Forall_impl; [|exact Hcr]; by intros op [? _]].
  apply (NoDup_fmap_via p_id p_localSeq).
  - intros x y Hx Hy Hid.
    rewrite Forall_forall in Hcr.
    destruct (Hcr x (proj1 (list_elem_of_In _ _) Hx)) as (_ & nx & Hnx).
    destruct (Hcr y (proj1 (list_elem_of_In _ _) Hy)) as (_ & ny & Hny).
    assert (forall z, z ∈ ops -> exists l, 0 <= l /\ p_localSeq z = Int l) as Hl.
    { intros z Hz. apply (list_elem_of_fmap_2 p_localSeq) in Hz. rewrite Hseq in Hz.
      apply list_elem_of_fmap in Hz as (i & -> & _). exists (0 + Z.of_nat i).
      split; [lia|done]. }
    destruct (Hl x Hx) as (lx & Hlx0 & Hlx), (Hl y Hy) as (ly & Hly0 & Hly).
    rewrite Hlx, Hly in *. f_equal.
    apply (operation_id_inj client lx ly nx ny); [done..|]. congruence.
  - rewrite Hseq. apply NoDup_fmap_2.
    + intros i j [= H]. lia.
    + apply NoDup_seq.
Qed.

Lemma operation_ids_distinct_witness :
  let acts := [Init; CreateTable Scenario.schema_t;
               Insert "t" (Scenario.row "a" 1) 1001; Close; Reload;
               Insert "t" (Scenario.row "b" 2) 1001] in
  forallb local_action acts = true /\
  p_id <$> (run_actions acts (first_visit "app" "client_1000_abc")).2
    = ["client_1000_abc_1_1001"; "client_1000_abc_2_1001"] /\
  NoDup (p_id <$> (run_actions acts (first_visit "app" "client_1000_abc")).2).
Proof.
  cbv zeta. split; [vm_compute; reflexivity|]. split; [vm_compute; reflexivity|].
  exact (proj1 (operation_ids_distinct "app" "client_1000_abc"
                  [Init; CreateTable Scenario.schema_t;
                   Insert "t" (Scenario.row "a" 1) 1001; Close; Reload;
                   Insert "t" (Scenario.row "b" 2) 1001] eq_refl)).
Defined.

(** ** The sync manager *)

#[global] Instance quiet_preorder : PreOrder quiet.
Proof.
  split.
  - by intros w.
  - intros w1 w2 w3 [Hs12 Hw12] [Hs23 Hw23]. split; [congruence|].
    intros Hc. rewrite Hw23, Hw12; [done..|]. unfold can_send in *. by rewrite Hs12.
Qed.

Lemma quiet_fields (w w' : World) :
  sync w' = sync w -> wire w' = wire w -> quiet w w'.
Proof. by intros ? ?. Qed.

Lemma quiet_run (s : Sql.stmt) : stable quiet (Database.run s).
Proof.
  intros w. unfold exec_world, Database.run.
  destruct (db (database w)) as [e|]; [|done]. by destruct (Sql.exec s e).
Qed.

Lemma quiet_persist : stable quiet Database.persist.
Proof.
  intros w. unfold exec_world, Database.persist. by destruct (db (database w)).
Qed.

Lemma quiet_handleLocalOperation (op : PendingOperation) :
  stable quiet (handleLocalOperation op).
Proof.
  intros w. unfold exec_world, handleLocalOperation, bind, get, when. simpl.
  destruct (can_send w) eqn:Hc; simpl; [|done]. split; [done|]. by rewrite Hc.
Qed.

Ltac quiet_leaf :=
  first [ apply quiet_run | apply quiet_persist | apply quiet_handleLocalOperation
        | apply stable_modify; by intros [? ? ? ? ? [] ? ?] ].

Ltac quiet_auto tac :=
  repeat (first [ tac | quiet_leaf | progress unfold update_this, console_log
                | stable_step ]; try apply _).

Lemma quiet_applyOp (op : Operation) : stable quiet (Database.applyOp op).
Proof.
  unfold Database.applyOp, Database.applyInsert, Database.applyUpdate,
    Database.applyDelete.
  repeat case_decide; quiet_auto fail.
Qed.

Lemma quiet_createSavepoint : stable quiet Database.createSavepoint.
Proof. unfold Database.createSavepoint. quiet_auto fail. Qed.

Lemma quiet_applyOperation (op : Operation) : stable quiet (Database.applyOperation op).
Proof.
  unfold Database.applyOperation, Database.rollbackAndReplay.
  apply stable_bind; [apply _ | apply stable_require_db; apply _ |].
  intros _. apply stable_bind; [apply _ | apply stable_this; apply _ |]. intros d.
  apply stable_bind; [apply _ | |].
  - repeat case_match;
      quiet_auto ltac:(first [apply quiet_applyOp | apply quiet_createSavepoint]).
  - intros []; simpl;
      quiet_auto ltac:(first [apply quiet_applyOp | apply quiet_createSavepoint]).
Qed.

Lemma quiet_createOperation (table type : string) (data : object jsval) (now : Z) :
  stable quiet (Database.createOperation table type data now).
Proof. unfold Database.createOperation. quiet_auto fail. Qed.

Lemma quiet_init : stable quiet Database.init.
Proof. unfold Database.init. quiet_auto fail. Qed.

Lemma quiet_perform (a : action) : stable quiet (perform a).
Proof.
  destruct a; unfold perform, Database.createTable, Database.insert, Database.update,
    Database.delete, Database.close;
    quiet_auto ltac:(first [ apply quiet_createOperation | apply quiet_applyOperation
                           | apply quiet_init ]).
Qed.

(** X10.  While the sync manager cannot send (there is none, it has no
    connection, or it is offline), no sequence of calls on the database
    (init, createTable, mutations, deliveries, close, reload) puts anything
    on the wire, and the sync manager is not touched. *)
Theorem offline_calls_send_nothing (acts : list action) (w : World) :
  can_send w = false ->
  wire (run_actions acts w).1 = wire w /\ sync (run_actions acts w).1 = sync w.
Proof.
  revert w. induction acts as [|a acts IH]; intros w Hc; simpl; [done|].
  destruct (quiet_perform a w) as [Hs Hw]. unfold exec_world in *.
  destruct (perform a w) as [w1 r]. simpl in *.
  assert (can_send w1 = false) as Hc1 by (unfold can_send in *; by rewrite Hs).
  destruct (IH w1 Hc1) as [IHw IHs].
  destruct (run_actions acts w1) as [w2 ops]. simpl in *.
  split; [by rewrite IHw, Hw | by rewrite IHs].
Qed.

Lemma offline_calls_send_nothing_witness :
  let w := exec_world SyncManager.onDisconnectHandler Scenario.online_world in
  let acts := [Insert "t" (Scenario.row "a" 1) 1001;
               Deliver (Scenario.remote_op "B_1_900" 1 "t" "INSERT" (Scenario.row "b" 2))] in
  can_send Scenario.online_world = true /\
  can_send w = false /\
  length (run_actions acts w).2 = 1%nat /\
  wire (run_actions acts w).1 = wire w.
Proof.
  cbv zeta.
  assert (can_send (exec_world SyncManager.onDisconnectHandler Scenario.online_world)
          = false) as Hc by (vm_compute; reflexivity).
  split; [vm_compute; reflexivity|]. split; [exact Hc|].
  split; [vm_compute; reflexivity|].
  exact (proj1 (offline_calls_send_nothing
                  [Insert "t" (Scenario.row "a" 1) 1001;
                   Deliver (Scenario.remote_op "B_1_900" 1 "t" "INSERT" (Scenario.row "b" 2))]
                  _ Hc)).
Defined.

(** X9.  [flushPendingOps] sends one envelope for each pending operation,
    in queue order, when there is a connection and the manager is online,
    and nothing otherwise; it changes nothing else.  [onReconnect] sets
    [isOnline] and flushes; [connect] sets the connection and [isOnline] and
    flushes the whole queue. *)
Theorem flush_sends_whole_queue (w : World) :
  SyncManager.flushPendingOps w
  = (if can_send w
     then set_wire (wire w ++ (op_envelope <$> pendingOps (database w))) w else w,
     Return tt) /\
  (forall s, sync w = Some s -> connection s = true ->
     SyncManager.onReconnect w
     = (set_wire (wire w ++ (op_envelope <$> pendingOps (database w)))
          (set_sync (Some (set_isOnline true s)) w), Return tt)) /\
  (forall s, sync w = Some s -> connection s = false ->
     SyncManager.onReconnect w = (set_sync (Some (set_isOnline true s)) w, Return tt)) /\
  (forall s, sync w = Some s ->
     SyncManager.connect w
     = (set_wire (wire w ++ (op_envelope <$> pendingOps (database w)))
          (set_sync (Some (set_isOnline true (set_connection true s))) w), Return tt)).
Proof.
  assert (forall w0, SyncManager.flushPendingOps w0
          = (if can_send w0
             then set_wire (wire w0 ++ (op_envelope <$> pendingOps (database w0))) w0
             else w0, Return tt)) as Hflush.
  { intros w0. unfold SyncManager.flushPendingOps, bind, get.
    destruct (can_send w0); simpl; [|done]. apply for_each_send. }
  split; [apply Hflush|]. split; [|split].
  - intros s Hs Hc. unfold SyncManager.onReconnect, bind, SyncManager.update_sync, modify.
    rewrite Hflush, Hs. simpl. unfold can_send. simpl. by rewrite Hc.
  - intros s Hs Hc. unfold SyncManager.onReconnect, bind, SyncManager.update_sync, modify.
    rewrite Hflush, Hs. simpl. unfold can_send. simpl. by rewrite Hc.
  - intros s Hs. unfold SyncManager.connect, bind, SyncManager.update_sync, modify.
    rewrite Hflush, Hs. simpl. done.
Qed.

Lemma audience_applyOperation (op : Operation) (w : World) :
  fired (exec_world (Database.applyOperation op) w) = fired w /\
  sync (exec_world (Database.applyOperation op) w) = sync w.
Proof.
  assert (forall {A} (c : M A), stable (keeps ledger) c ->
            stable (keeps (fun w => (fired w, sync w))) c) as Hproj.
  { intros A c Hc w0. specialize (Hc w0). unfold keeps, ledger in *. congruence. }
  enough (stable (keeps (fun w => (fired w, sync w))) (Database.applyOperation op)) as H.
  { specialize (H w). unfold keeps in H. by injection H. }
  unfold Database.applyOperation.
  repeat (cbn beta zeta;
    match goal with
    | |- stable _ (bind _ _) => apply stable_bind; [apply _ | | intros ?]
    | |- stable _ (ret _) => apply stable_ret; apply _
    | |- stable _ this => apply stable_this; apply _
    | |- stable _ Database.require_db => apply stable_require_db; apply _
    | |- stable _ (update_this _) => apply keeps_update_this; by intros
    | |- stable _ (Database.applyOp _) => apply Hproj, ledger_applyOp
    | |- stable _ Database.createSavepoint => apply Hproj, ledger_createSavepoint
    | |- stable _ (Database.rollbackAndReplay _) => apply Hproj, ledger_rollbackAndReplay
    | |- stable _ (console_log _) => apply Hproj, ledger_console_log
    | |- stable _ (Database.run _) => apply Hproj, ledger_run
    | |- stable _ Database.persist => apply Hproj, ledger_persist
    | |- stable _ (when _ _) => apply stable_when; [apply _|]
    | |- stable _ (match ?x with _ => _ end) => destruct x
    end).
Qed.

Lemma fire_if_spec (cb : ModuSQLCallbacks -> bool) (ev : event) (w : World) :
  SyncManager.fire_if cb ev w
  = (if has_callback cb w then set_fired (fired w ++ [ev]) w else w, Return tt).
Proof.
  unfold SyncManager.fire_if, has_callback, bind, get, when, fire, modify, ret. simpl.
  destruct (sync w) as [s|]; [|done]. by destruct (cb (callbacks s)).
Qed.

(** X11.  A network input whose envelope type is "sumql_op", handled on a
    ready database: the operation is the envelope's with [seq] replaced by
    the input's; it is delivered to the reconciler, which returns; then
    [onInput] is called with it if that callback was given, and nothing
    else happens. *)
Theorem input_is_applied_then_reported (input : NetworkInput) (env : Envelope)
    (w : World) :
  ready w -> in_data input = Some env -> env_type env = "sumql_op" ->
  let op := Database.as_operation (env_operation env) (in_seq input) in
  let w1 := exec_world (Database.applyOperation op) w in
  SyncManager.onInputHandler input w
  = (if has_callback onInput w then set_fired (fired w ++ [Input op]) w1 else w1,
     Return tt).
Proof.
  intros Hr Hd Ht. simpl.
  unfold SyncManager.onInputHandler, SyncManager.inputToOperation. rewrite Hd.
  rewrite decide_True by done.
  destruct (applyOperation_ready
              (Database.as_operation (env_operation env) (in_seq input)) w Hr)
    as (Hret & _).
  destruct (audience_applyOperation
              (Database.as_operation (env_operation env) (in_seq input)) w) as [Hf Hs].
  unfold wp in Hret. unfold exec_world in *. unfold bind.
  destruct (Database.applyOperation _ w) as [w1 r]. simpl in *. subst r.
  rewrite fire_if_spec. unfold has_callback.
  by rewrite Hs, Hf.
Qed.

Lemma input_is_applied_then_reported_witness :
  let input := Scenario.input_of "sumql_op" 1 Scenario.pending_a in
  let env := op_envelope Scenario.pending_a in
  let w := Scenario.online_world in
  ready w /\ in_data input = Some env /\ env_type env = "sumql_op" /\
  has_callback onInput w = false /\
  let op := Database.as_operation (env_operation env) (in_seq input) in
  let w1 := exec_world (Database.applyOperation op) w in
  SyncManager.onInputHandler input w
  = (if has_callback onInput w then set_fired (fired w ++ [Input op]) w1 else w1,
     Return tt).
Proof.
  cbv zeta.
  assert (ready Scenario.online_world) as Hr.
  { vm_compute. split; [reflexivity|]. split; [constructor | discriminate]. }
  split; [exact Hr|]. split; [reflexivity|]. split; [reflexivity|].
  split; [vm_compute; reflexivity|].
  exact (input_is_applied_then_reported
           (Scenario.input_of "sumql_op" 1 Scenario.pending_a)
           (op_envelope Scenario.pending_a) Scenario.online_world Hr eq_refl eq_refl).
Defined.

(** ** Joining a room, and the first [init] *)

Section Sorting.
Import SyncManager.

Lemma insert_by_seq_elem (x y : NetworkInput) (l : list NetworkInput) :
  y ∈ insert_by_seq x l -> y = x \/ y ∈ l.
Proof.
  induction l as [|z l IH]; simpl.
  - intros H. apply list_elem_of_singleton in H. by left.
  - destruct (in_seq x <=? in_seq z).
    + intros H. apply elem_of_cons in H as [->|H]; [by left | by right].
    + intros H. apply elem_of_cons in H as [->|H]; [right; by left|].
      destruct (IH H) as [->|Hl]; [by left | right; by right].
Qed.

Lemma insert_by_seq_sorted (x : NetworkInput) (l : list NetworkInput) :
  StronglySorted (fun a b => in_seq a <= in_seq b) l ->
  StronglySorted (fun a b => in_seq a <= in_seq b) (insert_by_seq x l).
Proof.
  induction l as [|z l IH]; simpl; intros Hl.
  - repeat constructor.
  - inversion Hl as [|? ? Hl' Hz]; subst.
    destruct (in_seq x <=? in_seq z) eqn:Hxz.
    + constructor; [exact Hl|]. constructor; [lia|].
      eapply List.Forall_impl; [|exact Hz]. intros a Ha. simpl in *. lia.
    + constructor; [by apply IH|].
      apply List.Forall_forall. intros a Ha.
      apply list_elem_of_In in Ha. destruct (insert_by_seq_elem _ _ _ Ha) as [->|Hal].
      * lia.
      * rewrite List.Forall_forall in Hz. apply Hz. by apply list_elem_of_In.
Qed.

Lemma sort_by_seq_sorted (l : list NetworkInput) :
  StronglySorted (fun a b => in_seq a <= in_seq b) (sort_by_seq l).
Proof.
  induction l as [|x l IH]; simpl; [constructor|]. by apply insert_by_seq_sorted.
Qed.

Lemma insert_by_seq_filter (n : Z) (x : NetworkInput) (l : list NetworkInput) :
  List.filter (fun i => in_seq i =? n) (insert_by_seq x l)
  = List.filter (fun i => in_seq i =? n) (x :: l).
Proof.
  induction l as [|z l IH]; [done|].
  cbn [insert_by_seq]. destruct (in_seq x <=? in_seq z) eqn:Hxz; [done|].
  cbn [List.filter] in *. rewrite IH.
  destruct (in_seq x =? n) eqn:Hx; [|done].
  assert ((in_seq z =? n) = false) as -> by lia. done.
Qed.

Lemma sort_by_seq_filter (n : Z) (l : list NetworkInput) :
  List.filter (fun i => in_seq i =? n) (sort_by_seq l)
  = List.filter (fun i => in_seq i =? n) l.
Proof.
  induction l as [|x l IH]; [done|].
  cbn [sort_by_seq foldr]. fold (sort_by_seq l). rewrite insert_by_seq_filter.
  cbn [List.filter]. by rewrite IH.
Qed.

Lemma operations_sorted (l : list NetworkInput) :
  StronglySorted (fun a b => in_seq a <= in_seq b) l ->
  StronglySorted (fun a b => op_seq a <= op_seq b) (omap inputToOperation l).
Proof.
  assert (forall i op, inputToOperation i = Some op -> op_seq op = in_seq i) as Hseq.
  { intros i op. unfold inputToOperation. destruct (in_data i); [|done].
    case_decide; [|done]. by intros [= <-]. }
  induction 1 as [|x l Hl IH Hx]; simpl; [constructor|].
  destruct (inputToOperation x) as [op|] eqn:Hop; [|exact IH].
  constructor; [exact IH|].
  apply List.Forall_forall. intros b Hb. apply list_elem_of_In in Hb.
  apply list_elem_of_omap in Hb as (i & Hi & Hib).
  rewrite (Hseq _ _ Hop), (Hseq _ _ Hib).
  rewrite List.Forall_forall in Hx. apply Hx. by apply list_elem_of_In.
Qed.

Lemma apply_inputs_spec (l : list NetworkInput) :
  forall (acc : list Operation) (w : World),
    ready w ->
    apply_inputs l acc w
    = (apply_all (omap inputToOperation l) w, Return (acc ++ omap inputToOperation l)).
Proof.
  induction l as [|i l IH]; intros acc w Hr.
  - simpl. by rewrite app_nil_r.
  - cbn [apply_inputs].
    change (omap inputToOperation (i :: l))
      with (match inputToOperation i with
            | Some op => op :: omap inputToOperation l
            | None => omap inputToOperation l
            end).
    destruct (inputToOperation i) as [op|]; [|by apply IH].
    pose proof (applyOperation_ready op w Hr) as H. unfold wp in H.
    unfold bind. cbn [apply_all foldl]. unfold exec_world at 2.
    destruct (Database.applyOperation op w) as [w1 r]. cbn [fst snd] in *.
    destruct H as (-> & Hr1 & _). rewrite (IH _ w1 Hr1). by rewrite <- app_assoc.
Qed.

Lemma apply_all_audience (ops : list Operation) (w : World) :
  fired (apply_all ops w) = fired w /\ sync (apply_all ops w) = sync w.
Proof.
  revert w. induction ops as [|op ops IH]; intros w; simpl; [done|].
  destruct (IH (exec_world (Database.applyOperation op) w)) as [-> ->].
  apply audience_applyOperation.
Qed.
End Sorting.

(** X12.  [onJoin] on a ready database: the inputs are taken in ascending
    [seq], inputs of equal [seq] in their order of arrival; those with
    envelope type "sumql_op" are delivered to the reconciler one after the
    other; [onConnect], if given, is then called once with the snapshot and
    exactly the operations delivered, in that order. *)
Theorem onJoin_applies_in_seq_order (snapshot : option string)
    (inputs : list NetworkInput) (w : World) :
  ready w ->
  let sorted := SyncManager.sort_by_seq inputs in
  let ops := omap SyncManager.inputToOperation sorted in
  let w1 := apply_all ops (exec_world (console_log (LogJoined (length inputs))) w) in
  StronglySorted (fun a b => in_seq a <= in_seq b) sorted /\
  (forall n, List.filter (fun i => in_seq i =? n) sorted
             = List.filter (fun i => in_seq i =? n) inputs) /\
  StronglySorted (fun a b => op_seq a <= op_seq b) ops /\
  SyncManager.onJoin snapshot inputs w
  = (if has_callback onConnect w
     then set_fired (fired w ++ [Connect snapshot ops]) w1 else w1,
     Return tt).
Proof.
  intros Hr. cbv zeta.
  split; [apply sort_by_seq_sorted|].
  split; [intros n; apply sort_by_seq_filter|].
  split; [apply operations_sorted, sort_by_seq_sorted|].
  set (w0 := exec_world (console_log (LogJoined (length inputs))) w).
  assert (ready w0) as Hr0 by exact Hr.
  unfold SyncManager.onJoin, bind.
  change (console_log (LogJoined (length inputs)) w) with (w0, Return tt).
  cbn beta iota. rewrite apply_inputs_spec by exact Hr0. cbn [app].
  rewrite fire_if_spec.
  destruct (apply_all_audience
              (omap SyncManager.inputToOperation (SyncManager.sort_by_seq inputs)) w0)
    as [Hf Hs].
  unfold has_callback. rewrite Hs, Hf. done.
Qed.

Lemma onJoin_applies_in_seq_order_witness :
  let a := {| p_id := "B_3_900"; p_localSeq := Int 3; p_table := "t"; p_type := "INSERT";
              p_data := Scenario.row "c" 3; p_clientId := "B" |} in
  let b := {| p_id := "B_1_900"; p_localSeq := Int 1; p_table := "t"; p_type := "INSERT";
              p_data := Scenario.row "b" 2; p_clientId := "B" |} in
  let inputs := [Scenario.input_of "sumql_op" 2 a; Scenario.input_of "other" 5 a;
                 Scenario.input_of "sumql_op" 1 b] in
  let w := Scenario.online_world in
  ready w /\
  omap SyncManager.inputToOperation (SyncManager.sort_by_seq inputs)
  = [Database.as_operation b 1; Database.as_operation a 2] /\
  StronglySorted (fun x y => op_seq x <= op_seq y)
    (omap SyncManager.inputToOperation (SyncManager.sort_by_seq inputs)) /\
  cell_values "id" "t" (exec_world (SyncManager.onJoin None inputs) w)
  = Some [Str "b"; Str "c"].
Proof.
  cbv zeta.
  assert (ready Scenario.online_world) as Hr.
  { vm_compute. split; [reflexivity|]. split; [constructor | discriminate]. }
  split; [exact Hr|]. split; [vm_compute; reflexivity|].
  split; [|vm_compute; reflexivity].
  exact (proj1 (proj2 (proj2 (onJoin_applies_in_seq_order None _ _ Hr)))).
Defined.

Lemma first_engine_steps :
  Sql.exec (Sql.CreateTableIfNotExists "_modusql_meta" Database.meta_columns (Some "key"))
    Sql.empty_engine
  = Sql.Ok (exec_or_same
              (Sql.CreateTableIfNotExists "_modusql_meta" Database.meta_columns
                 (Some "key")) Sql.empty_engine) /\
  Sql.exec (Sql.CreateTableIfNotExists "_modusql_ops" Database.ops_columns (Some "id"))
    (exec_or_same
       (Sql.CreateTableIfNotExists "_modusql_meta" Database.meta_columns (Some "key"))
       Sql.empty_engine)
  = Sql.Ok first_engine /\
  Sql.select_where "value" "_modusql_meta" "key" (Str "local_seq") first_engine
  = Sql.Ok [].
Proof. vm_compute. done. Qed.

(** X13.  [init] when nothing (or the empty string) is stored under the
    blob key: without sql.js it throws "Failed to load sql.js" and changes
    nothing; otherwise it replaces the engine handle by a new database with
    the two internal tables, both empty and no savepoint held, and changes
    nothing else: localStorage is not written and the counter is kept. *)
Theorem init_without_image (w : World) :
  Database.truthy (localStorage w !! Database.blob_key (dbName (database w))) = None ->
  Database.init w
  = (if sqljs w
     then (set_database (set_db (Some first_engine) (database w)) w, Return tt)
     else (w, Throw FailedToLoadSqlJs)) /\
  Sql.t_rows <$> Sql.tables first_engine
  = {[ "_modusql_meta" := []; "_modusql_ops" := [] ]} /\
  Sql.savepoints first_engine = [].
Proof.
  intros Hblob. split; [|split; [vm_compute; reflexivity | reflexivity]].
  destruct first_engine_steps as (H1 & H2 & H3).
  unfold Database.init, bind, get. cbn [fst snd].
  destruct (sqljs w); cbn [negb]; [|done].
  assert ((match localStorage w !! Database.blob_key (dbName (database w)) with
           | Some saved =>
               if decide (saved = EmptyString)
               then update_this (set_db (Some Sql.empty_engine))
               else match Sql.import_text saved with
                    | Some e => update_this (set_db (Some e))
                    | None => throw BadImage
                    end
           | None => update_this (set_db (Some Sql.empty_engine))
           end) = update_this (set_db (Some Sql.empty_engine))) as ->.
  { destruct (localStorage w !! _) as [saved|]; [|done]. simpl in Hblob.
    by destruct (decide (saved = EmptyString)). }
  unfold update_this, modify, Database.run, this.
  cbn [database set_database db set_db]. rewrite H1.
  cbn [database set_database db set_db]. rewrite H2.
  cbn [database set_database db set_db]. rewrite H3.
  unfold ret. by destruct w as [? ? ? ? ? [] ? ?].
Qed.

Lemma init_without_image_witness :
  let w := first_visit "app" "client_1000_abc" in
  Database.truthy (localStorage w !! Database.blob_key (dbName (database w))) = None /\
  Database.init w = (set_database (set_db (Some first_engine) (database w)) w, Return tt).
Proof.
  cbv zeta.
  assert (Database.truthy
            (localStorage (first_visit "app" "client_1000_abc")
               !! Database.blob_key (dbName (database (first_visit "app" "client_1000_abc"))))
          = None) as Hb by (vm_compute; reflexivity).
  split; [exact Hb|].
  exact (proj1 (init_without_image (first_visit "app" "client_1000_abc") Hb)).
Defined.
